(** * The hierarchical geocoder of [geocoder/geocoder.cpp]

    A shallow embedding of the query engine ([Geocoder::Go], the layer
    fillers, the per-query [Context] and the result finalizer
    [Context::FillResults]) together with the properties of its
    specification.

    Conventions of the embedding.
    - [double] certainties are exact rationals ([Q]); the weights are the
      decimal literals of the source.  Equality of certainties is [Qeq].
    - [size_t] token positions are list positions ([nat]); the counter
      [m_numUsedTokens] is a 64-bit value ([N]) whose [++] and [--] wrap.
    - A failed [CHECK] or [ASSERT] ends the run with [CheckFailed]; an
      unchecked access outside a vector ends it with [OutOfBounds].
    - [Geocoder::Go] recurses on the next [Type]; the embedding makes the
      recursion structural with a fuel argument and proves that the nine
      levels of [Type] are always enough.
    - A ghost field of the context, [g_events], logs every [MarkToken] and
      every [AddResult]; no operation reads it. *)

From Stdlib Require Import QArith Lqa.
From stdpp Require Import base gmap sets list strings sorting.
Close Scope Q_scope.
Set Warnings "-clear-no-such-hyp".

(** ** Outcomes of a run *)

Inductive Outcome (A : Type) : Type :=
| Done (a : A)
| CheckFailed
| OutOfBounds
| OutOfFuel.
Arguments Done {A} a.
Arguments CheckFailed {A}.
Arguments OutOfBounds {A}.
Arguments OutOfFuel {A}.

#[global] Instance Outcome_ret : MRet Outcome := λ A a, Done a.

#[global] Instance Outcome_bind : MBind Outcome := λ A B k m,
  match m with
  | Done a => k a
  | CheckFailed => CheckFailed
  | OutOfBounds => OutOfBounds
  | OutOfFuel => OutOfFuel
  end.

(** [for (x : xs) body] over a state [S], where [body] may abort the run. *)
Fixpoint forEachO {A S} (body : A → S → Outcome S) (xs : list A) (s : S)
    : Outcome S :=
  match xs with
  | [] => Done s
  | x :: xs' => s' ← body x s; forEachO body xs' s'
  end.

(** ** geocoder::Type and the helpers of the anonymous namespace *)

Inductive GeoType : Set :=
| Country | Region | Subregion | Locality | Suburb | Sublocality
| Street | Building | Count.

#[global] Instance GeoType_eq_dec : EqDecision GeoType.
Proof. solve_decision. Defined.

(** [static_cast<size_t>(type)] and back. *)
Definition GeoType_to_size (t : GeoType) : nat :=
  match t with
  | Country => 0 | Region => 1 | Subregion => 2 | Locality => 3 | Suburb => 4
  | Sublocality => 5 | Street => 6 | Building => 7 | Count => 8
  end.

Definition GeoType_of_size (n : nat) : option GeoType :=
  match n with
  | 0 => Some Country | 1 => Some Region | 2 => Some Subregion
  | 3 => Some Locality | 4 => Some Suburb | 5 => Some Sublocality
  | 6 => Some Street | 7 => Some Building | 8 => Some Count
  | _ => None
  end.

Definition kMaxResults : nat := 100.

Definition GetWeight (t : GeoType) : Q :=
  match t with
  | Country => 10
  | Region => 5
  | Subregion => 4
  | Locality => 3
  | Suburb => 3
  | Sublocality => 2
  | Street => 1
  | Building => 1 # 10
  | Count => 0
  end.

Definition NextType (type : GeoType) : Outcome GeoType :=
  if decide (type = Count) then CheckFailed
  else match GeoType_of_size (GeoType_to_size type + 1) with
       | Some t => Done t
       | None => OutOfBounds
       end.

Abbreviation Tokens := (list string).

(** [strings::JoinStrings(tokens, " ")]; a [UniString] is kept as the
    string it was made from. *)
Definition MakeHouseNumber (tokens : Tokens) : string := String.concat " " tokens.

(** ** size_t arithmetic of the used-token counter *)

Definition size_t_modulus : N := 2 ^ 64.
Definition size_t_incr (n : N) : N := ((n + 1) mod size_t_modulus)%N.
Definition size_t_decr (n : N) : N :=
  if (n =? 0)%N then (size_t_modulus - 1)%N else (n - 1)%N.

(** ** Data of the hierarchy, the index and the beam *)

(** [base::GeoObjectId]: the 64-bit encoded id. *)
Abbreviation GeoObjectId := N.

(** [Index::DocId]. *)
Abbreviation DocId := nat.

Module Entry.
(** Modelled from the spec: Hierarchy::Entry (geocoder/hierarchy.hpp is not
    among the sources).  [m_mainName t] is the main one of the entry's
    normalized names for level [t]. *)
Record t : Type := mk {
  m_osmId : GeoObjectId;
  m_type : GeoType;
  m_mainName : GeoType → string
}.
End Entry.

Module Hierarchy.
(** Modelled from the spec: Hierarchy (geocoder/hierarchy.hpp is not among
    the sources); only [IsParentTo] is used by the engine. *)
Record t : Type := mk {
  IsParentTo : Entry.t → Entry.t → bool
}.
End Hierarchy.

Module Index.
(** Modelled from the spec: Index (geocoder/index.hpp is not among the
    sources).  The two visitors are given by the list of doc ids they
    visit, in visiting order. *)
Record t : Type := mk {
  GetDoc : DocId → Entry.t;
  ForEachDocId : Tokens → list DocId;
  ForEachRelatedBuilding : DocId → list DocId
}.
End Index.

Module Layer.
Record t : Type := mk {
  m_type : GeoType;
  m_entries : list DocId
}.
End Layer.

Module BeamKey.
Record t : Type := mk {
  m_osmId : GeoObjectId;
  m_type : GeoType;
  m_tokenIds : list nat;
  m_allTypes : list GeoType
}.
End BeamKey.

Module Result.
Record t : Type := mk {
  m_osmId : GeoObjectId;
  m_certainty : Q
}.
End Result.

Module Beam.
(** Modelled from the spec: base::Beam (base/beam.hpp is not among the
    sources).  A bounded top-k collector: [Add] inserts while fewer than
    the capacity are retained, otherwise it evicts the minimum when the
    new score exceeds it; among equal scores the earlier insertion stays
    ahead; the entries are kept in descending score order. *)
Record Entry : Type := mkEntry {
  m_key : BeamKey.t;
  m_value : Q
}.

Record t : Type := mk {
  m_capacity : nat;
  m_entries : list Entry
}.

Definition make (capacity : nat) : t := mk capacity [].

Fixpoint insert (e : Entry) (es : list Entry) : list Entry :=
  match es with
  | [] => [e]
  | x :: xs =>
      if Qle_bool (m_value e) (m_value x) then x :: insert e xs else e :: es
  end.

Definition Add (key : BeamKey.t) (score : Q) (b : t) : t :=
  if decide (length (m_entries b) < m_capacity b) then
    mk (m_capacity b) (insert (mkEntry key score) (m_entries b))
  else
    match last (m_entries b) with
    | Some least =>
        if Qle_bool score (m_value least) then b
        else mk (m_capacity b)
               (insert (mkEntry key score) (removelast (m_entries b)))
    | None => b
    end.

Definition GetEntries (b : t) : list Entry := m_entries b.
End Beam.

(** ** Geocoder::Context *)

(** Ghost log: the token types and the counter after a [MarkToken], and the
    arguments of an [AddResult]. *)
Inductive Event : Type :=
| EvMark (types : list GeoType) (numUsed : N)
| EvAdd (key : BeamKey.t) (certainty : Q).

Record Context : Type := mkContext {
  m_tokens : Tokens;
  m_tokenTypes : list GeoType;
  m_numUsedTokens : N;
  m_layers : list Layer.t;
  m_beam : Beam.t;
  m_houseNumberPositionsInQuery : gset nat;
  g_events : list Event
}.

Definition set_marks (types : list GeoType) (n : N) (ctx : Context) : Context :=
  mkContext (m_tokens ctx) types n (m_layers ctx) (m_beam ctx)
    (m_houseNumberPositionsInQuery ctx) (g_events ctx ++ [EvMark types n]).

Definition set_layers (layers : list Layer.t) (ctx : Context) : Context :=
  mkContext (m_tokens ctx) (m_tokenTypes ctx) (m_numUsedTokens ctx) layers
    (m_beam ctx) (m_houseNumberPositionsInQuery ctx) (g_events ctx).

Definition set_houseNumberPositions (s : gset nat) (ctx : Context) : Context :=
  mkContext (m_tokens ctx) (m_tokenTypes ctx) (m_numUsedTokens ctx)
    (m_layers ctx) (m_beam ctx) s (g_events ctx).

Definition GetNumTokens (ctx : Context) : nat := length (m_tokens ctx).

Definition GetNumUsedTokens (ctx : Context) : Outcome N :=
  if decide (m_numUsedTokens ctx ≤ N.of_nat (length (m_tokens ctx)))%N
  then Done (m_numUsedTokens ctx) else CheckFailed.

Definition GetTokenType (id : nat) (ctx : Context) : Outcome GeoType :=
  if decide (id < length (m_tokenTypes ctx)) then
    match m_tokenTypes ctx !! id with
    | Some t => Done t
    | None => OutOfBounds
    end
  else CheckFailed.

Definition GetToken (id : nat) (ctx : Context) : Outcome string :=
  if decide (id < length (m_tokens ctx)) then
    match m_tokens ctx !! id with
    | Some t => Done t
    | None => OutOfBounds
    end
  else CheckFailed.

Definition MarkToken (id : nat) (type : GeoType) (ctx : Context)
    : Outcome Context :=
  if decide (id < length (m_tokens ctx)) then
    match m_tokenTypes ctx !! id with
    | Some old =>
        let wasUsed := bool_decide (old ≠ Count) in
        let nowUsed := bool_decide (type ≠ Count) in
        let n := m_numUsedTokens ctx in
        let n := if wasUsed && negb nowUsed then size_t_decr n else n in
        let n := if negb wasUsed && nowUsed then size_t_incr n else n in
        Done (set_marks (<[id := type]> (m_tokenTypes ctx)) n ctx)
    | None => OutOfBounds
    end
  else CheckFailed.

Definition IsTokenUsed (id : nat) (ctx : Context) : Outcome bool :=
  if decide (id < length (m_tokens ctx)) then
    match m_tokenTypes ctx !! id with
    | Some t => Done (bool_decide (t ≠ Count))
    | None => OutOfBounds
    end
  else CheckFailed.

Definition AllTokensUsed (ctx : Context) : bool :=
  bool_decide (m_numUsedTokens ctx = N.of_nat (length (m_tokens ctx))).

Definition AddResult (osmId : GeoObjectId) (certainty : Q) (type : GeoType)
    (tokenIds : list nat) (allTypes : list GeoType) (ctx : Context) : Context :=
  let key := BeamKey.mk osmId type tokenIds allTypes in
  mkContext (m_tokens ctx) (m_tokenTypes ctx) (m_numUsedTokens ctx)
    (m_layers ctx) (Beam.Add key certainty (m_beam ctx))
    (m_houseNumberPositionsInQuery ctx) (g_events ctx ++ [EvAdd key certainty]).

Definition MarkHouseNumberPositionsInQuery (tokenIds : list nat) (ctx : Context)
    : Context :=
  set_houseNumberPositions
    (m_houseNumberPositionsInQuery ctx ∪ list_to_set tokenIds) ctx.

(** ** ScopedMarkTokens: constructor and destructor over the range [l, r) *)

Definition MarkRange (type : GeoType) (l r : nat) (ctx : Context)
    : Outcome Context :=
  forEachO (λ i c, MarkToken i type c) (seq l (r - l)) ctx.

Definition ScopedMarkTokens_ctor (type : GeoType) (l r : nat) (ctx : Context)
    : Outcome Context :=
  if decide (l ≤ r) then
    if decide (r ≤ GetNumTokens ctx) then MarkRange type l r ctx
    else CheckFailed
  else CheckFailed.

Definition ScopedMarkTokens_dtor (l r : nat) (ctx : Context) : Outcome Context :=
  MarkRange Count l r ctx.

(** ** Context::IsGoodForPotentialHouseNumberAt and its helpers *)

(** Modelled from the spec: base::Includes (base/stl_helpers.hpp is not among
    the sources): the key's token ids are a superset of the needed ones. *)
Definition Includes (keyTokenIds : list nat) (needTokenIds : gset nat) : bool :=
  bool_decide (needTokenIds ⊆ list_to_set keyTokenIds).

(** The three flags of the loop of [IsBuildingWithAddress]. *)
Definition addressFlags (allTypes : list GeoType) : bool * bool * bool :=
  fold_left
    (λ '(gotLocality, gotStreet, gotBuilding) t,
       (if bool_decide (t = Region) || bool_decide (t = Subregion)
           || bool_decide (t = Locality) then true else gotLocality,
        if bool_decide (t = Street) then true else gotStreet,
        if bool_decide (t = Building) then true else gotBuilding))
    allTypes (false, false, false).

Definition IsBuildingWithAddress (beamKey : BeamKey.t) : bool :=
  if bool_decide (BeamKey.m_type beamKey ≠ Building) then false
  else
    let '(gotLocality, gotStreet, gotBuilding) :=
      addressFlags (BeamKey.m_allTypes beamKey) in
    gotLocality && gotStreet && gotBuilding.

Fixpoint HasLocalityOrRegion_loop (allTypes : list GeoType) : bool :=
  match allTypes with
  | [] => false
  | t :: ts =>
      if bool_decide (t = Region) || bool_decide (t = Subregion)
         || bool_decide (t = Locality)
      then true else HasLocalityOrRegion_loop ts
  end.

Definition HasLocalityOrRegion (beamKey : BeamKey.t) : bool :=
  HasLocalityOrRegion_loop (BeamKey.m_allTypes beamKey).

Definition ContainsTokenIds (beamKey : BeamKey.t) (needTokenIds : gset nat) : bool :=
  Includes (BeamKey.m_tokenIds beamKey) needTokenIds.

Definition IsGoodForPotentialHouseNumberAt (ctx : Context) (beamKey : BeamKey.t)
    (tokenIds : gset nat) : bool :=
  if bool_decide (length (BeamKey.m_tokenIds beamKey) = length (m_tokens ctx))
  then true
  else if IsBuildingWithAddress beamKey then true
  else if HasLocalityOrRegion beamKey && ContainsTokenIds beamKey tokenIds
  then true
  else false.

(** ** Context::FillResults *)

(** The emitting loop: [seen] is the set of ids of the entries iterated so
    far, [results] the vector being filled. *)
Definition emitStep (ctx : Context) (hasPotentialHouseNumber : bool)
    (st : gset GeoObjectId * list Result.t) (e : Beam.Entry)
    : gset GeoObjectId * list Result.t :=
  let '(seen, results) := st in
  let osmId := BeamKey.m_osmId (Beam.m_key e) in
  if bool_decide (osmId ∈ seen) then (seen, results)
  else
    let seen := {[osmId]} ∪ seen in
    if hasPotentialHouseNumber
       && negb (IsGoodForPotentialHouseNumberAt ctx (Beam.m_key e)
                  (m_houseNumberPositionsInQuery ctx))
    then (seen, results)
    else (seen, results ++ [Result.mk osmId (Beam.m_value e)]).

Definition emitLoop (ctx : Context) (entries : list Beam.Entry) : list Result.t :=
  snd (fold_left
         (emitStep ctx (negb (bool_decide (m_houseNumberPositionsInQuery ctx = ∅))))
         entries (∅, [])).

(** [r.m_certainty /= by] followed by the two range assertions. *)
Definition normalizeOne (by_ : Q) (r : Result.t) : Outcome Result.t :=
  let c := (Result.m_certainty r / by_)%Q in
  if Qle_bool 0 c then
    if Qle_bool c 1 then Done (Result.mk (Result.m_osmId r) c)
    else CheckFailed
  else CheckFailed.

Fixpoint normalizeAll (by_ : Q) (rs : list Result.t) : Outcome (list Result.t) :=
  match rs with
  | [] => Done []
  | r :: rs' =>
      r' ← normalizeOne by_ r;
      rs'' ← normalizeAll by_ rs';
      Done (r' :: rs'')
  end.

(** [std::is_sorted(first, last, less)]: no element is less than its
    predecessor. *)
Fixpoint is_sorted {A} (less : A → A → bool) (l : list A) : bool :=
  match l with
  | [] => true
  | x :: xs =>
      match xs with
      | [] => true
      | y :: _ => negb (less y x) && is_sorted less xs
      end
  end.

(** [base::LessBy(&Result::m_certainty)]. *)
Definition LessBy_certainty (a b : Result.t) : bool :=
  negb (Qle_bool (Result.m_certainty b) (Result.m_certainty a)).

(** [results] is the caller's vector; the function clears it first. *)
Definition FillResults (ctx : Context) (results : list Result.t)
    : Outcome (list Result.t) :=
  let results : list Result.t := [] in
  let results := results ++ emitLoop ctx (Beam.GetEntries (m_beam ctx)) in
  results ←
    match results with
    | [] => Done results
    | front :: _ => normalizeAll (Result.m_certainty front) results
    end;
  if is_sorted LessBy_certainty (rev results) then
    if decide (length results ≤ kMaxResults) then Done results
    else CheckFailed
  else CheckFailed.

Definition pop_back {A} (v : list A) : Outcome (list A) :=
  match v with
  | [] => OutOfBounds
  | _ => Done (removelast v)
  end.

(** ** Notions used to state the properties *)

(** Number of token positions whose type is not [Count]. *)
Definition countUsed (types : list GeoType) : nat :=
  length (filter (λ t, t ≠ Count) types).

(** The sum of the weights of all positions, added up from position 0 as the
    scoring loop does. *)
Definition sumWeights (types : list GeoType) : Q :=
  fold_left (λ acc t, (acc + GetWeight t)%Q) types 0%Q.

(** The assigned positions among the first [k], ascending. *)
Definition usedIds (types : list GeoType) (k : nat) : list nat :=
  filter (λ i, types !! i ≠ Some Count) (seq 0 k).

(** The types of the assigned positions, in position order. *)
Definition usedTypes (types : list GeoType) : list GeoType :=
  filter (λ t, t ≠ Count) types.

(** [types] with the positions of [l, r) overwritten, as the loops of
    [ScopedMarkTokens] do. *)
Definition setRange (type : GeoType) (l r : nat) (types : list GeoType)
    : list GeoType :=
  fold_left (λ acc i, <[i := type]> acc) (seq l (r - l)) types.

(** A vector length that [size_t] can hold. *)
Definition fitsSize (n : nat) : Prop := (N.of_nat n < size_t_modulus)%N.

(** The parallel vectors have one length and, the length being one that
    [size_t] can hold, the counter agrees with the token types. *)
Record ContextInv (ctx : Context) : Prop := mkContextInv {
  inv_length : length (m_tokenTypes ctx) = length (m_tokens ctx);
  inv_counter : fitsSize (length (m_tokens ctx)) →
    m_numUsedTokens ctx = N.of_nat (countUsed (m_tokenTypes ctx))
}.

(** What is demanded of a logged event in a run over [n] tokens: a
    [MarkToken] leaves the counter equal to the number of assigned
    positions, a recorded result satisfies [ok]. *)
Definition EventOk (n : nat) (ok : BeamKey.t → Q → Prop) (ev : Event) : Prop :=
  match ev with
  | EvMark types numUsed =>
      length types = n ∧ (fitsSize n → numUsed = N.of_nat (countUsed types))
  | EvAdd key c => ok key c
  end.

(** A result recorded by [Go] at [level] or deeper, entered with token types
    of weight [base]: its certainty is positive and at least [base], its
    type is a level that is not above [level]. *)
Definition recordOk (level : GeoType) (base : Q) (key : BeamKey.t) (c : Q)
    : Prop :=
  (0 < c)%Q ∧ (base <= c)%Q
  ∧ GeoType_to_size level ≤ GeoType_to_size (BeamKey.m_type key)
  ∧ BeamKey.m_type key ≠ Count.

(** The results recorded in a log: the key and the certainty of every
    [AddResult], in order. *)
Definition recorded (evs : list Event) : list (BeamKey.t * Q) :=
  omap (λ ev, match ev with
              | EvAdd key c => Some (key, c)
              | EvMark _ _ => None
              end) evs.

(** The beam after the [AddResult] calls of a log. *)
Definition replayAdds (evs : list Event) (b : Beam.t) : Beam.t :=
  fold_left
    (λ b ev, match ev with
             | EvAdd key c => Beam.Add key c b
             | EvMark _ _ => b
             end)
    evs b.

(** [ctx'] comes from [ctx] by marking tokens, recording results, noting
    house-number positions and changing the layer stack. *)
Record Evolves (ok : BeamKey.t → Q → Prop) (ctx ctx' : Context) : Prop :=
  mkEvolves {
  ev_tokens : m_tokens ctx' = m_tokens ctx;
  ev_houseNumbers :
    m_houseNumberPositionsInQuery ctx ⊆ m_houseNumberPositionsInQuery ctx';
  ev_log : ∃ evs,
    g_events ctx' = g_events ctx ++ evs
    ∧ m_beam ctx' = replayAdds evs (m_beam ctx)
    ∧ Forall (EventOk (length (m_tokens ctx)) ok) evs
}.

(** [ctx'] is [ctx] after a balanced piece of the search at [level]: token
    types, counter and layer stack are back to what they were. *)
Record Restored (level : GeoType) (ctx ctx' : Context) : Prop := mkRestored {
  rs_evolves :
    Evolves (recordOk level (sumWeights (m_tokenTypes ctx))) ctx ctx';
  rs_tokenTypes : m_tokenTypes ctx' = m_tokenTypes ctx;
  rs_numUsedTokens : fitsSize (length (m_tokens ctx)) →
    m_numUsedTokens ctx' = m_numUsedTokens ctx;
  rs_layers : m_layers ctx' = m_layers ctx
}.

(** [types'] assigns every position that [types] assigns, and in the same
    way. *)
Definition extendsTypes (types types' : list GeoType) : Prop :=
  Forall2 (λ a b, a = Count ∨ a = b) types types'.

(** The entries of a beam are in descending score order. *)
Definition descending (es : list Beam.Entry) : Prop :=
  StronglySorted (λ x y, (Beam.m_value y <= Beam.m_value x)%Q) es.

(** The certainties of a result list do not increase. *)
Definition nonIncreasing (rs : list Result.t) : Prop :=
  StronglySorted (λ x y, (Result.m_certainty y <= Result.m_certainty x)%Q) rs.

(** A beam as the engine keeps it: at most its capacity of entries, in
    descending order of positive scores. *)
Record BeamOk (b : Beam.t) : Prop := mkBeamOk {
  beam_length : length (Beam.m_entries b) ≤ Beam.m_capacity b;
  beam_descending : descending (Beam.m_entries b);
  beam_positive : Forall (λ e, (0 < Beam.m_value e)%Q) (Beam.m_entries b)
}.

(** The result emitted for a beam entry, before normalization. *)
Definition toResult (e : Beam.Entry) : Result.t :=
  Result.mk (BeamKey.m_osmId (Beam.m_key e)) (Beam.m_value e).

Definition osmIdOf (e : Beam.Entry) : GeoObjectId :=
  BeamKey.m_osmId (Beam.m_key e).

(** The condition of the specification for emitting the entry [e] that is
    iterated after the entries [earlier]: no earlier entry has its id, and
    when house-number positions were noted the entry passes the
    house-number filter. *)
Definition emitsEntry (ctx : Context) (earlier : list Beam.Entry)
    (e : Beam.Entry) : Prop :=
  (osmIdOf e ∉ osmIdOf <$> earlier)
  ∧ (m_houseNumberPositionsInQuery ctx ≠ ∅ →
     IsGoodForPotentialHouseNumberAt ctx (Beam.m_key e)
       (m_houseNumberPositionsInQuery ctx) = true).

#[global] Instance emitsEntry_dec ctx earlier e :
  Decision (emitsEntry ctx earlier e).
Proof. unfold emitsEntry. apply _. Defined.

(** A result with its certainty divided by [by_]. *)
Definition scaleBy (by_ : Q) (r : Result.t) : Result.t :=
  Result.mk (Result.m_osmId r) (Result.m_certainty r / by_)%Q.

(** What [FillResults] makes of the emitted results: every certainty is
    divided by the certainty of the first one. *)
Definition normalized (rs : list Result.t) : list Result.t :=
  match rs with
  | [] => []
  | front :: _ => scaleBy (Result.m_certainty front) <$> rs
  end.

(** The three ways of the specification to pass the house-number filter. *)
Definition goodForHouseNumber (ctx : Context) (key : BeamKey.t)
    (hnTokens : gset nat) : Prop :=
  length (BeamKey.m_tokenIds key) = length (m_tokens ctx)
  ∨ (BeamKey.m_type key = Building
     ∧ (Region ∈ BeamKey.m_allTypes key ∨ Subregion ∈ BeamKey.m_allTypes key
        ∨ Locality ∈ BeamKey.m_allTypes key)
     ∧ Street ∈ BeamKey.m_allTypes key
     ∧ Building ∈ BeamKey.m_allTypes key)
  ∨ ((Region ∈ BeamKey.m_allTypes key ∨ Subregion ∈ BeamKey.m_allTypes key
      ∨ Locality ∈ BeamKey.m_allTypes key)
     ∧ ∀ k, k ∈ hnTokens → k ∈ BeamKey.m_tokenIds key).

(** ** A small world to run the engine on

    France (country), Ile-de-France (region), Paris (locality), the street
    Rue de Rivoli and the building number 1 on it. *)

Module World.

(** Splits at spaces and drops empty tokens. *)
Fixpoint tokenize_aux (s : string) (cur : string) : Tokens :=
  match s with
  | EmptyString => if bool_decide (cur = "") then [] else [cur]
  | String c s' =>
      if Ascii.eqb c (Ascii.ascii_of_nat 32)
      then (if bool_decide (cur = "") then tokenize_aux s' ""
            else cur :: tokenize_aux s' "")
      else tokenize_aux s' (cur +:+ String c "")
  end.

Definition tokenize (s : string) : Tokens := tokenize_aux s "".

Definition isStreetSynonym (s : string) : bool :=
  bool_decide (s = "street") || bool_decide (s = "rue").

Definition isDigit (c : Ascii.ascii) : bool :=
  let n := Ascii.nat_of_ascii c in bool_decide (48 ≤ n ≤ 57).

Fixpoint allDigits (s : string) : bool :=
  match s with
  | EmptyString => true
  | String c s' => isDigit c && allDigits s'
  end.

Definition looksLikeHouseNumber (s : string) (isPrefix : bool) : bool :=
  negb (bool_decide (s = "")) && allDigits s.

Definition houseNumbersMatch (houseNumber query : string) (queryIsPrefix : bool)
    : bool :=
  bool_decide (houseNumber = query).

(** A document: its entry, the tokens of its name, the ids of its ancestors. *)
Record Doc : Type := mkDoc {
  entry : Entry.t;
  nameTokens : Tokens;
  ancestors : list GeoObjectId
}.

Definition mainName (type : GeoType) (name : string) : GeoType → string :=
  λ t, if bool_decide (t = type) then name else "".

Definition france : Doc :=
  mkDoc (Entry.mk 1 Country (mainName Country "france")) ["france"] [].
Definition ileDeFrance : Doc :=
  mkDoc (Entry.mk 2 Region (mainName Region "iledefrance")) ["iledefrance"] [1%N].
Definition paris : Doc :=
  mkDoc (Entry.mk 3 Locality (mainName Locality "paris")) ["paris"] [1%N; 2%N].
Definition rivoli : Doc :=
  mkDoc (Entry.mk 4 Street (mainName Street "rue de rivoli"))
    ["rue"; "de"; "rivoli"] [1%N; 2%N; 3%N].
Definition building1 : Doc :=
  mkDoc (Entry.mk 5 Building (mainName Building "1")) ["1"]
    [1%N; 2%N; 3%N; 4%N].

Definition docs : list Doc := [france; ileDeFrance; paris; rivoli; building1].

Definition getDoc (docId : DocId) : Doc := nth docId docs france.

Definition ancestorsOf (e : Entry.t) : list GeoObjectId :=
  match find (λ d, bool_decide (Entry.m_osmId (entry d) = Entry.m_osmId e))
          docs with
  | Some d => ancestors d
  | None => []
  end.

Definition hierarchy : Hierarchy.t :=
  Hierarchy.mk (λ a b, bool_decide (Entry.m_osmId a ∈ ancestorsOf b)).

(** Documents other than buildings whose name has every token of the query. *)
Definition matching (tokens : Tokens) : list DocId :=
  filter
    (λ docId,
       Entry.m_type (entry (getDoc docId)) ≠ Building
       ∧ Forall (λ tok, tok ∈ nameTokens (getDoc docId)) tokens)
    (seq 0 (length docs)).

(** The buildings whose ancestors include the document. *)
Definition relatedBuildings (docId : DocId) : list DocId :=
  filter
    (λ b,
       Entry.m_type (entry (getDoc b)) = Building
       ∧ Entry.m_osmId (entry (getDoc docId)) ∈ ancestors (getDoc b))
    (seq 0 (length docs)).

Definition index : Index.t :=
  Index.mk (λ docId, entry (getDoc docId)) matching
    (λ docId,
       if bool_decide (Entry.m_type (entry (getDoc docId)) = Street)
       then relatedBuildings docId else []).

(** The token types of the query "rivoli street" once "rivoli" is marked. *)
Definition rivoliMarked : Context :=
  mkContext ["rivoli"; "street"] [Street; Count] 1 [] (Beam.make kMaxResults)
    ∅ [].

(** A context whose beam holds the street twice, under two keys. *)
Definition twoHits : Context :=
  mkContext ["rivoli"; "rue"] [Count; Count] 0 []
    (Beam.mk kMaxResults
       [Beam.mkEntry (BeamKey.mk 4 Street [0; 1] [Street; Street]) 2;
        Beam.mkEntry (BeamKey.mk 4 Street [0] [Street]) 1])
    ∅ [].

(** An index whose name lookup returns the building for every subquery. *)
Definition buildingIndex : Index.t :=
  Index.mk (λ docId, entry (getDoc docId)) (λ _, [4]) (λ _, []).

End World.

(** ** The engine *)

Section Geocoder.

(** Text helpers of [search/] and [indexer/], which are not among the
    sources; they are pure functions to the engine. *)
Variable NormalizeAndTokenizeAsUtf8 : string → Tokens.
Variable IsStreetSynonym : string → bool.
Variable LooksLikeHouseNumber : string → bool → bool.
Variable HouseNumbersMatch : string → string → bool → bool.

(** The members of [Geocoder]. *)
Variable m_hierarchy : Hierarchy.t.
Variable m_index : Index.t.

Definition Context_ctor (query : string) : Context :=
  let tokens := NormalizeAndTokenizeAsUtf8 query in
  mkContext tokens (replicate (length tokens) Count) 0 []
    (Beam.make kMaxResults) ∅ [].

Definition HasParent (layers : list Layer.t) (e : Entry.t) : Outcome bool :=
  match last layers with
  | None => CheckFailed
  | Some layer =>
      Done (existsb
              (λ docId, Hierarchy.IsParentTo m_hierarchy
                          (Index.GetDoc m_index docId) e)
              (Layer.m_entries layer))
  end.

Definition FillRegularLayer_visit (ctx : Context) (type : GeoType)
    (docId : DocId) (curLayer : Layer.t) : Outcome Layer.t :=
  let d := Index.GetDoc m_index docId in
  if bool_decide (Entry.m_type d ≠ type) then Done curLayer
  else
    ok ← (if bool_decide (m_layers ctx = []) then Done true
          else HasParent (m_layers ctx) d);
    if ok : bool
    then Done (Layer.mk (Layer.m_type curLayer)
                 (Layer.m_entries curLayer ++ [docId]))
    else Done curLayer.

Definition FillRegularLayer (ctx : Context) (type : GeoType)
    (subquery : Tokens) (curLayer : Layer.t) : Outcome Layer.t :=
  forEachO (FillRegularLayer_visit ctx type)
    (Index.ForEachDocId m_index subquery) curLayer.

(** The visitor given to [ForEachRelatedBuilding]. *)
Definition relatedBuilding_visit (subqueryHN : string)
    (curLayer : Layer.t) (buildingDocId : DocId) : Layer.t :=
  let bld := Index.GetDoc m_index buildingDocId in
  let realHN := Entry.m_mainName bld Building in
  if HouseNumbersMatch realHN subqueryHN false
  then Layer.mk (Layer.m_type curLayer)
         (Layer.m_entries curLayer ++ [buildingDocId])
  else curLayer.

(** The body of the [for_each] over the layers, top of the stack first. *)
Definition FillBuildingsLayer_layer (subqueryHN : string)
    (subqueryTokenIds : list nat) (st : Layer.t * Context) (layer : Layer.t)
    : Layer.t * Context :=
  let '(curLayer, ctx) := st in
  if bool_decide (Layer.m_type layer ≠ Street)
     && bool_decide (Layer.m_type layer ≠ Locality)
  then (curLayer, ctx)
  else
    let ctx := MarkHouseNumberPositionsInQuery subqueryTokenIds ctx in
    let curLayer :=
      fold_left
        (λ cur docId,
           fold_left (relatedBuilding_visit subqueryHN)
             (Index.ForEachRelatedBuilding m_index docId) cur)
        (Layer.m_entries layer) curLayer in
    (curLayer, ctx).

Definition FillBuildingsLayer (ctx : Context) (subquery : Tokens)
    (subqueryTokenIds : list nat) (curLayer : Layer.t) : Layer.t * Context :=
  if bool_decide (m_layers ctx = []) then (curLayer, ctx)
  else
    let subqueryHN := MakeHouseNumber subquery in
    if negb (LooksLikeHouseNumber subqueryHN false) then (curLayer, ctx)
    else
      fold_left (FillBuildingsLayer_layer subqueryHN subqueryTokenIds)
        (rev (m_layers ctx)) (curLayer, ctx).

(** The locals of the scoring loop of [Go]. *)
Record Scoring : Type := mkScoring {
  certainty : Q;
  tokenIds : list nat;
  allTypes : list GeoType;
  streetSynonymMark : option (nat * nat)
}.

(** One turn of [for (tokId = 0; tokId < ctx.GetNumTokens(); ++tokId)]. *)
Definition scoreStep (type : GeoType) (tokId : nat) (st : Scoring * Context)
    : Outcome (Scoring * Context) :=
  let '(sc, ctx) := st in
  t ← GetTokenType tokId ctx;
  '(synonym, ctx) ←
    (if bool_decide (type = Street) && bool_decide (t = Count)
        && bool_decide (streetSynonymMark sc = None)
     then
       tok ← GetToken tokId ctx;
       if IsStreetSynonym tok then
         ctx ← ScopedMarkTokens_ctor Street tokId (tokId + 1) ctx;
         Done (Some (tokId, tokId + 1), ctx)
       else Done (streetSynonymMark sc, ctx)
     else Done (streetSynonymMark sc, ctx));
  let certainty := (certainty sc + GetWeight t)%Q in
  if bool_decide (t ≠ Count)
  then Done (mkScoring certainty (tokenIds sc ++ [tokId]) (allTypes sc ++ [t])
               synonym, ctx)
  else Done (mkScoring certainty (tokenIds sc) (allTypes sc) synonym, ctx).

Definition scoreTokens (type : GeoType) (ctx : Context)
    : Outcome (Scoring * Context) :=
  forEachO (scoreStep type) (seq 0 (GetNumTokens ctx))
    (mkScoring 0 [] [] None, ctx).

(** [for (docId : curLayer.m_entries) ctx.AddResult(...)]. *)
Definition addResults (type : GeoType) (sc : Scoring) (entries : list DocId)
    (ctx : Context) : Context :=
  fold_left
    (λ ctx docId,
       AddResult (Entry.m_osmId (Index.GetDoc m_index docId)) (certainty sc)
         type (tokenIds sc) (allTypes sc) ctx)
    entries ctx.

(** What [Go] does with a non-empty layer found for the tokens [i..j]:
    mark, score, record, push the layer, descend, and undo in the reverse
    order of the declarations ([pop], [streetSynonymMark], [mark]). *)
Definition GoFrame (go : GeoType → Context → Outcome Context) (type : GeoType)
    (i j : nat) (curLayer : Layer.t) (ctx : Context) : Outcome Context :=
  ctx ← ScopedMarkTokens_ctor type i (j + 1) ctx;
  '(sc, ctx) ← scoreTokens type ctx;
  let ctx := addResults type sc (Layer.m_entries curLayer) ctx in
  let ctx := set_layers (m_layers ctx ++ [curLayer]) ctx in
  next ← NextType type;
  ctx ← go next ctx;
  layers ← pop_back (m_layers ctx);
  let ctx := set_layers layers ctx in
  ctx ← match streetSynonymMark sc with
        | Some (l, r) => ScopedMarkTokens_dtor l r ctx
        | None => Done ctx
        end;
  ScopedMarkTokens_dtor i (j + 1) ctx.

(** [for (j = i; j < ctx.GetNumTokens(); ++j)], with [js] the values of
    [j] still to come. *)
Fixpoint GoInner (go : GeoType → Context → Outcome Context) (type : GeoType)
    (i : nat) (js : list nat) (subquery : Tokens)
    (subqueryTokenIds : list nat) (ctx : Context) : Outcome Context :=
  match js with
  | [] => Done ctx
  | j :: js' =>
      used ← IsTokenUsed j ctx;
      if used : bool then Done ctx
      else
        tok ← GetToken j ctx;
        let subquery := subquery ++ [tok] in
        let subqueryTokenIds := subqueryTokenIds ++ [j] in
        let curLayer := Layer.mk type [] in
        '(curLayer, ctx) ←
          (if bool_decide (type = Building)
           then Done (FillBuildingsLayer ctx subquery subqueryTokenIds curLayer)
           else
             curLayer ← FillRegularLayer ctx type subquery curLayer;
             Done (curLayer, ctx));
        if bool_decide (Layer.m_entries curLayer = [])
        then GoInner go type i js' subquery subqueryTokenIds ctx
        else
          ctx ← GoFrame go type i j curLayer ctx;
          GoInner go type i js' subquery subqueryTokenIds ctx
  end.

(** [for (i = 0; i < ctx.GetNumTokens(); ++i)]. *)
Definition GoOuter (go : GeoType → Context → Outcome Context) (type : GeoType)
    (ctx : Context) : Outcome Context :=
  forEachO
    (λ i ctx, GoInner go type i (seq i (GetNumTokens ctx - i)) [] [] ctx)
    (seq 0 (GetNumTokens ctx)) ctx.

Definition GoBody (go : GeoType → Context → Outcome Context) (type : GeoType)
    (ctx : Context) : Outcome Context :=
  if bool_decide (GetNumTokens ctx = 0) then Done ctx
  else if AllTokensUsed ctx then Done ctx
  else if bool_decide (type = Count) then Done ctx
  else
    ctx ← GoOuter go type ctx;
    next ← NextType type;
    go next ctx.

Fixpoint Go (fuel : nat) (type : GeoType) (ctx : Context) : Outcome Context :=
  match fuel with
  | 0 => OutOfFuel
  | S fuel' => GoBody (Go fuel') type ctx
  end.

(** One call of [Go] for each value of [Type]. *)
Definition Go_fuel : nat := 9.

Definition ProcessQuery (query : string) (results : list Result.t)
    : Outcome (list Result.t) :=
  let ctx := Context_ctor query in
  ctx ← Go Go_fuel Country ctx;
  FillResults ctx results.

(** ** Notions that depend on the index and the text helpers *)

(** Position [i] is unassigned and holds a street synonym. *)
Definition isFreeSynonym (tokens : Tokens) (types : list GeoType) (i : nat)
    : bool :=
  bool_decide (types !! i = Some Count)
  && match tokens !! i with
     | Some tok => IsStreetSynonym tok
     | None => false
     end.

(** The first such position below [k]. *)
Definition firstFreeSynonym (tokens : Tokens) (types : list GeoType) (k : nat)
    : option nat :=
  head (filter (λ i, isFreeSynonym tokens types i = true) (seq 0 k)).

(** The synonym mark held after the first [k] turns of the scoring loop. *)
Definition markAfter (type : GeoType) (tokens : Tokens) (types : list GeoType)
    (k : nat) : option (nat * nat) :=
  if bool_decide (type = Street)
  then (λ p, (p, p + 1)) <$> firstFreeSynonym tokens types k
  else None.

(** The token types once the synonym mark is made. *)
Definition typesAfter (types : list GeoType) (mark : option (nat * nat))
    : list GeoType :=
  match mark with
  | Some (p, _) => <[p := Street]> types
  | None => types
  end.

(** Some entry of the top layer is a parent of [d]. *)
Definition parentInTop (layers : list Layer.t) (d : Entry.t) : bool :=
  match last layers with
  | Some top =>
      existsb
        (λ docId,
           Hierarchy.IsParentTo m_hierarchy (Index.GetDoc m_index docId) d)
        (Layer.m_entries top)
  | None => false
  end.

(** The condition under which a visited document enters a regular layer:
    its type is the level's, and the layer stack is empty or the top layer
    holds a parent of it. *)
Definition acceptsDoc (layers : list Layer.t) (type : GeoType) (docId : DocId)
    : bool :=
  bool_decide (Entry.m_type (Index.GetDoc m_index docId) = type)
  && (bool_decide (layers = [])
      || parentInTop layers (Index.GetDoc m_index docId)).

(** A callee that returns and leaves the search state balanced. *)
Definition GoOk (level : GeoType) (go : Context → Outcome Context) : Prop :=
  ∀ ctx, ContextInv ctx → ∃ ctx', go ctx = Done ctx' ∧ Restored level ctx ctx'.

(** The key under which a frame at level [type] records the document
    [docId] when the token types, its own mark included, are [types]. *)
Definition frameKey (type : GeoType) (types : list GeoType) (docId : DocId)
    : BeamKey.t :=
  BeamKey.mk (Entry.m_osmId (Index.GetDoc m_index docId)) type
    (usedIds types (length types)) (usedTypes types).

(** A result as a frame of [Go] records it when [Go] was entered with the
    token types [types0]: the frame's level [type] is assigned somewhere,
    the key lists the assigned positions and their types, the certainty is
    the sum of all weights, and below the Building level the document is of
    the frame's level. *)
Definition frameRecord (types0 : list GeoType) (key : BeamKey.t) (c : Q)
    : Prop :=
  ∃ type types docId,
    extendsTypes types0 types ∧ type ≠ Count ∧ type ∈ types
    ∧ key = frameKey type types docId ∧ c = sumWeights types
    ∧ (type ≠ Building → Entry.m_type (Index.GetDoc m_index docId) = type).

(** A logged event of a run entered with the token types [types0]. *)
Definition eventTraced (types0 : list GeoType) (ev : Event) : Prop :=
  match ev with
  | EvMark types _ => extendsTypes types0 types
  | EvAdd key c => frameRecord types0 key c
  end.

(** [ctx'] comes from [ctx] by steps that keep the assignments [types0] and
    note only positions below [n]. *)
Record TracedAt (types0 : list GeoType) (n : nat) (ctx ctx' : Context)
    : Prop := mkTracedAt {
  tr_events : ∃ evs,
    g_events ctx' = g_events ctx ++ evs ∧ Forall (eventTraced types0) evs;
  tr_houseNumbers : ∀ k,
    k ∈ m_houseNumberPositionsInQuery ctx' →
    k ∈ m_houseNumberPositionsInQuery ctx ∨ k < n
}.

(** A callee all of whose steps are traced. *)
Definition GoTraced (go : Context → Outcome Context) : Prop :=
  ∀ ctx ctx', ContextInv ctx → go ctx = Done ctx' →
    TracedAt (m_tokenTypes ctx) (length (m_tokens ctx)) ctx ctx'.

(** ** Basic facts *)

Lemma forEachO_app {A S} (body : A → S → Outcome S) (xs ys : list A) (s : S) :
  forEachO body (xs ++ ys) s = forEachO body xs s ≫= forEachO body ys.
Proof.
  revert s. induction xs as [|x xs IH]; intros s; simpl; [done|].
  destruct (body x s); simpl; auto.
Qed.

Lemma countUsed_cons (t : GeoType) (types : list GeoType) :
  countUsed (t :: types) = (if decide (t ≠ Count) then 1 else 0) + countUsed types.
Proof. unfold countUsed. rewrite filter_cons. destruct (decide (t ≠ Count)); done. Qed.

Lemma countUsed_le (types : list GeoType) : countUsed types ≤ length types.
Proof. unfold countUsed. apply length_filter. Qed.

Lemma countUsed_insert (types : list GeoType) (id : nat) (old t : GeoType) :
  types !! id = Some old →
  countUsed (<[id := t]> types) + (if decide (old ≠ Count) then 1 else 0)
  = countUsed types + (if decide (t ≠ Count) then 1 else 0).
Proof.
  revert id. induction types as [|x xs IH]; intros id Hl; [done|].
  destruct id as [|id]; simpl in *.
  - injection Hl as ->. rewrite !countUsed_cons. lia.
  - rewrite !countUsed_cons. specialize (IH _ Hl). lia.
Qed.

(** ** The evolution relation *)

Lemma replayAdds_app (evs1 evs2 : list Event) (b : Beam.t) :
  replayAdds (evs1 ++ evs2) b = replayAdds evs2 (replayAdds evs1 b).
Proof. unfold replayAdds. apply fold_left_app. Qed.

Lemma EventOk_weaken (n : nat) (ok ok' : BeamKey.t → Q → Prop) (ev : Event) :
  (∀ key c, ok key c → ok' key c) → EventOk n ok ev → EventOk n ok' ev.
Proof. intros Himp. destruct ev as [tys k|key c]; simpl; [done|apply Himp]. Qed.

Lemma recordOk_weaken (level level' : GeoType) (base base' : Q)
    (key : BeamKey.t) (c : Q) :
  GeoType_to_size level' ≤ GeoType_to_size level → (base' <= base)%Q →
  recordOk level base key c → recordOk level' base' key c.
Proof.
  intros Hl Hb (H0 & H1 & H2 & H3). split_and!; try done; [lra|lia].
Qed.

Lemma Evolves_refl (ok : BeamKey.t → Q → Prop) (ctx : Context) :
  Evolves ok ctx ctx.
Proof.
  split; [done|done|]. exists []. rewrite app_nil_r. by split_and!.
Qed.

Lemma Evolves_trans (ok : BeamKey.t → Q → Prop) (c1 c2 c3 : Context) :
  Evolves ok c1 c2 → Evolves ok c2 c3 → Evolves ok c1 c3.
Proof.
  intros [Ht1 Hh1 (evs1 & He1 & Hb1 & Hok1)] [Ht2 Hh2 (evs2 & He2 & Hb2 & Hok2)].
  split.
  - congruence.
  - set_solver.
  - exists (evs1 ++ evs2). split; [|split].
    + rewrite He2, He1. by rewrite app_assoc.
    + rewrite Hb2, Hb1. by rewrite replayAdds_app.
    + apply Forall_app. split; [done|]. by rewrite <- Ht1.
Qed.

Lemma Evolves_weaken (ok ok' : BeamKey.t → Q → Prop) (c1 c2 : Context) :
  (∀ key c, ok key c → ok' key c) → Evolves ok c1 c2 → Evolves ok' c1 c2.
Proof.
  intros Himp [Ht Hh (evs & He & Hb & Hok)]. split; [done|done|].
  exists evs. split_and!; try done.
  eapply Forall_impl; [exact Hok|]. intros ev. by apply EventOk_weaken.
Qed.

Lemma Evolves_set_layers (ok : BeamKey.t → Q → Prop) (layers : list Layer.t)
    (ctx : Context) :
  Evolves ok ctx (set_layers layers ctx).
Proof.
  split; [done|done|]. exists []. simpl. rewrite app_nil_r. by split_and!.
Qed.

Lemma recorded_app (evs1 evs2 : list Event) :
  recorded (evs1 ++ evs2) = recorded evs1 ++ recorded evs2.
Proof. unfold recorded. apply omap_app. Qed.

Lemma recorded_EventOk (n : nat) (ok : BeamKey.t → Q → Prop) (evs : list Event) :
  Forall (EventOk n ok) evs → Forall (λ kc, ok kc.1 kc.2) (recorded evs).
Proof.
  induction 1 as [|ev evs Hev _ IH]; [constructor|].
  destruct ev as [tys k|key c]; simpl; [done|]. by constructor.
Qed.

(** A step that is fine whatever is demanded of a record records nothing. *)
Lemma Evolves_marks_only (c c' : Context) (evs : list Event) :
  (∀ ok, Evolves ok c c') → g_events c' = g_events c ++ evs →
  recorded evs = [].
Proof.
  intros Hall Hevs.
  assert (Hno : ∀ key q, EvAdd key q ∈ evs → False).
  { intros key q Hin.
    destruct (Hall (λ _ _, False)) as [_ _ (evs' & He' & _ & Hok)].
    rewrite Hevs in He'. apply app_inv_head in He'. subst evs'.
    by apply (proj1 (Forall_forall _ _) Hok) in Hin. }
  clear Hevs. induction evs as [|ev evs IH]; [done|].
  destruct ev as [tys k|key q]; simpl.
  - apply IH. intros key q Hin. apply (Hno key q). by right.
  - exfalso. apply (Hno key q). by left.
Qed.

(** ** MarkToken and ScopedMarkTokens *)

Lemma MarkToken_spec (id : nat) (type : GeoType) (ctx : Context) :
  ContextInv ctx → id < length (m_tokens ctx) →
  ∃ ctx', MarkToken id type ctx = Done ctx'
    ∧ ContextInv ctx'
    ∧ (∀ ok, Evolves ok ctx ctx')
    ∧ m_tokenTypes ctx' = <[id := type]> (m_tokenTypes ctx)
    ∧ m_layers ctx' = m_layers ctx.
Proof.
  intros [Hlen Hcnt] Hid. unfold MarkToken.
  destruct (decide (id < length (m_tokens ctx))) as [_|]; [|done].
  destruct (lookup_lt_is_Some_2 (m_tokenTypes ctx) id) as [old Hold]; [lia|].
  rewrite Hold. eexists. split; [reflexivity|].
  pose proof (countUsed_insert _ _ _ type Hold) as Hins.
  pose proof (countUsed_le (m_tokenTypes ctx)) as Hle.
  pose proof (countUsed_le (<[id := type]> (m_tokenTypes ctx))) as Hle'.
  rewrite length_insert in Hle'.
  assert (Hc : fitsSize (length (m_tokens ctx)) →
               m_numUsedTokens
                 (set_marks (<[id := type]> (m_tokenTypes ctx))
                    (let n := m_numUsedTokens ctx in
                     let n0 := if bool_decide (old ≠ Count)
                                  && negb (bool_decide (type ≠ Count))
                               then size_t_decr n else n in
                     if negb (bool_decide (old ≠ Count))
                        && bool_decide (type ≠ Count)
                     then size_t_incr n0 else n0) ctx)
               = N.of_nat (countUsed (<[id := type]> (m_tokenTypes ctx)))).
  { intros Hsize. simpl. rewrite (Hcnt Hsize).
    unfold fitsSize, size_t_incr, size_t_decr, size_t_modulus in *.
    destruct (decide (old ≠ Count)) as [Ho|Ho], (decide (type ≠ Count)) as [Ht|Ht];
      rewrite ?(bool_decide_eq_true_2 _ Ho), ?(bool_decide_eq_false_2 _ Ho),
        ?(bool_decide_eq_true_2 _ Ht), ?(bool_decide_eq_false_2 _ Ht); simpl.
    - f_equal. lia.
    - destruct (N.eqb_spec (N.of_nat (countUsed (m_tokenTypes ctx))) 0); lia.
    - rewrite N.mod_small; lia.
    - f_equal. lia. }
  split; [|split; [|split]].
  - split; simpl.
    + by rewrite length_insert.
    + exact Hc.
  - intros ok. split; [done|done|].
    eexists [_]. split; [reflexivity|]. split; [done|].
    constructor; [|done]. simpl. split; [|exact Hc].
    rewrite length_insert. done.
  - done.
  - done.
Qed.

Lemma markEach_spec (type : GeoType) (ids : list nat) (ctx : Context) :
  ContextInv ctx → Forall (λ i, i < length (m_tokens ctx)) ids →
  ∃ ctx', forEachO (λ i c, MarkToken i type c) ids ctx = Done ctx'
    ∧ ContextInv ctx'
    ∧ (∀ ok, Evolves ok ctx ctx')
    ∧ m_tokenTypes ctx'
      = fold_left (λ acc i, <[i := type]> acc) ids (m_tokenTypes ctx)
    ∧ m_layers ctx' = m_layers ctx.
Proof.
  revert ctx. induction ids as [|i ids IH]; intros ctx Hinv Hall; simpl.
  - exists ctx. split_and!; try done. intros; apply Evolves_refl.
  - inversion Hall as [|? ? Hi Hrest]; subst.
    destruct (MarkToken_spec i type ctx Hinv Hi)
      as (c1 & -> & Hinv1 & Hev1 & Hty1 & Hla1). simpl.
    destruct (IH c1 Hinv1) as (c2 & -> & Hinv2 & Hev2 & Hty2 & Hla2).
    { rewrite (ev_tokens _ _ _ (Hev1 (λ _ _, True))). done. }
    exists c2. split_and!; try done.
    + intros ok. eapply Evolves_trans; eauto.
    + by rewrite Hty2, Hty1.
    + congruence.
Qed.

Lemma MarkRange_spec (type : GeoType) (l r : nat) (ctx : Context) :
  ContextInv ctx → r ≤ length (m_tokens ctx) →
  ∃ ctx', MarkRange type l r ctx = Done ctx'
    ∧ ContextInv ctx'
    ∧ (∀ ok, Evolves ok ctx ctx')
    ∧ m_tokenTypes ctx' = setRange type l r (m_tokenTypes ctx)
    ∧ m_layers ctx' = m_layers ctx.
Proof.
  intros Hinv Hr. apply markEach_spec; [done|].
  apply Forall_forall. intros i Hi. apply elem_of_seq in Hi. lia.
Qed.

Lemma ScopedMarkTokens_ctor_spec (type : GeoType) (l r : nat) (ctx : Context) :
  ContextInv ctx → l ≤ r → r ≤ length (m_tokens ctx) →
  ∃ ctx', ScopedMarkTokens_ctor type l r ctx = Done ctx'
    ∧ ContextInv ctx'
    ∧ (∀ ok, Evolves ok ctx ctx')
    ∧ m_tokenTypes ctx' = setRange type l r (m_tokenTypes ctx)
    ∧ m_layers ctx' = m_layers ctx.
Proof.
  intros Hinv Hlr Hr. unfold ScopedMarkTokens_ctor, GetNumTokens.
  destruct (decide (l ≤ r)); [|done].
  destruct (decide (r ≤ length (m_tokens ctx))); [|done].
  by apply MarkRange_spec.
Qed.

(** ** Ranges of token types *)

Lemma length_setRange (type : GeoType) (l r : nat) (types : list GeoType) :
  length (setRange type l r types) = length types.
Proof.
  unfold setRange. generalize (seq l (r - l)). intros ids. revert types.
  induction ids as [|i ids IH]; intros types; simpl; [done|].
  by rewrite IH, length_insert.
Qed.

Lemma lookup_setRange (type : GeoType) (l r k : nat) (types : list GeoType) :
  setRange type l r types !! k
  = if decide (l ≤ k < r ∧ k < length types) then Some type else types !! k.
Proof.
  unfold setRange.
  assert (Hgen : ∀ ids (tys : list GeoType),
    fold_left (λ acc i, <[i := type]> acc) ids tys !! k
    = if decide (k ∈ ids ∧ k < length tys) then Some type else tys !! k).
  { induction ids as [|i ids IH]; intros tys; cbn [fold_left].
    - case_decide as H; [|done]. destruct H as [H _]. by apply elem_of_nil in H.
    - rewrite IH, length_insert.
      destruct (decide (k ∈ ids ∧ k < length tys)) as [[Hin Hlt]|Hn].
      + rewrite decide_True; [done|]. split; [by right|done].
      + destruct (decide (i = k)) as [->|Hne].
        * destruct (decide (k < length tys)).
          -- rewrite list_lookup_insert_eq by done.
             rewrite decide_True; [done|]. split; [by left|done].
          -- rewrite list_insert_ge by lia.
             rewrite decide_False; [done|]. intros [_ ?]. lia.
        * rewrite list_lookup_insert_ne by done.
          rewrite decide_False; [done|]. intros [Hin Hlt].
          apply elem_of_cons in Hin as [->|Hin]; [done|]. apply Hn. done. }
  rewrite Hgen.
  destruct (decide (l ≤ k < r ∧ k < length types)) as [[H1 H2]|Hn].
  - rewrite decide_True; [done|]. split; [|done]. apply elem_of_seq. lia.
  - rewrite decide_False; [done|]. intros [Hin Hlt]. apply Hn.
    apply elem_of_seq in Hin. split; [lia|done].
Qed.

(** Clearing a range that was unassigned before it was marked gives the
    token types back. *)
Lemma setRange_undo (type : GeoType) (l r : nat) (types : list GeoType) :
  (∀ k, l ≤ k < r → k < length types → types !! k = Some Count) →
  setRange Count l r (setRange type l r types) = types.
Proof.
  intros Hfree. apply list_eq. intros k.
  rewrite !lookup_setRange, length_setRange.
  destruct (decide (l ≤ k < r ∧ k < length types)) as [[H1 H2]|]; [|done].
  symmetry. by apply Hfree.
Qed.

(** ** The scoring loop *)

Lemma firstFreeSynonym_S (tokens : Tokens) (types : list GeoType) (k : nat) :
  firstFreeSynonym tokens types (S k)
  = match firstFreeSynonym tokens types k with
    | Some p => Some p
    | None => if isFreeSynonym tokens types k then Some k else None
    end.
Proof.
  unfold firstFreeSynonym. rewrite seq_S, filter_app. simpl.
  destruct (filter _ (seq 0 k)) as [|p ps]; simpl; [|done].
  rewrite filter_cons, filter_nil.
  destruct (decide (isFreeSynonym tokens types k = true)) as [->|Hn]; [done|].
  by apply not_true_is_false in Hn as ->.
Qed.

Lemma firstFreeSynonym_Some (tokens : Tokens) (types : list GeoType) (k p : nat) :
  firstFreeSynonym tokens types k = Some p →
  p < k ∧ isFreeSynonym tokens types p = true.
Proof.
  unfold firstFreeSynonym. intros H.
  assert (Hin : p ∈ filter (λ i, isFreeSynonym tokens types i = true) (seq 0 k)).
  { destruct (filter _ (seq 0 k)) as [|q qs]; [done|].
    simpl in H. injection H as ->. by left. }
  apply list_elem_of_filter in Hin as [Hp Hs]. apply elem_of_seq in Hs.
  split; [lia|done].
Qed.

Lemma isFreeSynonym_free (tokens : Tokens) (types : list GeoType) (p : nat) :
  isFreeSynonym tokens types p = true → types !! p = Some Count.
Proof.
  unfold isFreeSynonym. intros H. apply andb_true_iff in H as [H _].
  by apply bool_decide_eq_true in H.
Qed.

Lemma sumWeights_snoc (types : list GeoType) (t : GeoType) :
  sumWeights (types ++ [t]) = (sumWeights types + GetWeight t)%Q.
Proof. unfold sumWeights. by rewrite fold_left_app. Qed.

Lemma usedIds_S (types : list GeoType) (k : nat) :
  usedIds types (S k)
  = usedIds types k ++ (if decide (types !! k ≠ Some Count) then [k] else []).
Proof.
  unfold usedIds. rewrite seq_S, filter_app. simpl.
  rewrite filter_cons, filter_nil. done.
Qed.

Lemma usedTypes_snoc (types : list GeoType) (t : GeoType) :
  usedTypes (types ++ [t])
  = usedTypes types ++ (if decide (t ≠ Count) then [t] else []).
Proof. unfold usedTypes. by rewrite filter_app, filter_cons, filter_nil. Qed.

Lemma setRange_single (type : GeoType) (k : nat) (types : list GeoType) :
  setRange type k (k + 1) types = <[k := type]> types.
Proof. unfold setRange. replace (k + 1 - k) with 1 by lia. done. Qed.

Lemma scoreTokens_prefix (type : GeoType) (ctx : Context) (k : nat) :
  ContextInv ctx → k ≤ length (m_tokens ctx) →
  ∃ sc ctx',
    forEachO (scoreStep type) (seq 0 k) (mkScoring 0 [] [] None, ctx)
    = Done (sc, ctx')
    ∧ certainty sc = sumWeights (take k (m_tokenTypes ctx))
    ∧ tokenIds sc = usedIds (m_tokenTypes ctx) k
    ∧ allTypes sc = usedTypes (take k (m_tokenTypes ctx))
    ∧ streetSynonymMark sc = markAfter type (m_tokens ctx) (m_tokenTypes ctx) k
    ∧ m_tokenTypes ctx' = typesAfter (m_tokenTypes ctx) (streetSynonymMark sc)
    ∧ ContextInv ctx'
    ∧ (∀ ok, Evolves ok ctx ctx')
    ∧ m_layers ctx' = m_layers ctx.
Proof.
  intros Hinv. induction k as [|k IH]; intros Hk.
  - exists (mkScoring 0 [] [] None), ctx. simpl.
    unfold markAfter, firstFreeSynonym. simpl.
    split_and!; try done.
    + by destruct (bool_decide (type = Street)).
    + intros; apply Evolves_refl.
  - destruct IH as (sc & c1 & Hrun & Hcert & Hids & Hall & Hmark & Hty & Hinv1
                       & Hev1 & Hla1); [lia|].
    rewrite seq_S, forEachO_app, Hrun. simpl.
    pose proof (ev_tokens _ _ _ (Hev1 (λ _ _, True))) as Htok.
    pose proof (inv_length _ Hinv) as Hlen.
    pose proof (inv_length _ Hinv1) as Hlen1. rewrite Htok in Hlen1.
    destruct (lookup_lt_is_Some_2 (m_tokenTypes ctx) k) as [t Ht]; [lia|].
    destruct (lookup_lt_is_Some_2 (m_tokens ctx) k) as [tok Htk]; [lia|].
    assert (Ht1 : m_tokenTypes c1 !! k = Some t).
    { rewrite Hty, Hmark. unfold markAfter, typesAfter.
      destruct (bool_decide (type = Street)); [|done].
      destruct (firstFreeSynonym _ _ k) as [p|] eqn:Hp; simpl; [|done].
      apply firstFreeSynonym_Some in Hp as [Hp _].
      rewrite list_lookup_insert_ne by lia. done. }
    unfold GetTokenType. rewrite decide_True by lia. rewrite Ht1. simpl.
    assert (Hsyn : ∃ mk c2,
      (if bool_decide (type = Street) && bool_decide (t = Count)
          && bool_decide (streetSynonymMark sc = None)
       then GetToken k c1 ≫= λ tok0 : string,
            if IsStreetSynonym tok0
            then ScopedMarkTokens_ctor Street k (k + 1) c1 ≫= λ ctx0 : Context,
                 Done (Some (k, k + 1), ctx0)
            else Done (streetSynonymMark sc, c1)
       else Done (streetSynonymMark sc, c1)) = Done (mk, c2)
      ∧ mk = markAfter type (m_tokens ctx) (m_tokenTypes ctx) (S k)
      ∧ m_tokenTypes c2 = typesAfter (m_tokenTypes ctx) mk
      ∧ ContextInv c2 ∧ (∀ ok, Evolves ok c1 c2)
      ∧ m_layers c2 = m_layers c1).
    { unfold markAfter in *. rewrite firstFreeSynonym_S.
      unfold isFreeSynonym. rewrite Ht, Htk.
      destruct (bool_decide (type = Street)) eqn:Hst; simpl.
      2:{ exists (streetSynonymMark sc), c1. rewrite Hmark.
          split_and!; try done.
          - by rewrite Hty, Hmark.
          - intros; apply Evolves_refl. }
      destruct (firstFreeSynonym _ _ k) as [p|] eqn:Hp; simpl in *.
      { rewrite Hmark. simpl. rewrite andb_false_r.
        exists (Some (p, p + 1)), c1. split_and!; try done.
        - by rewrite Hty, Hmark.
        - intros; apply Evolves_refl. }
      rewrite Hmark. simpl. rewrite andb_true_r.
      destruct (decide (t = Count)) as [->|Hne].
      2:{ rewrite !(bool_decide_eq_false_2 _ Hne).
          assert (bool_decide (Some t = Some Count) = false) as ->.
          { apply bool_decide_eq_false_2. congruence. }
          simpl. exists None, c1. split_and!; try done.
          - by rewrite Hty, Hmark.
          - intros; apply Evolves_refl. }
      rewrite !bool_decide_eq_true_2 by done. simpl.
      unfold GetToken. rewrite Htok. rewrite decide_True by lia. rewrite Htk. simpl.
      destruct (IsStreetSynonym tok).
      - destruct (ScopedMarkTokens_ctor_spec Street k (k + 1) c1)
          as (c2 & -> & Hinv2 & Hev2 & Hty2 & Hla2);
          [done|lia|rewrite Htok; lia|].
        simpl. exists (Some (k, k + 1)), c2. split_and!; try done.
        rewrite Hty2, setRange_single, Hty, Hmark. done.
      - exists None, c1. split_and!; try done.
        + by rewrite Hty, Hmark.
        + intros; apply Evolves_refl. }
    destruct Hsyn as (mk & c2 & -> & Hmk & Hty2 & Hinv2 & Hev2 & Hla2). simpl.
    rewrite (take_S_r _ _ _ Ht), sumWeights_snoc, usedIds_S, usedTypes_snoc, Ht.
    destruct (decide (t = Count)) as [->|Hne].
    + rewrite bool_decide_eq_false_2 by (intros H; by apply H).
      eexists _, c2. split; [reflexivity|]. simpl.
      rewrite !app_nil_r. split_and!; try done.
      * by rewrite Hcert.
      * intros ok. eapply Evolves_trans; eauto.
      * congruence.
    + rewrite bool_decide_eq_true_2 by done.
      eexists _, c2. split; [reflexivity|]. simpl.
      rewrite decide_True by congruence. rewrite decide_True by done.
      split_and!; try done.
      * by rewrite Hcert.
      * by rewrite Hids.
      * by rewrite Hall.
      * intros ok. eapply Evolves_trans; eauto.
      * congruence.
Qed.

Lemma scoreTokens_spec (type : GeoType) (ctx : Context) :
  ContextInv ctx →
  ∃ sc ctx',
    scoreTokens type ctx = Done (sc, ctx')
    ∧ certainty sc = sumWeights (m_tokenTypes ctx)
    ∧ tokenIds sc = usedIds (m_tokenTypes ctx) (length (m_tokenTypes ctx))
    ∧ allTypes sc = usedTypes (m_tokenTypes ctx)
    ∧ streetSynonymMark sc
      = markAfter type (m_tokens ctx) (m_tokenTypes ctx) (length (m_tokens ctx))
    ∧ m_tokenTypes ctx' = typesAfter (m_tokenTypes ctx) (streetSynonymMark sc)
    ∧ ContextInv ctx'
    ∧ (∀ ok, Evolves ok ctx ctx')
    ∧ m_layers ctx' = m_layers ctx.
Proof.
  intros Hinv.
  destruct (scoreTokens_prefix type ctx (length (m_tokens ctx)) Hinv)
    as (sc & c' & Hrun & Hcert & Hids & Hall & Hrest); [done|].
  exists sc, c'. pose proof (inv_length _ Hinv) as Hlen.
  rewrite <- Hlen, take_ge in Hcert, Hall by lia.
  split; [exact Hrun|]. rewrite Hlen at 1. done.
Qed.

(** ** Sums of weights *)

Lemma GetWeight_nonneg (t : GeoType) : (0 <= GetWeight t)%Q.
Proof. destruct t; simpl; unfold Qle; simpl; lia. Qed.

Lemma GetWeight_pos (t : GeoType) : t ≠ Count → (0 < GetWeight t)%Q.
Proof. destruct t; simpl; intros H; try done; unfold Qlt; simpl; lia. Qed.

Lemma fold_weights_shift (types : list GeoType) (a : Q) :
  (fold_left (λ acc t, acc + GetWeight t) types a == a + sumWeights types)%Q.
Proof.
  unfold sumWeights. revert a.
  induction types as [|t ts IH]; intros a; simpl.
  - lra.
  - rewrite (IH (a + GetWeight t)%Q), (IH (0 + GetWeight t)%Q). lra.
Qed.

Lemma sumWeights_cons (t : GeoType) (types : list GeoType) :
  (sumWeights (t :: types) == GetWeight t + sumWeights types)%Q.
Proof.
  unfold sumWeights at 1. simpl. rewrite fold_weights_shift. lra.
Qed.

Lemma sumWeights_nonneg (types : list GeoType) : (0 <= sumWeights types)%Q.
Proof.
  induction types as [|t ts IH].
  - unfold sumWeights. simpl. lra.
  - rewrite sumWeights_cons. pose proof (GetWeight_nonneg t). lra.
Qed.

Lemma sumWeights_lookup (types : list GeoType) (i : nat) (t : GeoType) :
  types !! i = Some t → (GetWeight t <= sumWeights types)%Q.
Proof.
  revert i. induction types as [|x xs IH]; intros i Hi; [done|].
  rewrite sumWeights_cons. destruct i as [|i]; simpl in Hi.
  - injection Hi as ->. pose proof (sumWeights_nonneg xs). lra.
  - specialize (IH _ Hi). pose proof (GetWeight_nonneg x). lra.
Qed.

Lemma sumWeights_mono (types types' : list GeoType) :
  Forall2 (λ a b, a = Count ∨ a = b) types types' →
  (sumWeights types <= sumWeights types')%Q.
Proof.
  induction 1 as [|a b l l' Hab _ IH].
  - lra.
  - rewrite !sumWeights_cons. destruct Hab as [->| ->].
    + pose proof (GetWeight_nonneg b). simpl. lra.
    + lra.
Qed.

Lemma setRange_extends (type : GeoType) (l r : nat) (types : list GeoType) :
  (∀ k, l ≤ k < r → k < length types → types !! k = Some Count) →
  Forall2 (λ a b, a = Count ∨ a = b) types (setRange type l r types).
Proof.
  intros Hfree. apply Forall2_same_length_lookup. split.
  - by rewrite length_setRange.
  - intros k a b Ha Hb. rewrite lookup_setRange in Hb.
    pose proof (lookup_lt_Some _ _ _ Ha) as Hk.
    destruct (decide (l ≤ k < r ∧ k < length types)) as [[H1 _]|].
    + left. specialize (Hfree k H1 Hk). congruence.
    + right. congruence.
Qed.

Lemma insert_extends (type : GeoType) (p : nat) (types : list GeoType) :
  types !! p = Some Count →
  Forall2 (λ a b, a = Count ∨ a = b) types (<[p := type]> types).
Proof.
  intros Hfree. apply Forall2_same_length_lookup. split.
  - by rewrite length_insert.
  - intros k a b Ha Hb. destruct (decide (p = k)) as [->|Hne].
    + left. congruence.
    + rewrite list_lookup_insert_ne in Hb by done. right. congruence.
Qed.

Lemma typesAfter_extends (type : GeoType) (tokens : Tokens)
    (types : list GeoType) (k : nat) :
  Forall2 (λ a b, a = Count ∨ a = b) types
    (typesAfter types (markAfter type tokens types k)).
Proof.
  unfold markAfter, typesAfter.
  destruct (bool_decide (type = Street)).
  2:{ apply Forall2_same_length_lookup; split; [done|].
      intros; right; congruence. }
  destruct (firstFreeSynonym tokens types k) as [p|] eqn:Hp; simpl.
  - apply firstFreeSynonym_Some in Hp as [_ Hp].
    apply insert_extends. by apply isFreeSynonym_free in Hp.
  - apply Forall2_same_length_lookup; split; [done|]. intros; right; congruence.
Qed.

(** Clearing the synonym mark gives back the token types before it. *)
Lemma typesAfter_undo (type : GeoType) (tokens : Tokens)
    (types : list GeoType) (k p r : nat) :
  markAfter type tokens types k = Some (p, r) →
  r = p + 1 ∧ p < k
  ∧ setRange Count p r (typesAfter types (Some (p, r))) = types.
Proof.
  unfold markAfter. destruct (bool_decide (type = Street)); [|done].
  destruct (firstFreeSynonym tokens types k) as [q|] eqn:Hq; [|done].
  simpl. intros [= <- <-]. apply firstFreeSynonym_Some in Hq as [Hlt Hq].
  apply isFreeSynonym_free in Hq. split_and!; [done|done|].
  rewrite setRange_single. simpl. rewrite list_insert_insert_eq.
  by apply list_insert_id.
Qed.

(** ** Balanced pieces of the search *)

Lemma Restored_refl (level : GeoType) (ctx : Context) : Restored level ctx ctx.
Proof. split; try done. apply Evolves_refl. Qed.

Lemma Restored_trans (level : GeoType) (c1 c2 c3 : Context) :
  Restored level c1 c2 → Restored level c2 c3 → Restored level c1 c3.
Proof.
  intros [He1 Ht1 Hn1 Hl1] [He2 Ht2 Hn2 Hl2]. split; try congruence.
  - rewrite Ht1 in He2. eapply Evolves_trans; eauto.
  - intros Hsize. rewrite Hn2, Hn1; [done|done|].
    by rewrite (ev_tokens _ _ _ He1).
Qed.

Lemma Restored_inv (level : GeoType) (c1 c2 : Context) :
  Restored level c1 c2 → ContextInv c1 → ContextInv c2.
Proof.
  intros [[Htok _ _] Hty Hn _] [H1 H2]. split; [congruence|].
  rewrite Htok, Hty. intros Hsize. rewrite Hn by done. by apply H2.
Qed.

Lemma Restored_weaken (level level' : GeoType) (c1 c2 : Context) :
  GeoType_to_size level' ≤ GeoType_to_size level →
  Restored level c1 c2 → Restored level' c1 c2.
Proof.
  intros Hl [He Ht Hn Hla]. split; try done.
  eapply Evolves_weaken; [|exact He]. intros key c.
  apply recordOk_weaken; [done|lra].
Qed.

Lemma forEachO_Restored {A} (level : GeoType)
    (body : A → Context → Outcome Context) (xs : list A) (ctx : Context) :
  ContextInv ctx →
  (∀ x c, x ∈ xs → ContextInv c → m_tokens c = m_tokens ctx →
     ∃ c', body x c = Done c' ∧ Restored level c c') →
  ∃ ctx', forEachO body xs ctx = Done ctx' ∧ Restored level ctx ctx'.
Proof.
  revert ctx. induction xs as [|x xs IH]; intros ctx Hinv Hbody; simpl.
  - exists ctx. split; [done|apply Restored_refl].
  - destruct (Hbody x ctx) as (c1 & -> & Hr1); [by left|done|done|]. simpl.
    destruct (IH c1) as (c2 & -> & Hr2).
    + by eapply Restored_inv.
    + intros y c Hy Hc Htok. apply Hbody; [by right|done|].
      rewrite Htok. apply (ev_tokens _ _ _ (rs_evolves _ _ _ Hr1)).
    + exists c2. split; [done|]. by eapply Restored_trans.
Qed.

(** ** The layer fillers *)

Lemma FillRegularLayer_visit_spec (ctx : Context) (type : GeoType) (d : DocId)
    (cur : Layer.t) :
  FillRegularLayer_visit ctx type d cur
  = Done (if acceptsDoc (m_layers ctx) type d
          then Layer.mk (Layer.m_type cur) (Layer.m_entries cur ++ [d])
          else cur).
Proof.
  unfold FillRegularLayer_visit, acceptsDoc, parentInTop, HasParent.
  destruct (decide (Entry.m_type (Index.GetDoc m_index d) = type)) as [He|He].
  - rewrite (bool_decide_eq_false_2 (_ ≠ _)) by (intros H; by apply H).
    rewrite (bool_decide_eq_true_2 _ He).
    destruct (decide (m_layers ctx = [])) as [Hl|Hl].
    + by rewrite (bool_decide_eq_true_2 _ Hl).
    + rewrite (bool_decide_eq_false_2 _ Hl).
      destruct (last (m_layers ctx)) as [top|] eqn:Htop.
      2:{ apply last_None in Htop. done. }
      cbn. by destruct (existsb _ _).
  - rewrite (bool_decide_eq_true_2 (_ ≠ _)) by done.
    by rewrite (bool_decide_eq_false_2 _ He).
Qed.

Lemma FillRegularLayer_spec (ctx : Context) (type : GeoType) (subquery : Tokens)
    (curLayer : Layer.t) :
  FillRegularLayer ctx type subquery curLayer
  = Done (Layer.mk (Layer.m_type curLayer)
            (Layer.m_entries curLayer
             ++ filter (λ docId, acceptsDoc (m_layers ctx) type docId = true)
                  (Index.ForEachDocId m_index subquery))).
Proof.
  unfold FillRegularLayer. generalize (Index.ForEachDocId m_index subquery).
  intros ds. revert curLayer.
  induction ds as [|d ds IH]; intros cur; cbn [forEachO].
  - rewrite filter_nil, app_nil_r. by destruct cur.
  - rewrite filter_cons, FillRegularLayer_visit_spec. cbn. rewrite IH.
    destruct (acceptsDoc (m_layers ctx) type d); cbn.
    + by rewrite <- app_assoc.
    + done.
Qed.

Lemma FillBuildingsLayer_context (ctx : Context) (subquery : Tokens)
    (subqueryTokenIds : list nat) (curLayer : Layer.t) :
  ∃ s, m_houseNumberPositionsInQuery ctx ⊆ s
    ∧ snd (FillBuildingsLayer ctx subquery subqueryTokenIds curLayer)
      = set_houseNumberPositions s ctx.
Proof.
  assert (Hid : ctx = set_houseNumberPositions (m_houseNumberPositionsInQuery ctx) ctx)
    by (by destruct ctx).
  unfold FillBuildingsLayer.
  destruct (bool_decide (m_layers ctx = [])); [by eexists|].
  destruct (negb _); [by eexists|].
  generalize (rev (m_layers ctx)). intros ls.
  assert (Hgen : ∀ cur s0, m_houseNumberPositionsInQuery ctx ⊆ s0 →
    ∃ s, m_houseNumberPositionsInQuery ctx ⊆ s
      ∧ snd (fold_left
               (FillBuildingsLayer_layer (MakeHouseNumber subquery) subqueryTokenIds)
               ls (cur, set_houseNumberPositions s0 ctx))
        = set_houseNumberPositions s ctx).
  { induction ls as [|l ls IH]; intros cur s0 Hs0; simpl.
    - by exists s0.
    - destruct (_ && _).
      + by apply IH.
      + unfold MarkHouseNumberPositionsInQuery. simpl.
        apply (IH _ (s0 ∪ list_to_set subqueryTokenIds)). set_solver. }
  destruct (Hgen curLayer (m_houseNumberPositionsInQuery ctx))
    as (s & Hs & Hsnd); [done|].
  rewrite <- Hid in Hsnd. eauto.
Qed.

Lemma set_houseNumberPositions_Restored (level : GeoType) (s : gset nat)
    (ctx : Context) :
  m_houseNumberPositionsInQuery ctx ⊆ s →
  Restored level ctx (set_houseNumberPositions s ctx).
Proof.
  intros Hs. split; try done. split; [done|done|].
  exists []. simpl. rewrite app_nil_r. by split_and!.
Qed.

Lemma addResults_spec (ok : BeamKey.t → Q → Prop) (type : GeoType)
    (sc : Scoring) (entries : list DocId) (ctx : Context) :
  (∀ osmId,
     ok (BeamKey.mk osmId type (tokenIds sc) (allTypes sc)) (certainty sc)) →
  let ctx' := addResults type sc entries ctx in
  Evolves ok ctx ctx'
  ∧ m_tokenTypes ctx' = m_tokenTypes ctx
  ∧ m_numUsedTokens ctx' = m_numUsedTokens ctx
  ∧ m_layers ctx' = m_layers ctx.
Proof.
  intros Hok. unfold addResults. revert ctx.
  induction entries as [|d ds IH]; intros ctx; simpl.
  - split_and!; try done. apply Evolves_refl.
  - destruct (IH (AddResult (Entry.m_osmId (Index.GetDoc m_index d))
                    (certainty sc) type (tokenIds sc) (allTypes sc) ctx))
      as (He & Hty & Hn & Hl).
    split_and!; try done.
    eapply Evolves_trans; [|exact He].
    split; [done|done|]. eexists [_]. split; [reflexivity|].
    split; [done|]. constructor; [|done]. simpl. apply Hok.
Qed.

Lemma addResults_events (type : GeoType) (sc : Scoring) (entries : list DocId)
    (ctx : Context) :
  g_events (addResults type sc entries ctx)
  = g_events ctx
    ++ ((λ docId,
           EvAdd (BeamKey.mk (Entry.m_osmId (Index.GetDoc m_index docId)) type
                    (tokenIds sc) (allTypes sc)) (certainty sc)) <$> entries).
Proof.
  unfold addResults. revert ctx.
  induction entries as [|d ds IH]; intros ctx; simpl.
  - by rewrite app_nil_r.
  - rewrite IH. simpl. by rewrite <- app_assoc.
Qed.

(** ** One frame of the search *)

Lemma NextType_Done (type : GeoType) :
  type ≠ Count →
  ∃ next, NextType type = Done next
    ∧ GeoType_to_size next = S (GeoType_to_size type).
Proof.
  intros H. unfold NextType. rewrite decide_False by done.
  destruct type; try done; eexists; split; reflexivity.
Qed.

Lemma pop_back_snoc {A} (v : list A) (x : A) : pop_back (v ++ [x]) = Done v.
Proof.
  unfold pop_back. rewrite removelast_last. by destruct v.
Qed.

Lemma ContextInv_ext (c c' : Context) :
  m_tokens c' = m_tokens c → m_tokenTypes c' = m_tokenTypes c →
  m_numUsedTokens c' = m_numUsedTokens c → ContextInv c → ContextInv c'.
Proof.
  intros H1 H2 H3 [Hl Hc]. split; [congruence|].
  rewrite H1, H2, H3. exact Hc.
Qed.

Lemma recorded_adds {A} (f : A → BeamKey.t) (c : Q) (l : list A) :
  recorded ((λ d, EvAdd (f d) c) <$> l) = (λ d, (f d, c)) <$> l.
Proof. induction l as [|d l IH]; [done|]. cbn. by f_equal. Qed.

Lemma GoFrame_spec (go : GeoType → Context → Outcome Context) (type : GeoType)
    (i j : nat) (curLayer : Layer.t) (ctx : Context) :
  type ≠ Count →
  (∀ next, NextType type = Done next → GoOk next (go next)) →
  ContextInv ctx → i ≤ j → j < length (m_tokens ctx) →
  (∀ k, i ≤ k ≤ j → m_tokenTypes ctx !! k = Some Count) →
  ∃ ctx', GoFrame go type i j curLayer ctx = Done ctx'
    ∧ Restored type ctx ctx'
    ∧ ∃ evs rest,
        let types := setRange type i (j + 1) (m_tokenTypes ctx) in
        g_events ctx' = g_events ctx ++ evs
        ∧ recorded evs
          = ((λ docId, (frameKey type types docId, sumWeights types))
               <$> Layer.m_entries curLayer) ++ rest
        ∧ Forall (λ kc, ∀ next, NextType type = Done next →
                    recordOk next (sumWeights types) kc.1 kc.2) rest.
Proof.
  intros Htype Hgo Hinv Hij Hj Hfree. unfold GoFrame.
  pose (base := sumWeights (m_tokenTypes ctx)).
  pose (ok := recordOk type base).
  pose proof (inv_length _ Hinv) as Hlen.
  destruct (ScopedMarkTokens_ctor_spec type i (j + 1) ctx)
    as (c1 & -> & Hinv1 & Hev1 & Hty1 & Hla1); [done|lia|lia|]. cbn.
  destruct (scoreTokens_spec type c1 Hinv1)
    as (sc & c2 & -> & Hcert & Hids & Hall & Hmark & Hty2 & Hinv2 & Hev2 & Hla2).
  cbn.
  assert (Hb1 : (base <= sumWeights (m_tokenTypes c1))%Q).
  { apply sumWeights_mono. rewrite Hty1. apply setRange_extends.
    intros k Hk _. apply Hfree. lia. }
  assert (Hpos : (0 < sumWeights (m_tokenTypes c1))%Q).
  { assert (Hi : m_tokenTypes c1 !! i = Some type).
    { rewrite Hty1, lookup_setRange. rewrite decide_True; [done|lia]. }
    apply sumWeights_lookup in Hi. pose proof (GetWeight_pos type Htype). lra. }
  assert (Hb2 : (sumWeights (m_tokenTypes c1) <= sumWeights (m_tokenTypes c2))%Q).
  { apply sumWeights_mono. rewrite Hty2, Hmark. apply typesAfter_extends. }
  destruct (addResults_spec ok type sc (Layer.m_entries curLayer) c2)
    as (He3 & Hty3 & Hn3 & Hl3).
  { intros osmId. subst ok. unfold recordOk. simpl. rewrite Hcert.
    split_and!; done. }
  pose proof (addResults_events type sc (Layer.m_entries curLayer) c2) as Hevs3.
  pose proof (ev_tokens _ _ _ (Hev1 ok)) as Htok1.
  pose proof (ev_tokens _ _ _ (Hev2 ok)) as Htok2.
  pose proof (ev_tokens _ _ _ He3) as Htok3.
  remember (addResults type sc (Layer.m_entries curLayer) c2) as c3 eqn:Hc3.
  destruct (NextType_Done type Htype) as (next & Hnext & Hrank).
  rewrite Hnext. cbn.
  remember (set_layers (m_layers c3 ++ [curLayer]) c3) as c4 eqn:Hc4.
  assert (Hinv4 : ContextInv c4).
  { apply (ContextInv_ext c2); [| | |done]; subst c4; simpl; congruence. }
  destruct (Hgo next Hnext c4 Hinv4) as (c5 & -> & Hr5). cbn.
  destruct Hr5 as [He5 Hty5 Hn5 Hl5].
  pose proof (ev_tokens _ _ _ He5) as Htok5.
  assert (Hty4 : m_tokenTypes c4 = m_tokenTypes c2) by (subst c4; simpl; congruence).
  assert (Htok4 : m_tokens c4 = m_tokens c3) by (by subst c4).
  assert (Hl4 : m_layers c4 = m_layers c3 ++ [curLayer]) by (by subst c4).
  assert (Hevs4 : g_events c4 = g_events c3) by (by subst c4).
  rewrite Hl5, Hl4, pop_back_snoc. cbn.
  remember (set_layers (m_layers c3) c5) as c6 eqn:Hc6.
  assert (Hinv6 : ContextInv c6).
  { apply (ContextInv_ext c5); [by subst c6..|].
    apply (Restored_inv next c4); [by split|done]. }
  assert (Hty6 : m_tokenTypes c6 = m_tokenTypes c2) by (subst c6; simpl; congruence).
  assert (Htok6 : m_tokens c6 = m_tokens ctx) by (subst c6; simpl; congruence).
  assert (Hl6 : m_layers c6 = m_layers ctx) by (subst c6; simpl; congruence).
  assert (Hevs6 : g_events c6 = g_events c5) by (by subst c6).
  assert (He6 : Evolves ok ctx c6).
  { apply (Evolves_trans _ _ c1); [apply Hev1|].
    apply (Evolves_trans _ _ c2); [apply Hev2|].
    apply (Evolves_trans _ _ c3); [apply He3|].
    apply (Evolves_trans _ _ c4); [rewrite Hc4; apply Evolves_set_layers|].
    apply (Evolves_trans _ _ c5); [|rewrite Hc6; apply Evolves_set_layers].
    eapply Evolves_weaken; [|exact He5]. intros key c. rewrite Hty4.
    subst ok base. apply recordOk_weaken; [lia|lra]. }
  assert (Hsyn : ∃ c7,
    match streetSynonymMark sc with
    | Some (l, r) => ScopedMarkTokens_dtor l r c6
    | None => Done c6
    end = Done c7
    ∧ ContextInv c7 ∧ (∀ ok', Evolves ok' c6 c7)
    ∧ m_tokenTypes c7 = m_tokenTypes c1 ∧ m_layers c7 = m_layers c6).
  { destruct (streetSynonymMark sc) as [[p r]|] eqn:Hsm.
    - symmetry in Hmark.
      destruct (typesAfter_undo _ _ _ _ _ _ Hmark) as (-> & Hp & Hundo).
      destruct (MarkRange_spec Count p (p + 1) c6)
        as (c7 & Hrun & Hinv7 & Hev7 & Hty7 & Hl7);
        [done|rewrite Htok6; rewrite Htok1 in Hp; lia|].
      exists c7. split_and!; try done.
      rewrite Hty7, Hty6, Hty2. exact Hundo.
    - exists c6. split_and!; try done; [intros; apply Evolves_refl|].
      by rewrite Hty6, Hty2. }
  destruct Hsyn as (c7 & -> & Hinv7 & He7 & Hty7 & Hl7). cbn.
  pose proof (ev_tokens _ _ _ (He7 ok)) as Htok7.
  destruct (MarkRange_spec Count i (j + 1) c7)
    as (c8 & Hrun & Hinv8 & Hev8 & Hty8 & Hl8); [done|rewrite Htok7, Htok6; lia|].
  exists c8. split; [exact Hrun|].
  assert (Htypes : m_tokenTypes c8 = m_tokenTypes ctx).
  { rewrite Hty8, Hty7, Hty1. apply setRange_undo.
    intros k Hk _. apply Hfree. lia. }
  split.
  { split.
    - eapply Evolves_trans; [exact He6|].
      eapply Evolves_trans; [apply He7|]. apply Hev8.
    - exact Htypes.
    - intros Hsize. rewrite (inv_counter _ Hinv), <- Htypes by done.
      apply (inv_counter _ Hinv8).
      by rewrite (ev_tokens _ _ _ (Hev8 ok)), Htok7, Htok6.
    - congruence. }
  destruct (Hev1 ok) as [_ _ (evs1 & Hevs1 & _ & _)].
  destruct (Hev2 ok) as [_ _ (evs2 & Hevs2 & _ & _)].
  destruct He5 as [_ _ (evs5 & Hevs5 & _ & Hok5)].
  destruct (He7 ok) as [_ _ (evs7 & Hevs7 & _ & _)].
  destruct (Hev8 ok) as [_ _ (evs8 & Hevs8 & _ & _)].
  pose proof (Evolves_marks_only _ _ _ Hev1 Hevs1) as Hrec1.
  pose proof (Evolves_marks_only _ _ _ Hev2 Hevs2) as Hrec2.
  pose proof (Evolves_marks_only _ _ _ He7 Hevs7) as Hrec7.
  pose proof (Evolves_marks_only _ _ _ Hev8 Hevs8) as Hrec8.
  eexists _, (recorded evs5). cbn zeta. split_and!.
  - rewrite Hevs8, Hevs7, Hevs6, Hevs5, Hevs4, Hevs3, Hevs2, Hevs1.
    rewrite <- !app_assoc. reflexivity.
  - rewrite !recorded_app, Hrec1, Hrec2, Hrec7, Hrec8, !app_nil_r. simpl.
    rewrite recorded_adds. unfold frameKey.
    rewrite Hcert, Hids, Hall, Hty1. done.
  - apply recorded_EventOk in Hok5. eapply Forall_impl; [exact Hok5|].
    intros kc Hkc next' Hnext'.
    injection Hnext' as <-. rewrite Hty4 in Hkc. rewrite <- Hty1.
    revert Hkc. apply recordOk_weaken; [lia|lra].
Qed.

(** ** The loops of Go and Go itself *)

Lemma GoInner_spec (go : GeoType → Context → Outcome Context) (type : GeoType)
    (i n j : nat) (subquery : Tokens) (subqueryTokenIds : list nat)
    (ctx : Context) :
  type ≠ Count →
  (∀ next, NextType type = Done next → GoOk next (go next)) →
  ContextInv ctx → i ≤ j → j + n = length (m_tokens ctx) →
  (∀ k, i ≤ k < j → m_tokenTypes ctx !! k = Some Count) →
  ∃ ctx', GoInner go type i (seq j n) subquery subqueryTokenIds ctx = Done ctx'
    ∧ Restored type ctx ctx'.
Proof.
  intros Htype Hgo. revert j subquery subqueryTokenIds ctx.
  induction n as [|n IH]; intros j subquery ids ctx Hinv Hij Hn Hfree;
    cbn [seq GoInner].
  - exists ctx. split; [done|apply Restored_refl].
  - pose proof (inv_length _ Hinv) as Hlen.
    destruct (lookup_lt_is_Some_2 (m_tokenTypes ctx) j) as [t Ht]; [lia|].
    destruct (lookup_lt_is_Some_2 (m_tokens ctx) j) as [tok Htk]; [lia|].
    unfold IsTokenUsed, GetToken. rewrite Ht, Htk.
    destruct (decide (j < length (m_tokens ctx))) as [_|]; [|lia].
    cbn. destruct (decide (t = Count)) as [->|Hne].
    2:{ rewrite bool_decide_eq_true_2 by done.
        exists ctx. split; [done|apply Restored_refl]. }
    rewrite bool_decide_eq_false_2 by (intros H; by apply H).
    assert (Hlayer : ∃ cur c1,
      (if bool_decide (type = Building)
       then Done (FillBuildingsLayer ctx (subquery ++ [tok]) (ids ++ [j])
                    (Layer.mk type []))
       else FillRegularLayer ctx type (subquery ++ [tok]) (Layer.mk type [])
            ≫= λ curLayer : Layer.t, Done (curLayer, ctx)) = Done (cur, c1)
      ∧ Restored type ctx c1).
    { destruct (bool_decide (type = Building)).
      - destruct (FillBuildingsLayer_context ctx (subquery ++ [tok]) (ids ++ [j])
                    (Layer.mk type [])) as (s & Hs & Hsnd).
        destruct (FillBuildingsLayer _ _ _ _) as [cur c1]. simpl in Hsnd.
        exists cur, c1. split; [done|]. subst c1.
        by apply set_houseNumberPositions_Restored.
      - rewrite FillRegularLayer_spec. cbn. eexists _, ctx.
        split; [done|apply Restored_refl]. }
    destruct Hlayer as (cur & c1 & -> & Hr1). cbn.
    pose proof (Restored_inv _ _ _ Hr1 Hinv) as Hinv1.
    pose proof (rs_tokenTypes _ _ _ Hr1) as Hty1.
    pose proof (ev_tokens _ _ _ (rs_evolves _ _ _ Hr1)) as Htok1.
    assert (Hfree1 : ∀ k, i ≤ k < S j → m_tokenTypes c1 !! k = Some Count).
    { intros k Hk. rewrite Hty1. destruct (decide (k = j)) as [->|]; [done|].
      apply Hfree. lia. }
    destruct (bool_decide (Layer.m_entries cur = [])).
    + destruct (IH (S j) (subquery ++ [tok]) (ids ++ [j]) c1)
        as (c2 & -> & Hr2); [done|lia|rewrite Htok1; lia|done|].
      exists c2. split; [done|]. by eapply Restored_trans.
    + destruct (GoFrame_spec go type i j cur c1) as (c2 & -> & Hr2 & _);
        [done|done|done|lia|rewrite Htok1; lia| |].
      { intros k Hk. apply Hfree1. lia. }
      cbn.
      pose proof (Restored_inv _ _ _ Hr2 Hinv1) as Hinv2.
      destruct (IH (S j) (subquery ++ [tok]) (ids ++ [j]) c2)
        as (c3 & -> & Hr3); [done|lia| | |].
      { rewrite (ev_tokens _ _ _ (rs_evolves _ _ _ Hr2)), Htok1. lia. }
      { intros k Hk. rewrite (rs_tokenTypes _ _ _ Hr2). by apply Hfree1. }
      exists c3. split; [done|].
      eapply Restored_trans; [exact Hr1|]. by eapply Restored_trans.
Qed.

Lemma GoOuter_spec (go : GeoType → Context → Outcome Context) (type : GeoType)
    (ctx : Context) :
  type ≠ Count →
  (∀ next, NextType type = Done next → GoOk next (go next)) →
  ContextInv ctx →
  ∃ ctx', GoOuter go type ctx = Done ctx' ∧ Restored type ctx ctx'.
Proof.
  intros Htype Hgo Hinv. unfold GoOuter, GetNumTokens.
  apply forEachO_Restored; [done|].
  intros i c Hi Hc Htok. apply elem_of_seq in Hi.
  apply GoInner_spec; try done. rewrite Htok. lia.
  intros k Hk. lia.
Qed.

Lemma GoBody_spec (go : GeoType → Context → Outcome Context) (type : GeoType)
    (ctx : Context) :
  (∀ next, NextType type = Done next → GoOk next (go next)) →
  ContextInv ctx →
  ∃ ctx', GoBody go type ctx = Done ctx' ∧ Restored type ctx ctx'.
Proof.
  intros Hgo Hinv. unfold GoBody.
  destruct (bool_decide (GetNumTokens ctx = 0));
    [exists ctx; split; [done|apply Restored_refl]|].
  destruct (AllTokensUsed ctx);
    [exists ctx; split; [done|apply Restored_refl]|].
  destruct (decide (type = Count)) as [->|Htype].
  { exists ctx; split; [done|apply Restored_refl]. }
  rewrite bool_decide_eq_false_2 by done.
  destruct (GoOuter_spec go type ctx) as (c1 & -> & Hr1); [done..|]. cbn.
  destruct (NextType_Done type Htype) as (next & Hnext & Hsize).
  rewrite Hnext. cbn.
  destruct (Hgo next Hnext c1) as (c2 & -> & Hr2).
  { by eapply Restored_inv. }
  exists c2. split; [done|]. eapply Restored_trans; [exact Hr1|].
  apply (Restored_weaken next); [lia|done].
Qed.

Lemma Go_spec (fuel : nat) (type : GeoType) (ctx : Context) :
  9 ≤ fuel + GeoType_to_size type → ContextInv ctx →
  ∃ ctx', Go fuel type ctx = Done ctx' ∧ Restored type ctx ctx'.
Proof.
  revert type ctx. induction fuel as [|fuel IH]; intros type ctx Hfuel Hinv.
  - destruct type; simpl in Hfuel; lia.
  - cbn [Go]. apply GoBody_spec; [|done].
    intros next Hnext c Hc. apply IH; [|done].
    destruct (decide (type = Count)) as [->|Htype]; [done|].
    destruct (NextType_Done type Htype) as (next' & Hnext' & Hsize).
    rewrite Hnext in Hnext'. injection Hnext' as <-. lia.
Qed.

Lemma Context_ctor_inv (query : string) : ContextInv (Context_ctor query).
Proof.
  unfold Context_ctor. split; simpl.
  - by rewrite length_replicate.
  - intros _. unfold countUsed.
    assert (H : ∀ n, filter (λ t, t ≠ Count) (replicate n Count) = []).
    { induction n as [|n IHn]; [done|]. simpl. rewrite filter_cons.
      rewrite decide_False by (intros H; by apply H). done. }
    by rewrite H.
Qed.

(** ** The beam *)

Lemma Beam_insert_length (e : Beam.Entry) (es : list Beam.Entry) :
  length (Beam.insert e es) = S (length es).
Proof.
  induction es as [|x xs IH]; simpl; [done|].
  destruct (Qle_bool _ _); simpl; by rewrite ?IH.
Qed.

Lemma Beam_insert_elem (e x : Beam.Entry) (es : list Beam.Entry) :
  x ∈ Beam.insert e es ↔ x = e ∨ x ∈ es.
Proof.
  induction es as [|y ys IH]; simpl.
  - rewrite list_elem_of_singleton. split; [by left|]. intros [H|H]; [done|].
    by apply elem_of_nil in H.
  - destruct (Qle_bool _ _).
    + rewrite !elem_of_cons, IH. tauto.
    + rewrite !elem_of_cons. tauto.
Qed.

Lemma Beam_insert_descending (e : Beam.Entry) (es : list Beam.Entry) :
  descending es → descending (Beam.insert e es).
Proof.
  unfold descending. induction es as [|x xs IH]; intros Hs; simpl.
  - apply StronglySorted_cons. split; [done|constructor].
  - apply StronglySorted_cons in Hs as [Hx Hxs].
    destruct (Qle_bool (Beam.m_value e) (Beam.m_value x)) eqn:Hle.
    + apply Qle_bool_iff in Hle. apply StronglySorted_cons. split; [|by apply IH].
      apply Forall_forall. intros y Hy. apply Beam_insert_elem in Hy as [->|Hy].
      * done.
      * by apply (proj1 (Forall_forall _ _) Hx).
    + assert (Hlt : (Beam.m_value x < Beam.m_value e)%Q).
      { apply Qnot_le_lt. intros H. apply Qle_bool_iff in H. congruence. }
      apply StronglySorted_cons. split.
      * constructor; [lra|]. eapply Forall_impl; [exact Hx|].
        intros y Hy. simpl in Hy. lra.
      * apply StronglySorted_cons. done.
Qed.

Lemma removelast_sublist {A} (l : list A) : removelast l `sublist_of` l.
Proof.
  induction l as [|x [|y l] IH]; simpl; [done|by apply sublist_cons|].
  by apply sublist_skip.
Qed.

Lemma descending_sublist (es es' : list Beam.Entry) :
  es' `sublist_of` es → descending es → descending es'.
Proof.
  unfold descending. induction 1 as [|x l1 l2 Hsub IH|x l1 l2 Hsub IH]; intros Hs.
  - done.
  - apply StronglySorted_cons in Hs as [Hx Hl]. apply StronglySorted_cons.
    split; [|by apply IH]. apply Forall_forall. intros y Hy.
    apply (proj1 (Forall_forall _ _) Hx). by eapply elem_of_sublist.
  - apply StronglySorted_cons in Hs as [_ Hl]. by apply IH.
Qed.

Lemma Beam_Add_ok (key : BeamKey.t) (score : Q) (b : Beam.t) :
  (0 < score)%Q → BeamOk b → BeamOk (Beam.Add key score b).
Proof.
  intros Hpos [Hlen Hdesc Hposs]. unfold Beam.Add.
  destruct (decide (length (Beam.m_entries b) < Beam.m_capacity b)) as [Hlt|Hge].
  - split; simpl.
    + rewrite Beam_insert_length. lia.
    + by apply Beam_insert_descending.
    + apply Forall_forall. intros x Hx. apply Beam_insert_elem in Hx as [->|Hx].
      * done.
      * by apply (proj1 (Forall_forall _ _) Hposs).
  - destruct (last (Beam.m_entries b)) as [least|] eqn:Hlast; [|done].
    destruct (Qle_bool score (Beam.m_value least)); [done|].
    pose proof (removelast_sublist (Beam.m_entries b)) as Hsub.
    assert (Hrl : length (removelast (Beam.m_entries b))
                  = pred (length (Beam.m_entries b))).
    { destruct (Beam.m_entries b) as [|x l] using rev_ind; [done|].
      rewrite removelast_last, length_app. simpl. lia. }
    assert (Hne : length (Beam.m_entries b) ≠ 0).
    { destruct (Beam.m_entries b); [done|]. simpl. lia. }
    split; simpl.
    + rewrite Beam_insert_length, Hrl. lia.
    + apply Beam_insert_descending. by eapply descending_sublist.
    + apply Forall_forall. intros x Hx. apply Beam_insert_elem in Hx as [->|Hx].
      * done.
      * apply (proj1 (Forall_forall _ _) Hposs). by eapply elem_of_sublist.
Qed.

Lemma Beam_Add_capacity (key : BeamKey.t) (score : Q) (b : Beam.t) :
  Beam.m_capacity (Beam.Add key score b) = Beam.m_capacity b.
Proof.
  unfold Beam.Add. destruct (decide _); [done|].
  destruct (last _); [|done]. by destruct (Qle_bool _ _).
Qed.

Lemma replayAdds_ok (n : nat) (level : GeoType) (base : Q) (evs : list Event)
    (b : Beam.t) :
  Forall (EventOk n (recordOk level base)) evs → BeamOk b →
  BeamOk (replayAdds evs b)
  ∧ Beam.m_capacity (replayAdds evs b) = Beam.m_capacity b.
Proof.
  unfold replayAdds. revert b.
  induction evs as [|ev evs IH]; intros b Hall Hb; simpl; [done|].
  inversion Hall as [|? ? Hev Hrest]; subst.
  destruct ev as [tys k|key c]; simpl.
  - by apply IH.
  - destruct Hev as [Hpos _].
    destruct (IH (Beam.Add key c b)) as [Hok Hcap];
      [done|by apply Beam_Add_ok|].
    split; [done|]. by rewrite Hcap, Beam_Add_capacity.
Qed.

Lemma Evolves_beam (level : GeoType) (base : Q) (ctx ctx' : Context) :
  Evolves (recordOk level base) ctx ctx' → BeamOk (m_beam ctx) →
  BeamOk (m_beam ctx')
  ∧ Beam.m_capacity (m_beam ctx') = Beam.m_capacity (m_beam ctx).
Proof.
  intros [_ _ (evs & _ & -> & Hok)] Hb. by eapply replayAdds_ok.
Qed.

(** ** The house-number filter *)

Lemma addressFlags_spec (allTypes : list GeoType) :
  addressFlags allTypes
  = (bool_decide
       (Region ∈ allTypes ∨ Subregion ∈ allTypes ∨ Locality ∈ allTypes),
     bool_decide (Street ∈ allTypes), bool_decide (Building ∈ allTypes)).
Proof.
  unfold addressFlags.
  assert (Hgen : ∀ l a b c,
    fold_left
      (λ '(gotLocality, gotStreet, gotBuilding) t,
         (if bool_decide (t = Region) || bool_decide (t = Subregion)
             || bool_decide (t = Locality) then true else gotLocality,
          if bool_decide (t = Street) then true else gotStreet,
          if bool_decide (t = Building) then true else gotBuilding))
      l (a, b, c)
    = (a || bool_decide (Region ∈ l ∨ Subregion ∈ l ∨ Locality ∈ l),
       b || bool_decide (Street ∈ l), c || bool_decide (Building ∈ l))).
  { induction l as [|t ts IH]; intros a b c; cbn [fold_left].
    - rewrite !bool_decide_eq_false_2; [by rewrite !orb_false_r| | |];
        rewrite ?elem_of_nil; tauto.
    - rewrite IH. f_equal; [f_equal|].
      + destruct t; simpl; rewrite ?orb_true_r;
          try (symmetry; apply orb_true_iff; right;
               apply bool_decide_eq_true; rewrite !elem_of_cons; tauto);
          f_equal; apply bool_decide_ext; rewrite !elem_of_cons;
          split; intros; intuition congruence.
      + destruct t; simpl; rewrite ?orb_true_r;
          try (symmetry; apply orb_true_iff; right;
               apply bool_decide_eq_true; rewrite !elem_of_cons; tauto);
          f_equal; apply bool_decide_ext; rewrite !elem_of_cons;
          split; intros; intuition congruence.
      + destruct t; simpl; rewrite ?orb_true_r;
          try (symmetry; apply orb_true_iff; right;
               apply bool_decide_eq_true; rewrite !elem_of_cons; tauto);
          f_equal; apply bool_decide_ext; rewrite !elem_of_cons;
          split; intros; intuition congruence. }
  by rewrite Hgen.
Qed.

Lemma IsBuildingWithAddress_iff (key : BeamKey.t) :
  IsBuildingWithAddress key = true ↔
  BeamKey.m_type key = Building
  ∧ (Region ∈ BeamKey.m_allTypes key ∨ Subregion ∈ BeamKey.m_allTypes key
     ∨ Locality ∈ BeamKey.m_allTypes key)
  ∧ Street ∈ BeamKey.m_allTypes key
  ∧ Building ∈ BeamKey.m_allTypes key.
Proof.
  unfold IsBuildingWithAddress. rewrite addressFlags_spec.
  destruct (decide (BeamKey.m_type key = Building)) as [Hb|Hb].
  - rewrite bool_decide_eq_false_2 by (intros H; by apply H).
    rewrite !andb_true_iff, !bool_decide_eq_true. tauto.
  - rewrite bool_decide_eq_true_2 by done. split; [done|tauto].
Qed.

Lemma HasLocalityOrRegion_iff (key : BeamKey.t) :
  HasLocalityOrRegion key = true ↔
  Region ∈ BeamKey.m_allTypes key ∨ Subregion ∈ BeamKey.m_allTypes key
  ∨ Locality ∈ BeamKey.m_allTypes key.
Proof.
  unfold HasLocalityOrRegion.
  induction (BeamKey.m_allTypes key) as [|t ts IH]; simpl.
  - rewrite !elem_of_nil. split; [done|tauto].
  - rewrite !elem_of_cons.
    destruct t; simpl; try tauto; rewrite IH; intuition congruence.
Qed.

Lemma ContainsTokenIds_iff (key : BeamKey.t) (need : gset nat) :
  ContainsTokenIds key need = true ↔ ∀ k, k ∈ need → k ∈ BeamKey.m_tokenIds key.
Proof.
  unfold ContainsTokenIds, Includes. rewrite bool_decide_eq_true.
  split.
  - intros Hsub k Hk. apply Hsub in Hk. by apply elem_of_list_to_set in Hk.
  - intros H k Hk. apply elem_of_list_to_set. by apply H.
Qed.

Lemma IsGoodForPotentialHouseNumberAt_iff (ctx : Context) (key : BeamKey.t)
    (hnTokens : gset nat) :
  IsGoodForPotentialHouseNumberAt ctx key hnTokens = true
  ↔ goodForHouseNumber ctx key hnTokens.
Proof.
  unfold IsGoodForPotentialHouseNumberAt, goodForHouseNumber.
  rewrite <- IsBuildingWithAddress_iff, <- HasLocalityOrRegion_iff,
    <- ContainsTokenIds_iff.
  destruct (decide (length (BeamKey.m_tokenIds key) = length (m_tokens ctx)))
    as [Hl|Hl].
  - rewrite bool_decide_eq_true_2 by done. tauto.
  - rewrite bool_decide_eq_false_2 by done.
    destruct (IsBuildingWithAddress key); [tauto|].
    destruct (HasLocalityOrRegion key), (ContainsTokenIds key hnTokens); simpl;
      intuition congruence.
Qed.

(** ** The emitting loop *)

Lemma emitFold_seen (ctx : Context) (h : bool) (es : list Beam.Entry) :
  fst (fold_left (emitStep ctx h) es (∅, [])) = list_to_set (osmIdOf <$> es).
Proof.
  induction es as [|e es IH] using rev_ind; [done|].
  rewrite fold_left_app, fmap_app, list_to_set_app_L. simpl.
  destruct (fold_left (emitStep ctx h) es (∅, [])) as [seen rs].
  simpl in IH. subst seen. unfold emitStep.
  fold (osmIdOf e). case_bool_decide as Hin.
  - simpl. set_solver.
  - destruct (_ && _); simpl; set_solver.
Qed.

Lemma emitLoop_snoc (ctx : Context) (earlier : list Beam.Entry) (e : Beam.Entry) :
  emitLoop ctx (earlier ++ [e])
  = emitLoop ctx earlier
    ++ (if decide (emitsEntry ctx earlier e) then [toResult e] else []).
Proof.
  unfold emitLoop. rewrite fold_left_app. simpl.
  pose proof (emitFold_seen ctx
    (negb (bool_decide (m_houseNumberPositionsInQuery ctx = ∅))) earlier) as Hseen.
  destruct (fold_left _ earlier (∅, [])) as [seen rs]. simpl in *. subst seen.
  unfold emitStep. fold (osmIdOf e).
  destruct (decide (emitsEntry ctx earlier e)) as [[Hnin Hgood]|Hn].
  - rewrite bool_decide_eq_false_2 by (by rewrite elem_of_list_to_set).
    assert (Hskip :
      negb (bool_decide (m_houseNumberPositionsInQuery ctx = ∅))
      && negb (IsGoodForPotentialHouseNumberAt ctx (Beam.m_key e)
                 (m_houseNumberPositionsInQuery ctx)) = false).
    { case_bool_decide as Hhn; simpl; [done|]. by rewrite (Hgood Hhn). }
    rewrite Hskip. done.
  - case_bool_decide as Hin; [by rewrite app_nil_r|]. simpl.
    assert (Hskip :
      negb (bool_decide (m_houseNumberPositionsInQuery ctx = ∅))
      && negb (IsGoodForPotentialHouseNumberAt ctx (Beam.m_key e)
                 (m_houseNumberPositionsInQuery ctx)) = true).
    { case_bool_decide as Hhn; simpl.
      - exfalso. apply Hn. split; [by rewrite elem_of_list_to_set in Hin|done].
      - destruct (IsGoodForPotentialHouseNumberAt _ _ _) eqn:Hg; [|done].
        exfalso. apply Hn. split; [by rewrite elem_of_list_to_set in Hin|done]. }
    rewrite Hskip. simpl. by rewrite app_nil_r.
Qed.

Lemma emitLoop_extends (ctx : Context) (earlier later : list Beam.Entry) :
  ∃ rest, emitLoop ctx (earlier ++ later) = emitLoop ctx earlier ++ rest.
Proof.
  induction later as [|e later IH] using rev_ind.
  - exists []. by rewrite !app_nil_r.
  - destruct IH as (rest & Hrest). rewrite app_assoc, emitLoop_snoc, Hrest.
    eexists. by rewrite <- app_assoc.
Qed.

Lemma emitLoop_from (ctx : Context) (es : list Beam.Entry) (r : Result.t) :
  r ∈ emitLoop ctx es → ∃ e, e ∈ es ∧ r = toResult e.
Proof.
  induction es as [|e es IH] using rev_ind; [by intros H; apply elem_of_nil in H|].
  rewrite emitLoop_snoc, elem_of_app. intros [Hr|Hr].
  - destruct (IH Hr) as (e' & He' & ->). exists e'. split; [|done].
    apply elem_of_app. by left.
  - destruct (decide _); [|by apply elem_of_nil in Hr].
    apply list_elem_of_singleton in Hr as ->. exists e. split; [|done].
    apply elem_of_app. right. by left.
Qed.

Lemma emitLoop_length (ctx : Context) (es : list Beam.Entry) :
  length (emitLoop ctx es) ≤ length es.
Proof.
  induction es as [|e es IH] using rev_ind; [done|].
  rewrite emitLoop_snoc, !length_app. destruct (decide _); simpl; lia.
Qed.

Lemma emitLoop_nonIncreasing (ctx : Context) (es : list Beam.Entry) :
  descending es → nonIncreasing (emitLoop ctx es).
Proof.
  unfold descending, nonIncreasing.
  induction es as [|e es IH] using rev_ind; intros Hs; [constructor|].
  rewrite emitLoop_snoc. apply StronglySorted_app in Hs as (Hcross & Hes & _).
  apply StronglySorted_app. split_and!.
  - intros r1 r2 Hr1 Hr2. destruct (decide _); [|by apply elem_of_nil in Hr2].
    apply list_elem_of_singleton in Hr2 as ->.
    apply emitLoop_from in Hr1 as (e1 & He1 & ->). simpl.
    apply (Hcross e1 e); [done|by left].
  - by apply IH.
  - destruct (decide _); [|constructor].
    apply StronglySorted_cons. split; constructor.
Qed.

Lemma emitLoop_NoDup (ctx : Context) (es : list Beam.Entry) :
  NoDup (Result.m_osmId <$> emitLoop ctx es).
Proof.
  induction es as [|e es IH] using rev_ind; [constructor|].
  rewrite emitLoop_snoc, fmap_app. apply NoDup_app. split_and!.
  - done.
  - intros x Hx Hx'. destruct (decide _) as [[Hnin _]|]; [|by apply elem_of_nil in Hx'].
    apply list_elem_of_singleton in Hx' as ->. apply Hnin.
    apply list_elem_of_fmap in Hx as (r & Hr & Hin).
    apply emitLoop_from in Hin as (e1 & He1 & ->). simpl in Hr.
    apply list_elem_of_fmap. exists e1. split; [|done]. exact Hr.
  - destruct (decide _); simpl; [|constructor].
    apply NoDup_singleton.
Qed.

(** ** Normalization and the final assertions *)

Lemma normalizeAll_spec (by_ : Q) (rs : list Result.t) :
  (0 < by_)%Q →
  Forall (λ r, (0 < Result.m_certainty r)%Q ∧ (Result.m_certainty r <= by_)%Q) rs →
  normalizeAll by_ rs = Done (scaleBy by_ <$> rs).
Proof.
  intros Hby. induction 1 as [|r rs [Hpos Hle] _ IH]; simpl; [done|].
  unfold normalizeOne.
  assert (H0 : Qle_bool 0 (Result.m_certainty r / by_) = true).
  { apply Qle_bool_iff. apply Qle_shift_div_l; [done|]. lra. }
  assert (H1 : Qle_bool (Result.m_certainty r / by_) 1 = true).
  { apply Qle_bool_iff. apply Qle_shift_div_r; [done|]. lra. }
  rewrite H0, H1. simpl. rewrite IH. done.
Qed.

Lemma StronglySorted_rev {A} (R : A → A → Prop) (l : list A) :
  StronglySorted R l → StronglySorted (flip R) (rev l).
Proof.
  induction l as [|x l IH]; intros Hs; simpl; [constructor|].
  apply StronglySorted_cons in Hs as [Hx Hl].
  apply StronglySorted_app. split_and!.
  - intros a b Ha Hb. apply list_elem_of_singleton in Hb as ->.
    unfold flip. apply (proj1 (Forall_forall _ _) Hx).
    apply list_elem_of_In, in_rev, list_elem_of_In in Ha. done.
  - by apply IH.
  - apply StronglySorted_cons. split; constructor.
Qed.

Lemma is_sorted_ascending (l : list Result.t) :
  StronglySorted (λ x y, (Result.m_certainty x <= Result.m_certainty y)%Q) l →
  is_sorted LessBy_certainty l = true.
Proof.
  induction l as [|x l IH]; intros Hs; [done|].
  apply StronglySorted_cons in Hs as [Hx Hl].
  cbn [is_sorted]. destruct l as [|y l]; [done|].
  rewrite (IH Hl), andb_true_r. unfold LessBy_certainty.
  rewrite negb_involutive. apply Qle_bool_iff.
  by inversion Hx.
Qed.

Lemma scaleBy_nonIncreasing (by_ : Q) (rs : list Result.t) :
  (0 < by_)%Q → nonIncreasing rs → nonIncreasing (scaleBy by_ <$> rs).
Proof.
  intros Hby. unfold nonIncreasing.
  induction rs as [|r rs IH]; intros Hs; simpl; [constructor|].
  apply StronglySorted_cons in Hs as [Hr Hrs].
  apply StronglySorted_cons. split; [|by apply IH].
  apply Forall_fmap. eapply Forall_impl; [exact Hr|].
  intros y Hy. simpl in *. unfold Qdiv.
  apply Qmult_le_compat_r; [done|]. apply Qlt_le_weak, Qinv_lt_0_compat. done.
Qed.

Lemma normalized_osmIds (rs : list Result.t) :
  Result.m_osmId <$> normalized rs = Result.m_osmId <$> rs.
Proof.
  unfold normalized. destruct rs as [|front rs]; [done|].
  by rewrite <- list_fmap_compose.
Qed.

(** What [FillResults] returns for a context whose beam is well formed. *)
Lemma FillResults_spec (ctx : Context) (results0 : list Result.t) :
  BeamOk (m_beam ctx) → Beam.m_capacity (m_beam ctx) = kMaxResults →
  let results := normalized (emitLoop ctx (Beam.GetEntries (m_beam ctx))) in
  FillResults ctx results0 = Done results
  ∧ length results ≤ kMaxResults
  ∧ nonIncreasing results
  ∧ Forall (λ r, (0 < Result.m_certainty r)%Q ∧ (Result.m_certainty r <= 1)%Q)
      results
  ∧ (∀ r, head results = Some r → (Result.m_certainty r == 1)%Q).
Proof.
  intros [Hlen Hdesc Hpos] Hcap. unfold FillResults, Beam.GetEntries. cbn zeta.
  pose proof (emitLoop_length ctx (Beam.m_entries (m_beam ctx))) as Hel.
  pose proof (emitLoop_nonIncreasing ctx _ Hdesc) as Hsorted.
  assert (Hposr : Forall (λ r, (0 < Result.m_certainty r)%Q)
                    (emitLoop ctx (Beam.m_entries (m_beam ctx)))).
  { apply Forall_forall. intros r Hr.
    apply emitLoop_from in Hr as (e & He & ->). simpl.
    by apply (proj1 (Forall_forall _ _) Hpos). }
  rewrite app_nil_l.
  destruct (emitLoop ctx (Beam.m_entries (m_beam ctx))) as [|front rs] eqn:Hemit.
  - cbn. rewrite decide_True by (unfold kMaxResults; lia).
    split_and!; try done; try (unfold kMaxResults; simpl; lia); constructor.
  - assert (Hby : (0 < Result.m_certainty front)%Q) by (by inversion Hposr).
    assert (Hbound : Forall (λ r, (0 < Result.m_certainty r)%Q
                       ∧ (Result.m_certainty r <= Result.m_certainty front)%Q)
                       (front :: rs)).
    { apply Forall_forall. intros r Hr. split.
      - by apply (proj1 (Forall_forall _ _) Hposr).
      - apply elem_of_cons in Hr as [->|Hr]; [lra|].
        apply StronglySorted_cons in Hsorted as [Hf _].
        by apply (proj1 (Forall_forall _ _) Hf). }
    rewrite (normalizeAll_spec _ _ Hby Hbound). cbn [mbind Outcome_bind].
    pose proof (scaleBy_nonIncreasing _ _ Hby Hsorted) as Hsorted'.
    rewrite is_sorted_ascending.
    2:{ apply (StronglySorted_rev _ _ Hsorted'). }
    rewrite decide_True.
    2:{ rewrite length_fmap. simpl in *. lia. }
    unfold normalized. split_and!.
    + done.
    + rewrite length_fmap. simpl in *. lia.
    + done.
    + apply Forall_fmap. eapply Forall_impl; [exact Hbound|].
      intros r [H0 H1]. simpl. split.
      * apply Qlt_shift_div_l; [done|]. lra.
      * apply Qle_shift_div_r; [done|]. lra.
    + intros r. simpl. intros [= <-]. simpl. field. lra.
Qed.

(** The run of a query up to the finalizer: it returns, with the search
    state balanced and a well-formed beam of the capacity of the source. *)
Lemma Go_query_spec (query : string) :
  ∃ ctx', Go Go_fuel Country (Context_ctor query) = Done ctx'
    ∧ Restored Country (Context_ctor query) ctx'
    ∧ BeamOk (m_beam ctx')
    ∧ Beam.m_capacity (m_beam ctx') = kMaxResults.
Proof.
  destruct (Go_spec Go_fuel Country (Context_ctor query)) as (ctx' & Hgo & Hr).
  { unfold Go_fuel. lia. }
  { apply Context_ctor_inv. }
  exists ctx'. split; [done|]. split; [done|].
  destruct (Evolves_beam _ _ _ _ (rs_evolves _ _ _ Hr)) as [Hok Hcap].
  { split; simpl; [lia|constructor|constructor]. }
  split; [done|]. by rewrite Hcap.
Qed.

Lemma ProcessQuery_spec (query : string) (results0 : list Result.t) :
  ∃ ctx',
    Go Go_fuel Country (Context_ctor query) = Done ctx'
    ∧ let results := normalized (emitLoop ctx' (Beam.GetEntries (m_beam ctx'))) in
      ProcessQuery query results0 = Done results
      ∧ length results ≤ kMaxResults
      ∧ nonIncreasing results
      ∧ Forall (λ r, (0 < Result.m_certainty r)%Q ∧ (Result.m_certainty r <= 1)%Q)
          results
      ∧ (∀ r, head results = Some r → (Result.m_certainty r == 1)%Q).
Proof.
  destruct (Go_query_spec query) as (ctx' & Hgo & _ & Hok & Hcap).
  exists ctx'. split; [done|]. unfold ProcessQuery. rewrite Hgo.
  cbn [mbind Outcome_bind]. by apply (FillResults_spec ctx' results0).
Qed.

(** ** The scoring scan at Street level *)

(** The scoring scan of [Go] reads the type of a position into a local
    before it marks the first unassigned street-synonym position as Street,
    and scores the position with that local.  So in the frame that makes
    the mark the certainty, [tokenIds] and [allTypes] are those of the
    token types as they stood when the scan began, while the context that
    leaves the scan, the one the deeper levels score, has the position
    marked Street. *)
Lemma scoreTokens_stale_read (ctx : Context) (entries : list DocId) :
  ContextInv ctx →
  ∃ sc ctx',
    scoreTokens Street ctx = Done (sc, ctx')
    ∧ certainty sc = sumWeights (m_tokenTypes ctx)
    ∧ tokenIds sc = usedIds (m_tokenTypes ctx) (length (m_tokenTypes ctx))
    ∧ allTypes sc = usedTypes (m_tokenTypes ctx)
    ∧ g_events (addResults Street sc entries ctx')
      = g_events ctx'
        ++ ((λ docId, EvAdd (frameKey Street (m_tokenTypes ctx) docId)
                        (sumWeights (m_tokenTypes ctx))) <$> entries)
    ∧ match firstFreeSynonym (m_tokens ctx) (m_tokenTypes ctx)
              (length (m_tokens ctx)) with
      | Some p =>
          streetSynonymMark sc = Some (p, p + 1)
          ∧ m_tokenTypes ctx' = <[p := Street]> (m_tokenTypes ctx)
          ∧ p ∉ tokenIds sc
      | None =>
          streetSynonymMark sc = None ∧ m_tokenTypes ctx' = m_tokenTypes ctx
      end.
Proof.
  intros Hinv.
  destruct (scoreTokens_spec Street ctx Hinv)
    as (sc & ctx' & Hrun & Hcert & Hids & Hall & Hmark & Hty & _).
  exists sc, ctx'. split_and!; try done.
  - rewrite addResults_events. unfold frameKey. by rewrite Hcert, Hids, Hall.
  - unfold markAfter in Hmark. rewrite bool_decide_eq_true_2 in Hmark by done.
    destruct (firstFreeSynonym _ _ _) as [p|] eqn:Hp; simpl in Hmark.
    + rewrite Hty, Hmark. split_and!; try done.
      rewrite Hids. unfold usedIds. intros Hin.
      apply list_elem_of_filter in Hin as [Hused _].
      apply firstFreeSynonym_Some in Hp as [_ Hp].
      by apply isFreeSynonym_free in Hp.
    + by rewrite Hty, Hmark.
Qed.

(** ** The properties of the specification *)

(** C2.  For every query [ProcessQuery] returns a result list of at most 100
    entries whose certainties do not increase; it is the list of emitted
    results with every certainty divided by the certainty of the first
    emitted one, so the first certainty is 1 and every certainty lies in
    (0, 1]. *)
Theorem ProcessQuery_results_normalized (query : string)
    (results0 : list Result.t) :
  ∃ results,
    ProcessQuery query results0 = Done results
    ∧ length results ≤ 100
    ∧ nonIncreasing results
    ∧ (∃ ctx', Go Go_fuel Country (Context_ctor query) = Done ctx'
         ∧ results = normalized (emitLoop ctx' (Beam.GetEntries (m_beam ctx'))))
    ∧ (∀ r, head results = Some r → (Result.m_certainty r == 1)%Q)
    ∧ (∀ r, r ∈ results →
         (0 < Result.m_certainty r)%Q ∧ (Result.m_certainty r <= 1)%Q).
Proof.
  destruct (ProcessQuery_spec query results0)
    as (ctx' & Hgo & Hrun & Hlen & Hsorted & Hrange & Hhead).
  eexists. split; [exact Hrun|]. split_and!; try done.
  - by exists ctx'.
  - intros r Hr. by apply (proj1 (Forall_forall _ _) Hrange).
Qed.

(** C3.  [FillResults] emits the beam entry [e], iterated after the entries
    [earlier], if and only if no earlier entry has its osmId and, when
    house-number positions were noted, [IsGoodForPotentialHouseNumberAt]
    holds for its key; the entries iterated later only append to what was
    emitted.  That predicate holds iff the key used every token, or it is a
    Building key whose types hold one of Region, Subregion, Locality and a
    Street and a Building, or its types hold one of Region, Subregion,
    Locality and its token ids include every noted position.  The ids of
    the output are those of the emitted entries, without duplicates. *)
Theorem FillResults_emits_iff (ctx : Context) :
  (∀ earlier e,
     emitLoop ctx (earlier ++ [e])
     = emitLoop ctx earlier
       ++ (if decide
                ((osmIdOf e ∉ osmIdOf <$> earlier)
                 ∧ (m_houseNumberPositionsInQuery ctx ≠ ∅ →
                    IsGoodForPotentialHouseNumberAt ctx (Beam.m_key e)
                      (m_houseNumberPositionsInQuery ctx) = true))
           then [toResult e] else []))
  ∧ (∀ earlier later,
       ∃ rest, emitLoop ctx (earlier ++ later) = emitLoop ctx earlier ++ rest)
  ∧ (∀ key hnTokens,
       IsGoodForPotentialHouseNumberAt ctx key hnTokens = true
       ↔ goodForHouseNumber ctx key hnTokens)
  ∧ (∀ results0,
       BeamOk (m_beam ctx) → Beam.m_capacity (m_beam ctx) = kMaxResults →
       ∃ results,
         FillResults ctx results0 = Done results
         ∧ Result.m_osmId <$> results
           = Result.m_osmId <$> emitLoop ctx (Beam.GetEntries (m_beam ctx))
         ∧ NoDup (Result.m_osmId <$> results)).
Proof.
  split_and!.
  - intros earlier e. apply emitLoop_snoc.
  - intros earlier later. apply emitLoop_extends.
  - intros key hnTokens. apply IsGoodForPotentialHouseNumberAt_iff.
  - intros results0 Hok Hcap.
    destruct (FillResults_spec ctx results0 Hok Hcap) as (Hrun & _).
    eexists. split; [exact Hrun|]. rewrite normalized_osmIds.
    split; [done|]. apply emitLoop_NoDup.
Qed.

(** C4.  Token marking is balanced.  A call of [Go] returns with the token
    types and the used-token counter it was entered with, and after every
    [MarkToken] of the recursion the counter equals the number of positions
    whose type is not Count; a single [MarkToken] keeps that equation. *)
Theorem Go_marking_balanced (fuel : nat) (type : GeoType) (ctx : Context) :
  9 ≤ fuel + GeoType_to_size type →
  ContextInv ctx → fitsSize (length (m_tokens ctx)) →
  (∃ ctx',
     Go fuel type ctx = Done ctx'
     ∧ m_tokenTypes ctx' = m_tokenTypes ctx
     ∧ m_numUsedTokens ctx' = m_numUsedTokens ctx
     ∧ m_numUsedTokens ctx' = N.of_nat (countUsed (m_tokenTypes ctx'))
     ∧ ∃ evs,
         g_events ctx' = g_events ctx ++ evs
         ∧ ∀ types numUsed, EvMark types numUsed ∈ evs →
             numUsed = N.of_nat (countUsed types))
  ∧ (∀ id t, id < length (m_tokens ctx) →
       ∃ ctx', MarkToken id t ctx = Done ctx'
         ∧ m_numUsedTokens ctx' = N.of_nat (countUsed (m_tokenTypes ctx'))).
Proof.
  intros Hfuel Hinv Hsize. split.
  - destruct (Go_spec fuel type ctx Hfuel Hinv) as (ctx' & Hgo & Hr).
    pose proof (Restored_inv _ _ _ Hr Hinv) as Hinv'.
    destruct Hr as [[Htok _ (evs & Hevs & _ & Hok)] Hty Hn _].
    exists ctx'. split_and!; try done.
    + by apply Hn.
    + apply (inv_counter _ Hinv'). by rewrite Htok.
    + exists evs. split; [done|]. intros tys k Hin.
      apply (proj1 (Forall_forall _ _) Hok) in Hin. simpl in Hin.
      by apply Hin.
  - intros id t Hid.
    destruct (MarkToken_spec id t ctx Hinv Hid) as (ctx' & Hrun & Hinv' & Hev & _).
    exists ctx'. split; [done|]. apply (inv_counter _ Hinv').
    by rewrite (ev_tokens _ _ _ (Hev (λ _ _, True))).
Qed.

(** C5.  [FillRegularLayer] at level [type] puts a document into the layer
    if and only if it is visited for the subquery, its type is [type], and
    the layer stack is empty or some entry of the top layer is a parent of
    it; two stacks with the same top layer give the same layer. *)
Theorem FillRegularLayer_includes_iff (ctx : Context) (type : GeoType)
    (subquery : Tokens) :
  ∃ layer,
    FillRegularLayer ctx type subquery (Layer.mk type []) = Done layer
    ∧ Layer.m_type layer = type
    ∧ (∀ docId,
         docId ∈ Layer.m_entries layer ↔
         docId ∈ Index.ForEachDocId m_index subquery
         ∧ Entry.m_type (Index.GetDoc m_index docId) = type
         ∧ (m_layers ctx = []
            ∨ ∃ top parent,
                last (m_layers ctx) = Some top
                ∧ parent ∈ Layer.m_entries top
                ∧ Hierarchy.IsParentTo m_hierarchy
                    (Index.GetDoc m_index parent)
                    (Index.GetDoc m_index docId) = true))
    ∧ (∀ ctx', last (m_layers ctx') = last (m_layers ctx) →
         FillRegularLayer ctx' type subquery (Layer.mk type []) = Done layer).
Proof.
  eexists. split; [apply FillRegularLayer_spec|]. simpl. split_and!.
  - done.
  - intros docId. rewrite list_elem_of_filter. unfold acceptsDoc, parentInTop.
    rewrite andb_true_iff, orb_true_iff, !bool_decide_eq_true.
    split.
    + intros [[Hty Hpar] Hin]. split_and!; try done.
      destruct Hpar as [Hl|Hpar]; [by left|]. right.
      destruct (last (m_layers ctx)) as [top|]; [|done].
      apply existsb_exists in Hpar as (parent & Hin' & Hp).
      exists top, parent. split_and!; try done. by apply list_elem_of_In.
    + intros (Hin & Hty & Hpar). split_and!; try done.
      destruct Hpar as [Hl|(top & parent & Htop & Hin' & Hp)]; [by left|].
      right. rewrite Htop. apply existsb_exists. exists parent.
      split; [by apply list_elem_of_In|done].
  - intros ctx' Hlast. rewrite FillRegularLayer_spec. simpl. do 2 f_equal.
    apply list_filter_iff. intros docId. unfold acceptsDoc, parentInTop.
    rewrite Hlast.
    assert (Hnil : bool_decide (m_layers ctx' = []) = bool_decide (m_layers ctx = [])).
    { apply bool_decide_ext. rewrite <- !last_None. by rewrite Hlast. }
    by rewrite Hnil.
Qed.

Lemma FillBuildingsLayer_no_layer (ctx : Context) (subquery : Tokens)
    (subqueryTokenIds : list nat) (curLayer : Layer.t) :
  Forall (λ l, Layer.m_type l ≠ Street ∧ Layer.m_type l ≠ Locality)
    (m_layers ctx) →
  FillBuildingsLayer ctx subquery subqueryTokenIds curLayer = (curLayer, ctx).
Proof.
  intros Hall. unfold FillBuildingsLayer.
  destruct (bool_decide (m_layers ctx = [])); [done|].
  destruct (negb _); [done|].
  apply Forall_rev in Hall. revert Hall. generalize (rev (m_layers ctx)).
  intros ls. induction 1 as [|l ls [Hs Hl] _ IH]; simpl; [done|].
  by rewrite !bool_decide_eq_true_2 by done.
Qed.

Lemma GoInner_Building_idle (go : GeoType → Context → Outcome Context)
    (i n j : nat) (subquery : Tokens) (subqueryTokenIds : list nat)
    (ctx : Context) :
  ContextInv ctx → j + n = length (m_tokens ctx) →
  Forall (λ l, Layer.m_type l ≠ Street ∧ Layer.m_type l ≠ Locality)
    (m_layers ctx) →
  GoInner go Building i (seq j n) subquery subqueryTokenIds ctx = Done ctx.
Proof.
  intros Hinv. revert j subquery subqueryTokenIds.
  induction n as [|n IH]; intros j subquery ids Hn Hall; cbn [seq GoInner];
    [done|].
  pose proof (inv_length _ Hinv) as Hlen.
  destruct (lookup_lt_is_Some_2 (m_tokenTypes ctx) j) as [t Ht]; [lia|].
  destruct (lookup_lt_is_Some_2 (m_tokens ctx) j) as [tok Htk]; [lia|].
  unfold IsTokenUsed, GetToken. rewrite Ht, Htk.
  destruct (decide (j < length (m_tokens ctx))) as [_|]; [|lia].
  cbn. destruct (bool_decide (t ≠ Count)); [done|].
  rewrite FillBuildingsLayer_no_layer by done. cbn.
  apply IH; [lia|done].
Qed.

(** C6.  [FillBuildingsLayer] adds no entry and notes no house-number
    position when the layer stack is empty, when the joined subquery does
    not look like a house number, or when no layer of the stack is a Street
    or a Locality; so [Go] at Building level records nothing and changes
    nothing when no Street or Locality layer is on the stack. *)
Theorem FillBuildingsLayer_requires_layer (ctx : Context) (subquery : Tokens)
    (subqueryTokenIds : list nat) (curLayer : Layer.t) :
  m_layers ctx = []
  ∨ LooksLikeHouseNumber (MakeHouseNumber subquery) false = false
  ∨ Forall (λ l, Layer.m_type l ≠ Street ∧ Layer.m_type l ≠ Locality)
      (m_layers ctx) →
  FillBuildingsLayer ctx subquery subqueryTokenIds curLayer = (curLayer, ctx)
  ∧ (ContextInv ctx →
     Forall (λ l, Layer.m_type l ≠ Street ∧ Layer.m_type l ≠ Locality)
       (m_layers ctx) →
     ∀ fuel, Go (S (S fuel)) Building ctx = Done ctx).
Proof.
  intros Hcase. split.
  - destruct Hcase as [Hl|[Hhn|Hall]].
    + unfold FillBuildingsLayer. by rewrite bool_decide_eq_true_2.
    + unfold FillBuildingsLayer. rewrite Hhn. simpl.
      by destruct (bool_decide (m_layers ctx = [])).
    + by apply FillBuildingsLayer_no_layer.
  - intros Hinv Hall fuel.
    change (Go (S (S fuel)) Building ctx)
      with (GoBody (Go (S fuel)) Building ctx).
    unfold GoBody at 1.
    destruct (bool_decide (GetNumTokens ctx = 0)); [done|].
    destruct (AllTokensUsed ctx) eqn:Hused; [done|].
    rewrite bool_decide_eq_false_2 by done.
    assert (Houter : GoOuter (Go (S fuel)) Building ctx = Done ctx).
    { unfold GoOuter, GetNumTokens.
      assert (Hgen : ∀ is_, Forall (λ i, i ≤ length (m_tokens ctx)) is_ →
        forEachO
          (λ i c, GoInner (Go (S fuel)) Building i
                    (seq i (length (m_tokens c) - i)) [] [] c) is_ ctx
        = Done ctx).
      { induction 1 as [|i is_ Hi _ IH]; simpl; [done|].
        rewrite GoInner_Building_idle; [|done|lia|done]. simpl. exact IH. }
      apply Hgen. apply Forall_forall. intros i Hi.
      apply elem_of_seq in Hi. lia. }
    rewrite Houter.
    change (NextType Building) with (Done (A:=GeoType) Count).
    cbn [mbind Outcome_bind].
    change (Go (S fuel) Count ctx) with (GoBody (Go fuel) Count ctx).
    unfold GoBody.
    rewrite Hused. by destruct (bool_decide (GetNumTokens ctx = 0)).
Qed.

(** C7.  [Go] returns at once, with the context as it was, when there is no
    token, when all tokens are used, or when the level is Count; a query
    without tokens yields the empty result list; and every query yields a
    result list, none ends in a failed check. *)
Theorem Go_returns_immediately :
  (∀ fuel type ctx,
     GetNumTokens ctx = 0 ∨ AllTokensUsed ctx = true ∨ type = Count →
     Go (S fuel) type ctx = Done ctx)
  ∧ (∀ query results0,
       NormalizeAndTokenizeAsUtf8 query = [] →
       ProcessQuery query results0 = Done [])
  ∧ (∀ query results0, ∃ results, ProcessQuery query results0 = Done results).
Proof.
  split_and!.
  - intros fuel type ctx Hcase. cbn [Go]. unfold GoBody.
    destruct Hcase as [H0|[Hall| ->]].
    + by rewrite bool_decide_eq_true_2.
    + rewrite Hall. by destruct (bool_decide _).
    + by destruct (bool_decide _), (AllTokensUsed ctx).
  - intros query results0 Hnil. unfold ProcessQuery, Context_ctor, Go_fuel.
    rewrite Hnil. reflexivity.
  - intros query results0.
    destruct (ProcessQuery_spec query results0) as (ctx' & _ & Hrun & _).
    eexists. exact Hrun.
Qed.

(** C8.  Certainty is monotone in specificity.  In a frame of [Go] at Street
    level every document of the layer is recorded with the sum of the
    weights of the token types marked so far; every result recorded while
    the frame's marks are in place, that is by the descent of the frame, is
    a Building candidate and its certainty is at least that sum. *)
Theorem building_certainty_ge_street (fuel i j : nat) (curLayer : Layer.t)
    (ctx : Context) :
  2 ≤ fuel → ContextInv ctx → i ≤ j → j < length (m_tokens ctx) →
  (∀ k, i ≤ k ≤ j → m_tokenTypes ctx !! k = Some Count) →
  ∃ ctx' evs descent,
    let types := setRange Street i (j + 1) (m_tokenTypes ctx) in
    GoFrame (Go fuel) Street i j curLayer ctx = Done ctx'
    ∧ g_events ctx' = g_events ctx ++ evs
    ∧ recorded evs
      = ((λ docId, (frameKey Street types docId, sumWeights types))
           <$> Layer.m_entries curLayer) ++ descent
    ∧ ∀ key c, (key, c) ∈ descent →
        BeamKey.m_type key = Building ∧ (sumWeights types <= c)%Q.
Proof.
  intros Hfuel Hinv Hij Hj Hfree.
  destruct (GoFrame_spec (Go fuel) Street i j curLayer ctx)
    as (ctx' & Hrun & _ & evs & rest & Hevs & Hrec & Hrest); try done.
  { intros next Hnext c Hc. apply Go_spec; [|done].
    cbv in Hnext. injection Hnext as <-. simpl. lia. }
  exists ctx', evs, rest. cbn zeta. split_and!; try done.
  intros key c Hin.
  destruct (proj1 (Forall_forall _ _) Hrest _ Hin Building eq_refl)
    as (_ & Hle & Hrank & Hne). simpl in *.
  split; [|done]. destruct (BeamKey.m_type key); simpl in Hrank; try lia; done.
Qed.

(** C9.  No check fails in a run of [Go].  From a well-formed context, and
    so from the context of every query, [Go] returns: [NextType] is reached
    only with a level other than Count, every [ScopedMarkTokens] has
    l <= r <= number of tokens, and every token index given to the context
    is in range.  Each of these checks ends the run when it is violated. *)
Theorem Go_checks_never_fail :
  (∀ fuel type ctx,
     9 ≤ fuel + GeoType_to_size type → ContextInv ctx →
     ∃ ctx', Go fuel type ctx = Done ctx')
  ∧ (∀ query, ∃ ctx', Go Go_fuel Country (Context_ctor query) = Done ctx')
  ∧ NextType Count = CheckFailed
  ∧ (∀ type l r ctx,
       ¬ (l ≤ r ∧ r ≤ GetNumTokens ctx) →
       ScopedMarkTokens_ctor type l r ctx = CheckFailed)
  ∧ (∀ id type ctx,
       ¬ id < GetNumTokens ctx →
       MarkToken id type ctx = CheckFailed
       ∧ GetToken id ctx = CheckFailed
       ∧ IsTokenUsed id ctx = CheckFailed)
  ∧ (∀ id ctx,
       ¬ id < length (m_tokenTypes ctx) → GetTokenType id ctx = CheckFailed).
Proof.
  split_and!.
  - intros fuel type ctx Hfuel Hinv.
    destruct (Go_spec fuel type ctx Hfuel Hinv) as (ctx' & Hgo & _). eauto.
  - intros query. destruct (Go_query_spec query) as (ctx' & Hgo & _). eauto.
  - done.
  - intros type l r ctx Hn. unfold ScopedMarkTokens_ctor.
    destruct (decide (l ≤ r)); [|done].
    destruct (decide (r ≤ GetNumTokens ctx)); [|done]. tauto.
  - intros id type ctx Hn. unfold MarkToken, GetToken, IsTokenUsed, GetNumTokens in *.
    by rewrite !decide_False by done.
  - intros id ctx Hn. unfold GetTokenType. by rewrite decide_False by done.
Qed.

(** C10.  The output of [ProcessQuery] does not depend on what the caller's
    result vector held: two calls with the same query, hierarchy and index
    return the same list. *)
Theorem ProcessQuery_ignores_prior_results (query : string)
    (results1 results2 : list Result.t) :
  ProcessQuery query results1 = ProcessQuery query results2
  ∧ ∃ results,
      ProcessQuery query results1 = Done results
      ∧ ProcessQuery query results2 = Done results.
Proof.
  assert (Heq : ProcessQuery query results1 = ProcessQuery query results2)
    by reflexivity.
  split; [exact Heq|].
  destruct (ProcessQuery_spec query results1) as (ctx' & _ & Hrun & _).
  eexists. split; [exact Hrun|]. rewrite <- Heq. exact Hrun.
Qed.


(** ** Further properties of the context operations *)

(** What a successful [MarkToken] changes and what it leaves alone. *)
Lemma MarkToken_effect (id : nat) (type : GeoType) (ctx ctx' : Context) :
  MarkToken id type ctx = Done ctx' →
  id < length (m_tokens ctx)
  ∧ m_tokens ctx' = m_tokens ctx
  ∧ m_tokenTypes ctx' = <[id := type]> (m_tokenTypes ctx)
  ∧ m_layers ctx' = m_layers ctx
  ∧ m_beam ctx' = m_beam ctx
  ∧ m_houseNumberPositionsInQuery ctx' = m_houseNumberPositionsInQuery ctx
  ∧ g_events ctx'
    = g_events ctx ++ [EvMark (m_tokenTypes ctx') (m_numUsedTokens ctx')].
Proof.
  unfold MarkToken. destruct (decide _) as [Hid|]; [|done].
  destruct (m_tokenTypes ctx !! id); [|done].
  intros [= <-]. by split_and!.
Qed.

Lemma length_filter_all {A} (P : A → Prop) `{!∀ x, Decision (P x)} (l : list A) :
  length (filter P l) = length l ↔ Forall P l.
Proof.
  induction l as [|x l IH]; [by split; [constructor|]|].
  rewrite filter_cons. pose proof (length_filter P l) as Hle.
  destruct (decide (P x)) as [Hx|Hx]; simpl.
  - rewrite Forall_cons. split.
    + intros Hl. split; [done|]. apply IH. lia.
    + intros [_ Hl]. apply IH in Hl. lia.
  - split; [lia|]. intros Hl. by apply Forall_cons in Hl as [? _].
Qed.

(** X1.  Marks compose by overwriting and by commuting: marking a position
    twice leaves the token types and the counter of the second mark alone,
    and marks of two different positions give the same token types and
    counter in either order. *)
Theorem MarkToken_compose (i j : nat) (t u : GeoType) (ctx : Context) :
  ContextInv ctx → fitsSize (length (m_tokens ctx)) →
  i < length (m_tokens ctx) → j < length (m_tokens ctx) →
  (∃ c1 c2 c2',
     MarkToken i t ctx = Done c1 ∧ MarkToken i u c1 = Done c2
     ∧ MarkToken i u ctx = Done c2'
     ∧ m_tokenTypes c2 = m_tokenTypes c2'
     ∧ m_numUsedTokens c2 = m_numUsedTokens c2')
  ∧ (i ≠ j →
     ∃ c1 c2 d1 d2,
       MarkToken i t ctx = Done c1 ∧ MarkToken j u c1 = Done c2
       ∧ MarkToken j u ctx = Done d1 ∧ MarkToken i t d1 = Done d2
       ∧ m_tokenTypes c2 = m_tokenTypes d2
       ∧ m_numUsedTokens c2 = m_numUsedTokens d2).
Proof.
  intros Hinv Hsize Hi Hj.
  assert (Hstep : ∀ k v c, ContextInv c → m_tokens c = m_tokens ctx →
            k < length (m_tokens ctx) →
            ∃ c', MarkToken k v c = Done c' ∧ ContextInv c'
              ∧ m_tokens c' = m_tokens ctx
              ∧ m_tokenTypes c' = <[k := v]> (m_tokenTypes c)
              ∧ m_numUsedTokens c' = N.of_nat (countUsed (m_tokenTypes c'))).
  { intros k v c Hc Htok Hk.
    destruct (MarkToken_spec k v c Hc) as (c' & Hrun & Hc' & Hev & Hty & _);
      [by rewrite Htok|].
    pose proof (ev_tokens _ _ _ (Hev (λ _ _, True))) as Htok'.
    exists c'. split_and!; try done; [congruence|].
    apply (inv_counter _ Hc'). by rewrite Htok', Htok. }
  split.
  - destruct (Hstep i t ctx Hinv eq_refl Hi) as (c1 & R1 & I1 & T1 & Y1 & _).
    destruct (Hstep i u c1 I1 T1 Hi) as (c2 & R2 & _ & _ & Y2 & N2).
    destruct (Hstep i u ctx Hinv eq_refl Hi) as (c2' & R2' & _ & _ & Y2' & N2').
    exists c1, c2, c2'. split_and!; try done.
    + by rewrite Y2, Y1, Y2', list_insert_insert_eq.
    + by rewrite N2, N2', Y2, Y1, Y2', list_insert_insert_eq.
  - intros Hne.
    destruct (Hstep i t ctx Hinv eq_refl Hi) as (c1 & R1 & I1 & T1 & Y1 & _).
    destruct (Hstep j u c1 I1 T1 Hj) as (c2 & R2 & _ & _ & Y2 & N2).
    destruct (Hstep j u ctx Hinv eq_refl Hj) as (d1 & S1 & J1 & U1 & Z1 & _).
    destruct (Hstep i t d1 J1 U1 Hi) as (d2 & S2 & _ & _ & Z2 & M2).
    exists c1, c2, d1, d2.
    assert (Heq : m_tokenTypes c2 = m_tokenTypes d2).
    { rewrite Y2, Y1, Z2, Z1. by apply list_insert_insert_ne. }
    split_and!; try done. by rewrite N2, M2, Heq.
Qed.

(** What a successful run of marks over a list of positions leaves alone. *)
Lemma markEach_frame (type : GeoType) (ids : list nat) (ctx ctx' : Context) :
  forEachO (λ i c, MarkToken i type c) ids ctx = Done ctx' →
  m_tokens ctx' = m_tokens ctx
  ∧ m_layers ctx' = m_layers ctx
  ∧ m_beam ctx' = m_beam ctx
  ∧ m_houseNumberPositionsInQuery ctx' = m_houseNumberPositionsInQuery ctx.
Proof.
  revert ctx. induction ids as [|i ids IH]; intros ctx; simpl.
  - by intros [= <-].
  - destruct (MarkToken i type ctx) as [c1| | |] eqn:H1; try done. simpl.
    intros H2. apply MarkToken_effect in H1 as (_ & ? & _ & ? & ? & ? & _).
    apply IH in H2 as (? & ? & ? & ?). split_and!; congruence.
Qed.

(** X2.  The destructor of [ScopedMarkTokens] clears, it does not restore:
    after a scoped mark of [l, r) has ended every position of the range is
    unassigned and every other position is as before, so the token types
    are the ones before the mark exactly when the range was unassigned
    then; tokens, layers, beam and house-number positions are untouched. *)
Theorem ScopedMarkTokens_clears (type : GeoType) (l r : nat) (ctx : Context) :
  ContextInv ctx → l ≤ r → r ≤ length (m_tokens ctx) →
  ∃ c1 c2,
    ScopedMarkTokens_ctor type l r ctx = Done c1
    ∧ ScopedMarkTokens_dtor l r c1 = Done c2
    ∧ (∀ k, l ≤ k < r → m_tokenTypes c1 !! k = Some type)
    ∧ (∀ k, l ≤ k < r → m_tokenTypes c2 !! k = Some Count)
    ∧ (∀ k, ¬ l ≤ k < r → m_tokenTypes c2 !! k = m_tokenTypes ctx !! k)
    ∧ (m_tokenTypes c2 = m_tokenTypes ctx
       ↔ ∀ k, l ≤ k < r → m_tokenTypes ctx !! k = Some Count)
    ∧ m_tokens c2 = m_tokens ctx
    ∧ m_layers c2 = m_layers ctx
    ∧ m_beam c2 = m_beam ctx
    ∧ m_houseNumberPositionsInQuery c2 = m_houseNumberPositionsInQuery ctx.
Proof.
  intros Hinv Hlr Hr. pose proof (inv_length _ Hinv) as Hlen.
  destruct (ScopedMarkTokens_ctor_spec type l r ctx Hinv Hlr Hr)
    as (c1 & Hrun1 & Hinv1 & Hev1 & Hty1 & _).
  pose proof (ev_tokens _ _ _ (Hev1 (λ _ _, True))) as Htok1.
  destruct (MarkRange_spec Count l r c1 Hinv1) as (c2 & Hrun2 & _ & _ & Hty2 & _);
    [by rewrite Htok1|].
  exists c1, c2.
  assert (Hf1 : m_tokens c1 = m_tokens ctx ∧ m_layers c1 = m_layers ctx
                ∧ m_beam c1 = m_beam ctx
                ∧ m_houseNumberPositionsInQuery c1
                  = m_houseNumberPositionsInQuery ctx).
  { unfold ScopedMarkTokens_ctor in Hrun1.
    destruct (decide (l ≤ r)); [|done].
    destruct (decide (r ≤ GetNumTokens ctx)); [|done].
    by apply markEach_frame in Hrun1. }
  pose proof (markEach_frame _ _ _ _ Hrun2) as Hf2.
  assert (Hin : ∀ k, l ≤ k < r → m_tokenTypes c2 !! k = Some Count).
  { intros k Hk. rewrite Hty2, Hty1, !lookup_setRange, length_setRange.
    rewrite decide_True; [done|lia]. }
  assert (Hout : ∀ k, ¬ l ≤ k < r → m_tokenTypes c2 !! k = m_tokenTypes ctx !! k).
  { intros k Hk. rewrite Hty2, Hty1, !lookup_setRange, length_setRange.
    rewrite !decide_False; [done|tauto|tauto]. }
  split_and!; try done; try (destruct Hf1 as (?&?&?&?), Hf2 as (?&?&?&?); congruence).
  - intros k Hk. rewrite Hty1, lookup_setRange. rewrite decide_True; [done|lia].
  - split.
    + intros Heq k Hk. rewrite <- Heq. by apply Hin.
    + intros Hfree. apply list_eq. intros k.
      destruct (decide (l ≤ k < r)) as [Hk|Hk].
      * rewrite (Hin k Hk). symmetry. by apply Hfree.
      * by apply Hout.
Qed.

(** X3.  The weights follow the order of the levels: a coarser level never
    weighs less than a finer one, and exactly the sentinel Count weighs
    nothing. *)
Theorem GetWeight_antitone (a b : GeoType) :
  (GeoType_to_size a ≤ GeoType_to_size b → (GetWeight b <= GetWeight a)%Q)
  ∧ ((0 < GetWeight a)%Q ↔ a ≠ Count)
  ∧ (GetWeight a <= 10)%Q.
Proof.
  split_and!.
  - destruct a, b; simpl; intros H; try lia; unfold Qle; simpl; lia.
  - split; [|apply GetWeight_pos]. intros H ->. simpl in H. lra.
  - destruct a; unfold Qle; simpl; lia.
Qed.

(** X4.  Under the invariant of the context, [AllTokensUsed], which compares
    the counter with the number of tokens, is true exactly when no position
    is unassigned. *)
Theorem AllTokensUsed_iff (ctx : Context) :
  ContextInv ctx → fitsSize (length (m_tokens ctx)) →
  (AllTokensUsed ctx = true ↔ Forall (λ t, t ≠ Count) (m_tokenTypes ctx)).
Proof.
  intros [Hlen Hcnt] Hsize. unfold AllTokensUsed.
  rewrite bool_decide_eq_true, (Hcnt Hsize), <- Hlen.
  rewrite <- length_filter_all. unfold countUsed. split.
  - intros H. by apply Nat2N.inj in H.
  - intros H. by rewrite H.
Qed.

(** ** Further properties of the layer fillers *)

Lemma elem_of_rev {A} (x : A) (l : list A) : x ∈ rev l ↔ x ∈ l.
Proof. rewrite !list_elem_of_In. symmetry. apply in_rev. Qed.

Lemma relatedBuilding_fold (subqueryHN : string) (bs : list DocId)
    (cur : Layer.t) :
  fold_left (relatedBuilding_visit subqueryHN) bs cur
  = Layer.mk (Layer.m_type cur)
      (Layer.m_entries cur
       ++ filter (λ b, HouseNumbersMatch
                         (Entry.m_mainName (Index.GetDoc m_index b) Building)
                         subqueryHN false = true) bs).
Proof.
  revert cur. induction bs as [|b bs IH]; intros cur; simpl.
  - rewrite filter_nil, app_nil_r. by destruct cur.
  - rewrite IH, filter_cons. unfold relatedBuilding_visit.
    destruct (decide (HouseNumbersMatch
                        (Entry.m_mainName (Index.GetDoc m_index b) Building)
                        subqueryHN false = true)) as [Hm|Hm].
    + rewrite Hm. simpl. by rewrite <- app_assoc.
    + apply not_true_is_false in Hm. rewrite Hm. done.
Qed.

Lemma layerEntries_fold (subqueryHN : string) (ds : list DocId) (cur : Layer.t) :
  fold_left
    (λ cur docId,
       fold_left (relatedBuilding_visit subqueryHN)
         (Index.ForEachRelatedBuilding m_index docId) cur) ds cur
  = Layer.mk (Layer.m_type cur)
      (Layer.m_entries cur
       ++ (ds ≫= λ d,
             filter (λ b, HouseNumbersMatch
                            (Entry.m_mainName (Index.GetDoc m_index b) Building)
                            subqueryHN false = true)
               (Index.ForEachRelatedBuilding m_index d))).
Proof.
  revert cur. induction ds as [|d ds IH]; intros cur; simpl.
  - rewrite app_nil_r. by destruct cur.
  - rewrite IH, relatedBuilding_fold. simpl. by rewrite <- app_assoc.
Qed.

Lemma MarkHouseNumberPositionsInQuery_idem (ids : list nat) (ctx : Context) :
  MarkHouseNumberPositionsInQuery ids (MarkHouseNumberPositionsInQuery ids ctx)
  = MarkHouseNumberPositionsInQuery ids ctx.
Proof.
  unfold MarkHouseNumberPositionsInQuery, set_houseNumberPositions. simpl.
  f_equal. set_solver.
Qed.

(** The layers of the stack as [FillBuildingsLayer] goes through them. *)
Lemma FillBuildingsLayer_fold (subqueryHN : string) (ids : list nat)
    (ls : list Layer.t) (cur : Layer.t) (ctx : Context) :
  fold_left (FillBuildingsLayer_layer subqueryHN ids) ls (cur, ctx)
  = (Layer.mk (Layer.m_type cur)
       (Layer.m_entries cur
        ++ (ls ≫= λ layer,
              if bool_decide (Layer.m_type layer ≠ Street)
                 && bool_decide (Layer.m_type layer ≠ Locality)
              then []
              else Layer.m_entries layer ≫= λ d,
                     filter (λ b, HouseNumbersMatch
                                    (Entry.m_mainName (Index.GetDoc m_index b)
                                       Building) subqueryHN false = true)
                       (Index.ForEachRelatedBuilding m_index d))),
     if bool_decide
          (Exists (λ l, Layer.m_type l = Street ∨ Layer.m_type l = Locality) ls)
     then MarkHouseNumberPositionsInQuery ids ctx else ctx).
Proof.
  clear NormalizeAndTokenizeAsUtf8 IsStreetSynonym LooksLikeHouseNumber
    m_hierarchy.
  assert (Hgen : ∀ cur c,
    (c = ctx ∨ c = MarkHouseNumberPositionsInQuery ids ctx) →
    fold_left (FillBuildingsLayer_layer subqueryHN ids) ls (cur, c)
    = (Layer.mk (Layer.m_type cur)
         (Layer.m_entries cur
          ++ (ls ≫= λ layer,
                if bool_decide (Layer.m_type layer ≠ Street)
                   && bool_decide (Layer.m_type layer ≠ Locality)
                then []
                else Layer.m_entries layer ≫= λ d,
                       filter (λ b, HouseNumbersMatch
                                      (Entry.m_mainName (Index.GetDoc m_index b)
                                         Building) subqueryHN false = true)
                         (Index.ForEachRelatedBuilding m_index d))),
       if bool_decide
            (Exists (λ l, Layer.m_type l = Street ∨ Layer.m_type l = Locality)
               ls)
       then MarkHouseNumberPositionsInQuery ids ctx else c)).
  { clear cur. induction ls as [|l ls IH]; intros cur c Hc.
    - simpl. rewrite app_nil_r. by destruct cur.
    - cbn [fold_left]. unfold FillBuildingsLayer_layer at 2.
      destruct (decide (Layer.m_type l = Street ∨ Layer.m_type l = Locality))
        as [Hsl|Hsl].
      + assert (Hb : bool_decide (Layer.m_type l ≠ Street)
                     && bool_decide (Layer.m_type l ≠ Locality) = false).
        { apply andb_false_iff.
          destruct Hsl as [Hs|Hs]; [left|right];
            apply bool_decide_eq_false_2; intros Hn; by apply Hn. }
        rewrite Hb, layerEntries_fold.
        rewrite (IH _ (MarkHouseNumberPositionsInQuery ids c)).
        2:{ right. destruct Hc as [->| ->]; [done|].
            apply MarkHouseNumberPositionsInQuery_idem. }
        assert (He : bool_decide
                       (Exists (λ l, Layer.m_type l = Street
                                     ∨ Layer.m_type l = Locality) (l :: ls))
                     = true).
        { apply bool_decide_eq_true_2. by apply Exists_cons_hd. }
        rewrite He. simpl. rewrite Hb, <- app_assoc.
        apply pair_equal_spec. split; [reflexivity|].
        destruct (bool_decide (Exists _ ls)); [reflexivity|].
        destruct Hc as [->| ->]; [done|].
        apply MarkHouseNumberPositionsInQuery_idem.
      + assert (Hb : bool_decide (Layer.m_type l ≠ Street)
                     && bool_decide (Layer.m_type l ≠ Locality) = true).
        { apply andb_true_iff. split; apply bool_decide_eq_true_2; tauto. }
        assert (He : bool_decide
                       (Exists (λ l, Layer.m_type l = Street
                                     ∨ Layer.m_type l = Locality) (l :: ls))
                     = bool_decide
                         (Exists (λ l, Layer.m_type l = Street
                                       ∨ Layer.m_type l = Locality) ls)).
        { apply bool_decide_ext. rewrite Exists_cons. tauto. }
        rewrite Hb, (IH _ c Hc), He. simpl. rewrite Hb. done. }
  apply Hgen. by left.
Qed.

(** X5.  When the joined subquery looks like a house number and some layer
    of the stack is a Street or a Locality, [FillBuildingsLayer] notes the
    positions of the subquery as house-number positions, whether or not a
    building matches; nothing else of the context changes. *)
Theorem FillBuildingsLayer_notes_positions (ctx : Context) (subquery : Tokens)
    (subqueryTokenIds : list nat) (curLayer : Layer.t) :
  LooksLikeHouseNumber (MakeHouseNumber subquery) false = true →
  Exists (λ l, Layer.m_type l = Street ∨ Layer.m_type l = Locality)
    (m_layers ctx) →
  snd (FillBuildingsLayer ctx subquery subqueryTokenIds curLayer)
  = set_houseNumberPositions
      (m_houseNumberPositionsInQuery ctx ∪ list_to_set subqueryTokenIds) ctx.
Proof.
  intros Hlooks Hex. unfold FillBuildingsLayer.
  rewrite bool_decide_eq_false_2.
  2:{ intros Hnil. rewrite Hnil in Hex. by apply Exists_nil in Hex. }
  rewrite Hlooks. simpl. rewrite FillBuildingsLayer_fold. simpl.
  rewrite bool_decide_eq_true_2; [done|].
  apply Exists_exists in Hex as (l & Hl & Hsl). apply Exists_exists.
  exists l. split; [|done]. by apply (proj2 (elem_of_rev _ _)).
Qed.

(** X6.  [FillBuildingsLayer] only appends to the layer.  A building is
    appended exactly when the joined subquery looks like a house number and
    the building is related to an entry of a Street or Locality layer of the
    stack and its main Building name matches the subquery as a house
    number. *)
Theorem FillBuildingsLayer_entries (ctx : Context) (subquery : Tokens)
    (subqueryTokenIds : list nat) (curLayer : Layer.t) :
  ∃ found,
    fst (FillBuildingsLayer ctx subquery subqueryTokenIds curLayer)
    = Layer.mk (Layer.m_type curLayer) (Layer.m_entries curLayer ++ found)
    ∧ ∀ b,
        b ∈ found ↔
        LooksLikeHouseNumber (MakeHouseNumber subquery) false = true
        ∧ ∃ layer d,
            layer ∈ m_layers ctx
            ∧ (Layer.m_type layer = Street ∨ Layer.m_type layer = Locality)
            ∧ d ∈ Layer.m_entries layer
            ∧ b ∈ Index.ForEachRelatedBuilding m_index d
            ∧ HouseNumbersMatch
                (Entry.m_mainName (Index.GetDoc m_index b) Building)
                (MakeHouseNumber subquery) false = true.
Proof.
  unfold FillBuildingsLayer.
  destruct (decide (m_layers ctx = [])) as [Hnil|Hnil].
  { rewrite bool_decide_eq_true_2 by done. exists []. simpl.
    rewrite app_nil_r. split; [by destruct curLayer|].
    intros b. split; [by intros H; apply elem_of_nil in H|].
    intros (_ & layer & d & Hin & _). rewrite Hnil in Hin.
    by apply elem_of_nil in Hin. }
  rewrite bool_decide_eq_false_2 by done.
  destruct (LooksLikeHouseNumber (MakeHouseNumber subquery) false) eqn:Hlooks;
    simpl.
  2:{ exists []. rewrite app_nil_r. split; [by destruct curLayer|].
      intros b. split; [by intros H; apply elem_of_nil in H|].
      by intros (? & _). }
  rewrite FillBuildingsLayer_fold. simpl. eexists. split; [reflexivity|].
  intros b. rewrite list_elem_of_bind. split.
  - intros (layer & Hb & Hlayer). apply (proj1 (elem_of_rev _ _)) in Hlayer.
    destruct (bool_decide (Layer.m_type layer ≠ Street)
              && bool_decide (Layer.m_type layer ≠ Locality)) eqn:Hsl;
      [by apply elem_of_nil in Hb|].
    apply list_elem_of_bind in Hb as (d & Hb & Hd).
    apply list_elem_of_filter in Hb as [Hm Hrel].
    split; [done|]. exists layer, d. split_and!; try done.
    apply andb_false_iff in Hsl as [Hs|Hs]; apply bool_decide_eq_false in Hs;
      [left|right]; by apply dec_stable.
  - intros (_ & layer & d & Hlayer & Hsl & Hd & Hrel & Hm).
    exists layer. split; [|by apply (proj2 (elem_of_rev _ _))].
    assert (Hb : bool_decide (Layer.m_type layer ≠ Street)
                 && bool_decide (Layer.m_type layer ≠ Locality) = false).
    { apply andb_false_iff.
      destruct Hsl as [Hs|Hs]; [left|right];
        apply bool_decide_eq_false_2; intros Hn; by apply Hn. }
    rewrite Hb. apply list_elem_of_bind. exists d. split; [|done].
    by apply list_elem_of_filter.
Qed.

(** ** Further properties of the search and of the finalizer *)

(** X7.  [Go] is balanced in the layer stack too: it returns with the layer
    stack and the tokens it was entered with, the set of house-number
    positions has only grown and the log has only been appended to; after
    the search of a query the layer stack is empty. *)
Theorem Go_restores_layers :
  (∀ fuel type ctx,
     9 ≤ fuel + GeoType_to_size type → ContextInv ctx →
     ∃ ctx',
       Go fuel type ctx = Done ctx'
       ∧ m_layers ctx' = m_layers ctx
       ∧ m_tokens ctx' = m_tokens ctx
       ∧ m_houseNumberPositionsInQuery ctx ⊆ m_houseNumberPositionsInQuery ctx'
       ∧ ∃ evs, g_events ctx' = g_events ctx ++ evs)
  ∧ (∀ query,
       ∃ ctx', Go Go_fuel Country (Context_ctor query) = Done ctx'
         ∧ m_layers ctx' = []).
Proof.
  split.
  - intros fuel type ctx Hfuel Hinv.
    destruct (Go_spec fuel type ctx Hfuel Hinv)
      as (ctx' & Hgo & [[Htok Hhn (evs & Hevs & _)] _ _ Hl]).
    exists ctx'. split_and!; try done. by exists evs.
  - intros query.
    destruct (Go_query_spec query) as (ctx' & Hgo & [_ _ _ Hl] & _).
    exists ctx'. split; [done|]. by rewrite Hl.
Qed.

(** X8.  The house-number filter is antitone in the noted positions: a key
    that passes for a set of positions passes for every subset of it. *)
Theorem IsGoodForPotentialHouseNumberAt_antitone (ctx : Context)
    (key : BeamKey.t) (hn1 hn2 : gset nat) :
  hn1 ⊆ hn2 →
  IsGoodForPotentialHouseNumberAt ctx key hn2 = true →
  IsGoodForPotentialHouseNumberAt ctx key hn1 = true.
Proof.
  intros Hsub. rewrite !IsGoodForPotentialHouseNumberAt_iff.
  unfold goodForHouseNumber. intros [H|[H|[H1 H2]]]; [by left|by right; left|].
  right; right. split; [done|]. intros k Hk. apply H2. by apply Hsub.
Qed.

(** X9.  When no house-number position was noted, [FillResults] only
    removes repeated ids: the emitted ids are exactly the ids of the beam,
    and the first beam entry is the first result. *)
Theorem FillResults_without_house_number (ctx : Context) :
  m_houseNumberPositionsInQuery ctx = ∅ →
  (∀ es id, id ∈ (Result.m_osmId <$> emitLoop ctx es) ↔ id ∈ (osmIdOf <$> es))
  ∧ (∀ e es, ∃ rest, emitLoop ctx (e :: es) = toResult e :: rest)
  ∧ (∀ results0,
       BeamOk (m_beam ctx) → Beam.m_capacity (m_beam ctx) = kMaxResults →
       ∃ results,
         FillResults ctx results0 = Done results
         ∧ ∀ id, id ∈ (Result.m_osmId <$> results)
                 ↔ id ∈ (osmIdOf <$> Beam.GetEntries (m_beam ctx))).
Proof.
  intros Hhn.
  assert (Hsnoc : ∀ earlier e,
    emitLoop ctx (earlier ++ [e])
    = emitLoop ctx earlier
      ++ (if decide (osmIdOf e ∈ osmIdOf <$> earlier) then [] else [toResult e])).
  { intros earlier e. rewrite emitLoop_snoc. f_equal.
    destruct (decide (osmIdOf e ∈ osmIdOf <$> earlier)) as [Hin|Hin].
    - rewrite decide_False; [done|]. by intros [Hn _].
    - rewrite decide_True; [done|]. split; [done|]. by intros Hne. }
  assert (Hids : ∀ es id,
    id ∈ (Result.m_osmId <$> emitLoop ctx es) ↔ id ∈ (osmIdOf <$> es)).
  { induction es as [|e es IH] using rev_ind; intros id; [done|].
    rewrite Hsnoc, !fmap_app, !elem_of_app, IH. simpl.
    destruct (decide (osmIdOf e ∈ osmIdOf <$> es)) as [Hin|Hin]; simpl.
    - rewrite elem_of_nil, list_elem_of_singleton. split; [tauto|].
      intros [H|H]; [by left|]. left. by rewrite H.
    - rewrite !list_elem_of_singleton. done. }
  split_and!.
  - exact Hids.
  - intros e es. destruct (emitLoop_extends ctx [e] es) as (rest & Hrest).
    exists rest. simpl in Hrest. rewrite Hrest.
    change [e] with ([] ++ [e]). rewrite Hsnoc.
    destruct (decide (osmIdOf e ∈ osmIdOf <$> [])) as [Hin|_]; [|done].
    by apply elem_of_nil in Hin.
  - intros results0 Hok Hcap.
    destruct (FillResults_spec ctx results0 Hok Hcap) as (Hrun & _).
    eexists. split; [exact Hrun|]. intros id. rewrite normalized_osmIds.
    apply Hids.
Qed.

(** X10.  At every level other than Street the scoring loop leaves the
    context as it was: it makes no synonym mark and logs nothing. *)
Theorem scoreTokens_other_levels (type : GeoType) (ctx : Context) :
  type ≠ Street → ContextInv ctx →
  ∃ sc,
    scoreTokens type ctx = Done (sc, ctx)
    ∧ streetSynonymMark sc = None
    ∧ certainty sc = sumWeights (m_tokenTypes ctx).
Proof.
  intros Htype Hinv. pose proof (inv_length _ Hinv) as Hlen.
  assert (Hgen : ∀ k, k ≤ length (m_tokens ctx) →
    ∃ sc, forEachO (scoreStep type) (seq 0 k) (mkScoring 0 [] [] None, ctx)
          = Done (sc, ctx)
      ∧ streetSynonymMark sc = None).
  { induction k as [|k IH]; intros Hk; [by eexists|].
    destruct IH as (sc & Hrun & Hnone); [lia|].
    rewrite seq_S, forEachO_app, Hrun. simpl.
    destruct (lookup_lt_is_Some_2 (m_tokenTypes ctx) k) as [t Ht]; [lia|].
    unfold GetTokenType. rewrite decide_True by lia. rewrite Ht. simpl.
    rewrite (bool_decide_eq_false_2 (type = Street)) by done. simpl.
    destruct (bool_decide (t ≠ Count)); eexists; split; try reflexivity; done. }
  destruct (Hgen (length (m_tokens ctx))) as (sc & Hrun & Hnone); [done|].
  exists sc. split; [exact Hrun|]. split; [done|].
  destruct (scoreTokens_spec type ctx Hinv) as (sc' & c' & Hrun' & Hcert & _).
  unfold scoreTokens, GetNumTokens in Hrun'. rewrite Hrun in Hrun'.
  injection Hrun' as -> _. done.
Qed.

(** ** The log of a search *)

Lemma bindO_inv {A B} (m : Outcome A) (k : A → Outcome B) (b : B) :
  m ≫= k = Done b → ∃ a, m = Done a ∧ k a = Done b.
Proof. destruct m; simpl; intros H; try discriminate. eauto. Qed.

Lemma extendsTypes_refl (types : list GeoType) : extendsTypes types types.
Proof.
  apply Forall2_same_length_lookup. split; [done|].
  intros k a b Ha Hb. right. congruence.
Qed.

Lemma extendsTypes_trans (t1 t2 t3 : list GeoType) :
  extendsTypes t1 t2 → extendsTypes t2 t3 → extendsTypes t1 t3.
Proof.
  intros H12 H23. apply Forall2_same_length_lookup.
  apply Forall2_same_length_lookup in H12 as [L12 H12].
  apply Forall2_same_length_lookup in H23 as [L23 H23].
  split; [congruence|]. intros k a c Ha Hc.
  destruct (lookup_lt_is_Some_2 t2 k) as [b Hb].
  { apply lookup_lt_Some in Ha. lia. }
  destruct (H12 k a b Ha Hb) as [->| ->]; [by left|]. by apply (H23 k).
Qed.

Lemma extendsTypes_free (types0 types : list GeoType) (k : nat) :
  extendsTypes types0 types → types !! k = Some Count →
  types0 !! k = Some Count.
Proof.
  intros Hext Hk.
  destruct (Forall2_lookup_r _ _ _ _ _ Hext Hk) as (a & Ha & [->| ->]); done.
Qed.

Lemma extendsTypes_insert (types0 types : list GeoType) (k : nat) (t : GeoType) :
  extendsTypes types0 types → types0 !! k = Some Count →
  extendsTypes types0 (<[k := t]> types).
Proof.
  intros Hext Hk. apply Forall2_same_length_lookup.
  apply Forall2_same_length_lookup in Hext as [Hlen Hext].
  split; [by rewrite length_insert|]. intros i a b Ha Hb.
  destruct (decide (k = i)) as [->|Hne].
  - left. congruence.
  - rewrite list_lookup_insert_ne in Hb by done. by apply (Hext i).
Qed.

Lemma eventTraced_weaken (t0 t1 : list GeoType) (ev : Event) :
  extendsTypes t0 t1 → eventTraced t1 ev → eventTraced t0 ev.
Proof.
  intros Hext. destruct ev as [tys k|key c]; simpl.
  - by apply extendsTypes_trans.
  - intros (type & tys & d & H1 & H2). exists type, tys, d.
    split; [by eapply extendsTypes_trans|done].
Qed.

Lemma TracedAt_refl (t0 : list GeoType) (n : nat) (ctx : Context) :
  TracedAt t0 n ctx ctx.
Proof. split; [exists []; by rewrite app_nil_r|by left]. Qed.

Lemma TracedAt_trans (t0 : list GeoType) (n : nat) (c1 c2 c3 : Context) :
  TracedAt t0 n c1 c2 → TracedAt t0 n c2 c3 → TracedAt t0 n c1 c3.
Proof.
  intros [(e1 & He1 & Hok1) Hh1] [(e2 & He2 & Hok2) Hh2]. split.
  - exists (e1 ++ e2). split; [by rewrite He2, He1, app_assoc|].
    by apply Forall_app.
  - intros k Hk. destruct (Hh2 k Hk) as [H|H]; [by apply Hh1|by right].
Qed.

Lemma TracedAt_weaken (t0 t1 : list GeoType) (n : nat) (c1 c2 : Context) :
  extendsTypes t0 t1 → TracedAt t1 n c1 c2 → TracedAt t0 n c1 c2.
Proof.
  intros Hext [(evs & He & Hok) Hh]. split; [|done].
  exists evs. split; [done|]. eapply Forall_impl; [exact Hok|].
  intros ev. by apply eventTraced_weaken.
Qed.

(** A step that logs nothing and leaves the house-number positions. *)
Lemma TracedAt_silent (t0 : list GeoType) (n : nat) (c1 c2 : Context) :
  g_events c2 = g_events c1 →
  m_houseNumberPositionsInQuery c2 = m_houseNumberPositionsInQuery c1 →
  TracedAt t0 n c1 c2.
Proof.
  intros He Hh. split; [exists []; by rewrite app_nil_r|].
  intros k Hk. left. by rewrite <- Hh.
Qed.

Lemma markEach_traced (t0 : list GeoType) (n : nat) (type : GeoType)
    (ids : list nat) (ctx ctx' : Context) :
  forEachO (λ i c, MarkToken i type c) ids ctx = Done ctx' →
  Forall (λ i, t0 !! i = Some Count) ids →
  extendsTypes t0 (m_tokenTypes ctx) →
  TracedAt t0 n ctx ctx' ∧ extendsTypes t0 (m_tokenTypes ctx').
Proof.
  revert ctx. induction ids as [|i ids IH]; intros ctx Hrun Hfree Hext.
  - simpl in Hrun. injection Hrun as <-. split; [apply TracedAt_refl|done].
  - simpl in Hrun. apply bindO_inv in Hrun as (c1 & H1 & H2).
    inversion Hfree as [|? ? Hi Hrest]; subst.
    apply MarkToken_effect in H1 as (_ & _ & Hty & _ & _ & Hhn & Hev).
    assert (Hext1 : extendsTypes t0 (m_tokenTypes c1)).
    { rewrite Hty. by apply extendsTypes_insert. }
    destruct (IH c1 H2 Hrest Hext1) as [Htr Hext'].
    split; [|done]. eapply TracedAt_trans; [|exact Htr]. split.
    + eexists [_]. split; [exact Hev|]. by constructor.
    + intros k Hk. left. by rewrite <- Hhn.
Qed.

Lemma MarkRange_traced (t0 : list GeoType) (n : nat) (type : GeoType)
    (l r : nat) (ctx ctx' : Context) :
  MarkRange type l r ctx = Done ctx' →
  (∀ k, l ≤ k < r → t0 !! k = Some Count) →
  extendsTypes t0 (m_tokenTypes ctx) →
  TracedAt t0 n ctx ctx' ∧ extendsTypes t0 (m_tokenTypes ctx').
Proof.
  intros Hrun Hfree Hext. eapply markEach_traced; [exact Hrun| |done].
  apply Forall_forall. intros i Hi. apply elem_of_seq in Hi. apply Hfree. lia.
Qed.

Lemma ScopedMarkTokens_ctor_run (type : GeoType) (l r : nat) (ctx ctx' : Context) :
  ScopedMarkTokens_ctor type l r ctx = Done ctx' →
  MarkRange type l r ctx = Done ctx'.
Proof.
  unfold ScopedMarkTokens_ctor. destruct (decide _); [|done].
  by destruct (decide _).
Qed.

Lemma scoreTokens_traced (t0 : list GeoType) (n : nat) (type : GeoType)
    (ctx ctx' : Context) (sc : Scoring) :
  scoreTokens type ctx = Done (sc, ctx') →
  extendsTypes t0 (m_tokenTypes ctx) →
  TracedAt t0 n ctx ctx' ∧ extendsTypes t0 (m_tokenTypes ctx').
Proof.
  unfold scoreTokens. generalize (mkScoring 0 [] [] None).
  generalize (seq 0 (GetNumTokens ctx)). intros ks. revert ctx.
  induction ks as [|k ks IH]; intros ctx sc0 Hrun Hext.
  - simpl in Hrun. injection Hrun as _ <-. split; [apply TracedAt_refl|done].
  - simpl in Hrun. apply bindO_inv in Hrun as ([sc1 c1] & Hstep & Hrest).
    assert (Hone : TracedAt t0 n ctx c1 ∧ extendsTypes t0 (m_tokenTypes c1)).
    { unfold scoreStep in Hstep.
      apply bindO_inv in Hstep as (t & Ht & Hstep).
      apply bindO_inv in Hstep as ([mk c1'] & Hsyn & Hfin).
      assert (c1' = c1) as ->.
      { destruct (bool_decide (t ≠ Count)); by injection Hfin as _ <-. }
      clear Hfin.
      unfold GetTokenType in Ht. destruct (decide _); [|done].
      destruct (m_tokenTypes ctx !! k) as [t'|] eqn:Hk; [|done].
      injection Ht as ->.
      destruct (bool_decide (type = Street) && bool_decide (t = Count)
                && bool_decide (streetSynonymMark sc0 = None)) eqn:Hcond.
      2:{ injection Hsyn as _ <-. split; [apply TracedAt_refl|done]. }
      apply andb_true_iff in Hcond as [Hcond _].
      apply andb_true_iff in Hcond as [_ Hcount].
      apply bool_decide_eq_true in Hcount. subst t.
      apply bindO_inv in Hsyn as (tok & _ & Hsyn).
      destruct (IsStreetSynonym tok).
      2:{ injection Hsyn as _ <-. split; [apply TracedAt_refl|done]. }
      apply bindO_inv in Hsyn as (c2 & Hctor & Hsyn). injection Hsyn as _ <-.
      apply ScopedMarkTokens_ctor_run in Hctor.
      eapply MarkRange_traced; [exact Hctor| |done].
      intros i Hi. assert (i = k) as -> by lia.
      by eapply extendsTypes_free. }
    destruct Hone as [Htr1 Hext1].
    destruct (IH c1 sc1 Hrest Hext1) as [Htr Hext'].
    split; [|done]. by eapply TracedAt_trans.
Qed.

Lemma addResults_houseNumbers (type : GeoType) (sc : Scoring)
    (entries : list DocId) (ctx : Context) :
  m_houseNumberPositionsInQuery (addResults type sc entries ctx)
  = m_houseNumberPositionsInQuery ctx.
Proof.
  unfold addResults. revert ctx.
  induction entries as [|d ds IH]; intros ctx; simpl; [done|]. by rewrite IH.
Qed.

Lemma FillBuildingsLayer_houseNumbers (ctx : Context) (subquery : Tokens)
    (subqueryTokenIds : list nat) (curLayer : Layer.t) :
  let ctx' := snd (FillBuildingsLayer ctx subquery subqueryTokenIds curLayer) in
  g_events ctx' = g_events ctx
  ∧ ∀ k, k ∈ m_houseNumberPositionsInQuery ctx' →
         k ∈ m_houseNumberPositionsInQuery ctx ∨ k ∈ subqueryTokenIds.
Proof.
  unfold FillBuildingsLayer.
  destruct (bool_decide (m_layers ctx = [])); [by split; [|left]|].
  destruct (negb _); [by split; [|left]|].
  rewrite FillBuildingsLayer_fold. simpl.
  destruct (bool_decide (Exists _ _)); [|by split; [|left]].
  split; [done|]. simpl. intros k Hk. apply elem_of_union in Hk as [Hk|Hk].
  - by left.
  - right. by apply elem_of_list_to_set in Hk.
Qed.

Lemma GoFrame_traced (go : GeoType → Context → Outcome Context) (type : GeoType)
    (i j : nat) (curLayer : Layer.t) (ctx ctx' : Context) :
  type ≠ Count →
  (∀ next, NextType type = Done next → GoOk next (go next)) →
  (∀ next, NextType type = Done next → GoTraced (go next)) →
  ContextInv ctx → i ≤ j → j < length (m_tokens ctx) →
  (∀ k, i ≤ k ≤ j → m_tokenTypes ctx !! k = Some Count) →
  (type ≠ Building →
   Forall (λ d, Entry.m_type (Index.GetDoc m_index d) = type)
     (Layer.m_entries curLayer)) →
  GoFrame go type i j curLayer ctx = Done ctx' →
  TracedAt (m_tokenTypes ctx) (length (m_tokens ctx)) ctx ctx'.
Proof.
  intros Htype Hgo Htr Hinv Hij Hj Hfree Hdocs Hrun.
  set (t0 := m_tokenTypes ctx). set (n := length (m_tokens ctx)).
  pose proof (inv_length _ Hinv) as Hlen.
  unfold GoFrame in Hrun.
  apply bindO_inv in Hrun as (c1 & Hctor & Hrun).
  apply bindO_inv in Hrun as ([sc c2] & Hscore & Hrun).
  apply bindO_inv in Hrun as (next & Hnext & Hrun).
  apply bindO_inv in Hrun as (c5 & Hdesc & Hrun).
  apply bindO_inv in Hrun as (layers & Hpop & Hrun).
  apply bindO_inv in Hrun as (c7 & Hsyn & Hdtor).
  destruct (ScopedMarkTokens_ctor_spec type i (j + 1) ctx)
    as (c1' & Hctor' & Hinv1 & Hev1 & Hty1 & _); [done|lia|lia|].
  rewrite Hctor in Hctor'. injection Hctor' as <-.
  destruct (scoreTokens_spec type c1 Hinv1)
    as (sc' & c2' & Hscore' & Hcert & Hids & Hall & Hmark & Hty2 & Hinv2 & Hev2 & _).
  rewrite Hscore in Hscore'. injection Hscore' as <- <-.
  pose proof (ev_tokens _ _ _ (Hev1 (λ _ _, True))) as Htok1.
  pose proof (ev_tokens _ _ _ (Hev2 (λ _ _, True))) as Htok2.
  (* the marks of the frame *)
  destruct (MarkRange_traced t0 n type i (j + 1) ctx c1) as [Tr1 Ext1].
  { by apply ScopedMarkTokens_ctor_run. }
  { intros k Hk. apply Hfree. lia. }
  { apply extendsTypes_refl. }
  destruct (scoreTokens_traced t0 n type c1 c2 sc Hscore Ext1) as [Tr2 Ext2].
  (* the results of the frame *)
  set (c3 := addResults type sc (Layer.m_entries curLayer) c2) in *.
  assert (Tr3 : TracedAt t0 n c2 c3).
  { split.
    - eexists. split; [apply addResults_events|].
      apply Forall_fmap, Forall_forall. intros d Hd. simpl.
      exists type, (m_tokenTypes c1), d. split_and!; try done.
      + apply list_elem_of_lookup. exists i.
        rewrite Hty1, lookup_setRange. rewrite decide_True; [done|lia].
      + unfold frameKey. by rewrite Hids, Hall.
      + intros Hb. by apply (proj1 (Forall_forall _ _) (Hdocs Hb)).
    - intros k Hk. left. unfold c3 in Hk.
      by rewrite addResults_houseNumbers in Hk. }
  set (c4 := set_layers (m_layers c3 ++ [curLayer]) c3) in *.
  assert (Hfields3 : m_tokens c3 = m_tokens c2
                     ∧ m_tokenTypes c3 = m_tokenTypes c2
                     ∧ m_numUsedTokens c3 = m_numUsedTokens c2).
  { destruct (addResults_spec (λ _ _, True) type sc (Layer.m_entries curLayer) c2)
      as (He3 & Hty3 & Hn3 & _); [done|].
    split_and!; try done. apply (ev_tokens _ _ _ He3). }
  destruct Hfields3 as (Htok3 & Hty3 & Hn3).
  assert (Hinv4 : ContextInv c4).
  { by apply (ContextInv_ext c2). }
  assert (Tr5 : TracedAt t0 n c4 c5).
  { apply (TracedAt_weaken t0 (m_tokenTypes c4)).
    - subst c4. simpl. by rewrite Hty3.
    - replace n with (length (m_tokens c4)).
      + by apply (Htr next Hnext).
      + subst c4 n. simpl. by rewrite Htok3, Htok2, Htok1. }
  destruct (Hgo next Hnext c4 Hinv4) as (c5' & Hdesc' & Hr5).
  rewrite Hdesc in Hdesc'. injection Hdesc' as <-.
  set (c6 := set_layers layers c5) in *.
  assert (Hty6 : m_tokenTypes c6 = m_tokenTypes c2).
  { subst c6 c4. simpl. rewrite (rs_tokenTypes _ _ _ Hr5). simpl. done. }
  assert (Ext6 : extendsTypes t0 (m_tokenTypes c6)) by (by rewrite Hty6).
  assert (Tr7 : TracedAt t0 n c6 c7 ∧ extendsTypes t0 (m_tokenTypes c7)).
  { destruct (streetSynonymMark sc) as [[p r]|] eqn:Hsm.
    - symmetry in Hmark.
      destruct (typesAfter_undo _ _ _ _ _ _ Hmark) as (-> & Hp & _).
      unfold markAfter in Hmark.
      destruct (bool_decide (type = Street)); [|done].
      destruct (firstFreeSynonym _ _ _) as [q|] eqn:Hq; [|done].
      simpl in Hmark. injection Hmark as ->.
      apply firstFreeSynonym_Some in Hq as [_ Hq].
      apply isFreeSynonym_free in Hq.
      eapply MarkRange_traced; [exact Hsyn| |done].
      intros k Hk. assert (k = p) as -> by lia.
      exact (extendsTypes_free t0 (m_tokenTypes c1) p Ext1 Hq).
    - injection Hsyn as <-. split; [apply TracedAt_refl|done]. }
  destruct Tr7 as [Tr7 Ext7].
  destruct (MarkRange_traced t0 n Count i (j + 1) c7 ctx') as [Tr8 _];
    [done| |done|].
  { intros k Hk. apply Hfree. lia. }
  eapply TracedAt_trans; [exact Tr1|].
  eapply TracedAt_trans; [exact Tr2|].
  eapply TracedAt_trans; [exact Tr3|].
  eapply TracedAt_trans; [by apply (TracedAt_silent t0 n c3 c4)|].
  eapply TracedAt_trans; [exact Tr5|].
  eapply TracedAt_trans; [by apply (TracedAt_silent t0 n c5 c6)|].
  eapply TracedAt_trans; [exact Tr7|exact Tr8].
Qed.

Lemma GoInner_traced (go : GeoType → Context → Outcome Context) (type : GeoType)
    (i n j : nat) (subquery : Tokens) (subqueryTokenIds : list nat)
    (ctx ctx' : Context) :
  type ≠ Count →
  (∀ next, NextType type = Done next → GoOk next (go next)) →
  (∀ next, NextType type = Done next → GoTraced (go next)) →
  ContextInv ctx → i ≤ j → j + n = length (m_tokens ctx) →
  (∀ k, i ≤ k < j → m_tokenTypes ctx !! k = Some Count) →
  Forall (λ k, k < length (m_tokens ctx)) subqueryTokenIds →
  GoInner go type i (seq j n) subquery subqueryTokenIds ctx = Done ctx' →
  TracedAt (m_tokenTypes ctx) (length (m_tokens ctx)) ctx ctx'.
Proof.
  intros Htype Hgo Htr. revert j subquery subqueryTokenIds ctx.
  induction n as [|n IH]; intros j subquery ids ctx Hinv Hij Hn Hfree Hids Hrun;
    cbn [seq GoInner] in Hrun.
  - injection Hrun as <-. apply TracedAt_refl.
  - pose proof (inv_length _ Hinv) as Hlen.
    apply bindO_inv in Hrun as (used & Hused & Hrun).
    destruct used; [injection Hrun as <-; apply TracedAt_refl|].
    apply bindO_inv in Hrun as (tok & Htok & Hrun).
    apply bindO_inv in Hrun as ([cur c1] & Hlayer & Hrun).
    assert (Hj : m_tokenTypes ctx !! j = Some Count).
    { unfold IsTokenUsed in Hused. destruct (decide _); [|done].
      destruct (m_tokenTypes ctx !! j) as [t|]; [|done].
      injection Hused as Hused. apply bool_decide_eq_false in Hused.
      f_equal. by apply dec_stable. }
    assert (Hids' : Forall (λ k, k < length (m_tokens ctx)) (ids ++ [j])).
    { apply Forall_app. split; [done|]. constructor; [lia|done]. }
    assert (Hstep : Restored type ctx c1
                    ∧ TracedAt (m_tokenTypes ctx) (length (m_tokens ctx)) ctx c1
                    ∧ (type ≠ Building →
                       Forall (λ d, Entry.m_type (Index.GetDoc m_index d) = type)
                         (Layer.m_entries cur))).
    { destruct (bool_decide (type = Building)) eqn:Hb.
      - apply bool_decide_eq_true in Hb. injection Hlayer as Hlayer.
        destruct (FillBuildingsLayer_context ctx (subquery ++ [tok]) (ids ++ [j])
                    (Layer.mk type [])) as (s & Hs & Hsnd).
        destruct (FillBuildingsLayer_houseNumbers ctx (subquery ++ [tok])
                    (ids ++ [j]) (Layer.mk type [])) as (Hev & Hhn).
        rewrite Hlayer in Hsnd, Hev, Hhn. simpl in Hsnd, Hev, Hhn.
        split_and!; [|split|done].
        + rewrite Hsnd. by apply set_houseNumberPositions_Restored.
        + exists []. by rewrite app_nil_r.
        + intros k Hk. destruct (Hhn k Hk) as [H|H]; [by left|right].
          by apply (proj1 (Forall_forall _ _) Hids').
      - rewrite FillRegularLayer_spec in Hlayer. simpl in Hlayer.
        injection Hlayer as <- <-. split_and!.
        + apply Restored_refl.
        + apply TracedAt_refl.
        + intros _. simpl. apply Forall_forall. intros d Hd.
          apply list_elem_of_filter in Hd as [Hacc _].
          unfold acceptsDoc in Hacc. apply andb_true_iff in Hacc as [Hty _].
          by apply bool_decide_eq_true in Hty. }
    destruct Hstep as (Hr1 & Tr1 & Hdocs).
    pose proof (Restored_inv _ _ _ Hr1 Hinv) as Hinv1.
    pose proof (rs_tokenTypes _ _ _ Hr1) as Hty1.
    pose proof (ev_tokens _ _ _ (rs_evolves _ _ _ Hr1)) as Htok1.
    assert (Hfree1 : ∀ k, i ≤ k < S j → m_tokenTypes c1 !! k = Some Count).
    { intros k Hk. rewrite Hty1. destruct (decide (k = j)) as [->|]; [done|].
      apply Hfree. lia. }
    destruct (bool_decide (Layer.m_entries cur = [])).
    + eapply TracedAt_trans; [exact Tr1|].
      rewrite <- Hty1, <- Htok1.
      apply (IH (S j) (subquery ++ [tok]) (ids ++ [j]) c1); try done; try lia.
      * rewrite Htok1. lia.
      * by rewrite Htok1.
    + apply bindO_inv in Hrun as (c2 & Hframe & Hrun).
      destruct (GoFrame_spec go type i j cur c1) as (c2' & Hframe' & Hr2 & _);
        [done|done|done|lia|rewrite Htok1; lia| |].
      { intros k Hk. apply Hfree1. lia. }
      rewrite Hframe in Hframe'. injection Hframe' as <-.
      pose proof (Restored_inv _ _ _ Hr2 Hinv1) as Hinv2.
      pose proof (rs_tokenTypes _ _ _ Hr2) as Hty2.
      pose proof (ev_tokens _ _ _ (rs_evolves _ _ _ Hr2)) as Htok2.
      eapply TracedAt_trans; [exact Tr1|].
      eapply TracedAt_trans.
      * rewrite <- Hty1, <- Htok1.
        apply (GoFrame_traced go type i j cur c1 c2); try done; try lia.
        -- rewrite Htok1. lia.
        -- intros k Hk. apply Hfree1. lia.
      * rewrite <- Hty1, <- Hty2, <- Htok1, <- Htok2.
        apply (IH (S j) (subquery ++ [tok]) (ids ++ [j]) c2); try done; try lia.
        -- rewrite Htok2, Htok1. lia.
        -- intros k Hk. rewrite Hty2. by apply Hfree1.
        -- by rewrite Htok2, Htok1.
Qed.

Lemma GoBody_traced (go : GeoType → Context → Outcome Context) (type : GeoType)
    (ctx ctx' : Context) :
  (∀ next, NextType type = Done next → GoOk next (go next)) →
  (∀ next, NextType type = Done next → GoTraced (go next)) →
  ContextInv ctx → GoBody go type ctx = Done ctx' →
  TracedAt (m_tokenTypes ctx) (length (m_tokens ctx)) ctx ctx'.
Proof.
  intros Hgo Htr Hinv Hrun. unfold GoBody in Hrun.
  destruct (bool_decide (GetNumTokens ctx = 0));
    [injection Hrun as <-; apply TracedAt_refl|].
  destruct (AllTokensUsed ctx); [injection Hrun as <-; apply TracedAt_refl|].
  destruct (decide (type = Count)) as [->|Htype];
    [injection Hrun as <-; apply TracedAt_refl|].
  rewrite bool_decide_eq_false_2 in Hrun by done.
  apply bindO_inv in Hrun as (c1 & Houter & Hrun).
  apply bindO_inv in Hrun as (next & Hnext & Hrun).
  assert (Hloop : ∀ is_ c c',
    ContextInv c → m_tokens c = m_tokens ctx →
    m_tokenTypes c = m_tokenTypes ctx →
    Forall (λ i, i ≤ length (m_tokens ctx)) is_ →
    forEachO
      (λ i c0, GoInner go type i (seq i (GetNumTokens c0 - i)) [] [] c0) is_ c
    = Done c' →
    Restored type c c'
    ∧ TracedAt (m_tokenTypes ctx) (length (m_tokens ctx)) c c').
  { induction is_ as [|i is_ IH]; intros c c' Hc Htok Hty Hall Hr.
    - simpl in Hr. injection Hr as <-.
      split; [apply Restored_refl|apply TracedAt_refl].
    - simpl in Hr. apply bindO_inv in Hr as (c2 & Hin & Hr).
      inversion Hall as [|? ? Hi Hrest]; subst.
      destruct (GoInner_spec go type i (GetNumTokens c - i) i [] [] c)
        as (c2' & Hin' & Hr2); try done.
      { unfold GetNumTokens. rewrite Htok. lia. }
      { intros k Hk. lia. }
      rewrite Hin in Hin'. injection Hin' as <-.
      pose proof (GoInner_traced go type i (GetNumTokens c - i) i [] [] c c2
                    Htype Hgo Htr Hc) as Tr2.
      rewrite Htok, Hty in Tr2.
      destruct (IH c2 c') as [Hr3 Tr3]; try done.
      { by eapply Restored_inv. }
      { rewrite <- Htok. apply (ev_tokens _ _ _ (rs_evolves _ _ _ Hr2)). }
      { rewrite <- Hty. apply (rs_tokenTypes _ _ _ Hr2). }
      split; [by eapply Restored_trans|].
      eapply TracedAt_trans; [|exact Tr3]. apply Tr2; try done.
      * unfold GetNumTokens. rewrite Htok. lia.
      * intros k Hk. lia. }
  destruct (Hloop (seq 0 (GetNumTokens ctx)) ctx c1) as [Hr1 Tr1]; try done.
  { apply Forall_forall. intros i Hi. apply elem_of_seq in Hi.
    unfold GetNumTokens in Hi. lia. }
  eapply TracedAt_trans; [exact Tr1|].
  rewrite <- (rs_tokenTypes _ _ _ Hr1).
  rewrite <- (ev_tokens _ _ _ (rs_evolves _ _ _ Hr1)).
  apply (Htr next Hnext); [|done]. by eapply Restored_inv.
Qed.

Lemma Go_traced (fuel : nat) (type : GeoType) (ctx ctx' : Context) :
  9 ≤ fuel + GeoType_to_size type → ContextInv ctx →
  Go fuel type ctx = Done ctx' →
  TracedAt (m_tokenTypes ctx) (length (m_tokens ctx)) ctx ctx'.
Proof.
  revert type ctx ctx'.
  induction fuel as [|fuel IH]; intros type ctx ctx' Hfuel Hinv Hrun.
  - destruct type; simpl in Hfuel; lia.
  - cbn [Go] in Hrun.
    assert (Hnext : ∀ next, NextType type = Done next →
              9 ≤ fuel + GeoType_to_size next).
    { intros next Hn.
      destruct (decide (type = Count)) as [->|Htype]; [done|].
      destruct (NextType_Done type Htype) as (next' & Hn' & Hsize).
      rewrite Hn in Hn'. injection Hn' as <-. lia. }
    apply (GoBody_traced (Go fuel) type ctx ctx'); try done.
    + intros next Hn c Hc. apply Go_spec; [by apply Hnext|done].
    + intros next Hn c c' Hc Hr. apply (IH next); [by apply Hnext|done|done].
Qed.

(** ** The keys of the recorded results *)

Lemma elem_of_recorded (evs : list Event) (key : BeamKey.t) (c : Q) :
  (key, c) ∈ recorded evs ↔ EvAdd key c ∈ evs.
Proof.
  unfold recorded. rewrite list_elem_of_omap. split.
  - intros ([types n|key' c'] & Hin & Heq); [done|].
    injection Heq as -> ->. done.
  - intros Hin. by exists (EvAdd key c).
Qed.

Lemma usedIds_elem (types : list GeoType) (k i : nat) :
  i ∈ usedIds types k ↔ i < k ∧ types !! i ≠ Some Count.
Proof.
  unfold usedIds. rewrite list_elem_of_filter, elem_of_seq. split.
  - intros [H1 H2]. split; [lia|done].
  - intros [H1 H2]. split; [done|lia].
Qed.

Lemma filter_seq_sorted (P : nat → Prop) `{∀ i, Decision (P i)} (a n : nat) :
  StronglySorted lt (filter P (seq a n)).
Proof.
  revert a. induction n as [|n IH]; intros a; simpl; [constructor|].
  rewrite filter_cons. destruct (decide (P a)); [|apply IH].
  constructor; [apply IH|]. apply Forall_forall. intros x Hx.
  apply list_elem_of_filter in Hx as [_ Hx]. apply elem_of_seq in Hx. lia.
Qed.

Lemma usedIds_sorted (types : list GeoType) (k : nat) :
  StronglySorted lt (usedIds types k).
Proof. apply filter_seq_sorted. Qed.

Lemma usedIds_app (types : list GeoType) (t : GeoType) (k : nat) :
  k ≤ length types → usedIds (types ++ [t]) k = usedIds types k.
Proof.
  induction k as [|k IH]; intros Hk; [done|].
  rewrite !usedIds_S, IH by lia. by rewrite lookup_app_l by lia.
Qed.

Lemma usedIds_usedTypes (types : list GeoType) :
  Forall2 (λ k t, types !! k = Some t)
    (usedIds types (length types)) (usedTypes types).
Proof.
  induction types as [|x l IH] using rev_ind; [constructor|].
  rewrite length_app. simpl. rewrite Nat.add_1_r.
  rewrite usedIds_S, usedIds_app, usedTypes_snoc by done.
  apply Forall2_app.
  - eapply Forall2_impl; [exact IH|]. intros k t Hk. simpl in Hk.
    rewrite lookup_app_l; [done|]. by eapply lookup_lt_Some.
  - rewrite list_lookup_middle by done.
    destruct (decide (x ≠ Count)) as [Hx|Hx].
    + rewrite decide_True by congruence. constructor; [|constructor].
      by rewrite list_lookup_middle.
    + rewrite decide_False; [constructor|].
      intros H'. apply Hx. intros ->. by apply H'.
Qed.

Lemma usedTypes_elem (types : list GeoType) (t : GeoType) :
  t ∈ usedTypes types ↔ t ≠ Count ∧ t ∈ types.
Proof. unfold usedTypes. by rewrite list_elem_of_filter. Qed.

Lemma sumWeights_usedTypes (types : list GeoType) :
  (sumWeights (usedTypes types) == sumWeights types)%Q.
Proof.
  induction types as [|t l IH]; [reflexivity|].
  unfold usedTypes in *. rewrite filter_cons.
  destruct (decide (t ≠ Count)) as [Ht|Ht].
  - rewrite !sumWeights_cons, IH. reflexivity.
  - assert (t = Count) as -> by (by apply dec_stable).
    rewrite sumWeights_cons, IH. simpl. lra.
Qed.

Lemma sumWeights_le (types : list GeoType) :
  (sumWeights types <= 10 * inject_Z (Z.of_nat (length (usedTypes types))))%Q.
Proof.
  induction types as [|t l IH].
  - by vm_compute.
  - rewrite sumWeights_cons. unfold usedTypes in *. rewrite filter_cons.
    destruct (decide (t ≠ Count)) as [Ht|Ht].
    + cbn [length]. rewrite Nat2Z.inj_succ, <- Z.add_1_r, inject_Z_plus.
      assert (GetWeight t <= 10)%Q
        by (destruct t; simpl; unfold Qle; simpl; lia).
      change (inject_Z 1) with 1%Q. lra.
    + assert (t = Count) as -> by (by apply dec_stable). simpl. lra.
Qed.

Lemma Go_trace (fuel : nat) (type : GeoType) (ctx : Context) :
  9 ≤ fuel + GeoType_to_size type → ContextInv ctx →
  ∃ ctx' evs,
    Go fuel type ctx = Done ctx'
    ∧ g_events ctx' = g_events ctx ++ evs
    ∧ Forall (eventTraced (m_tokenTypes ctx)) evs
    ∧ ∀ k, k ∈ m_houseNumberPositionsInQuery ctx' →
        k ∈ m_houseNumberPositionsInQuery ctx ∨ k < length (m_tokens ctx).
Proof.
  intros Hfuel Hinv.
  destruct (Go_spec fuel type ctx Hfuel Hinv) as (ctx' & Hrun & _).
  destruct (Go_traced fuel type ctx ctx' Hfuel Hinv Hrun)
    as [(evs & Hevs & Hall) Hhn].
  by exists ctx', evs.
Qed.

Lemma frameRecord_types (types0 : list GeoType) (key : BeamKey.t) (c : Q) :
  frameRecord types0 key c →
  ∃ types docId,
    extendsTypes types0 types
    ∧ BeamKey.m_type key ≠ Count
    ∧ BeamKey.m_type key ∈ types
    ∧ BeamKey.m_osmId key = Entry.m_osmId (Index.GetDoc m_index docId)
    ∧ BeamKey.m_tokenIds key = usedIds types (length types)
    ∧ BeamKey.m_allTypes key = usedTypes types
    ∧ c = sumWeights types
    ∧ (BeamKey.m_type key ≠ Building →
       Entry.m_type (Index.GetDoc m_index docId) = BeamKey.m_type key).
Proof.
  intros (type & types & docId & Hext & Hty & Hin & -> & -> & Hdoc).
  by exists types, docId.
Qed.

(** X11.  [Go] marks only tokens that had no type when it was entered: it
    returns, and in every state that a [MarkToken] call of the run leaves,
    the token-type vector has its length unchanged and every position that
    was assigned at entry still holds its type. *)
Theorem Go_marks_unassigned_only (fuel : nat) (type : GeoType) (ctx : Context) :
  9 ≤ fuel + GeoType_to_size type → ContextInv ctx →
  ∃ ctx' evs,
    Go fuel type ctx = Done ctx'
    ∧ g_events ctx' = g_events ctx ++ evs
    ∧ ∀ types numUsed, EvMark types numUsed ∈ evs →
        length types = length (m_tokens ctx)
        ∧ ∀ k t, m_tokenTypes ctx !! k = Some t → t ≠ Count →
            types !! k = Some t.
Proof.
  intros Hfuel Hinv.
  destruct (Go_trace fuel type ctx Hfuel Hinv)
    as (ctx' & evs & Hrun & Hevs & Hall & _).
  exists ctx', evs. split; [done|]. split; [done|].
  intros types numUsed Hin.
  pose proof (proj1 (Forall_forall _ _) Hall _ Hin) as Hext. simpl in Hext.
  split.
  - rewrite <- (Forall2_length _ _ _ Hext). apply (inv_length _ Hinv).
  - intros k t Hk Ht.
    destruct (Forall2_lookup_l _ _ _ _ _ Hext Hk) as (b & Hb & [->| ->]); done.
Qed.

(** X12.  The key of every result recorded during [Go]: its token ids are
    strictly ascending indices of query tokens, its type list runs parallel
    to them and holds no [Count], the level of the key occurs in it, and
    every token that was assigned when [Go] was entered is listed with its
    type. *)
Theorem Go_records_keys (fuel : nat) (type : GeoType) (ctx : Context) :
  9 ≤ fuel + GeoType_to_size type → ContextInv ctx →
  ∃ ctx' evs,
    Go fuel type ctx = Done ctx'
    ∧ g_events ctx' = g_events ctx ++ evs
    ∧ ∀ key c, (key, c) ∈ recorded evs →
        StronglySorted lt (BeamKey.m_tokenIds key)
        ∧ Forall (λ k, k < length (m_tokens ctx)) (BeamKey.m_tokenIds key)
        ∧ length (BeamKey.m_tokenIds key) = length (BeamKey.m_allTypes key)
        ∧ (Count ∉ BeamKey.m_allTypes key)
        ∧ BeamKey.m_type key ∈ BeamKey.m_allTypes key
        ∧ ∀ k t, m_tokenTypes ctx !! k = Some t → t ≠ Count →
            ∃ idx, BeamKey.m_tokenIds key !! idx = Some k
                   ∧ BeamKey.m_allTypes key !! idx = Some t.
Proof.
  intros Hfuel Hinv.
  destruct (Go_trace fuel type ctx Hfuel Hinv)
    as (ctx' & evs & Hrun & Hevs & Hall & _).
  exists ctx', evs. split; [done|]. split; [done|].
  intros key c Hin. apply elem_of_recorded in Hin.
  pose proof (proj1 (Forall_forall _ _) Hall _ Hin) as Hrec. simpl in Hrec.
  apply frameRecord_types in Hrec
    as (types & docId & Hext & Hty & Htin & _ & -> & -> & _).
  assert (Hlen : length types = length (m_tokens ctx)).
  { rewrite <- (Forall2_length _ _ _ Hext). apply (inv_length _ Hinv). }
  pose proof (usedIds_usedTypes types) as Hpar.
  split_and!.
  - apply usedIds_sorted.
  - apply Forall_forall. intros k Hk. apply usedIds_elem in Hk. lia.
  - apply (Forall2_length _ _ _ Hpar).
  - intros Hc. by apply usedTypes_elem in Hc as [Hc _].
  - by apply usedTypes_elem.
  - intros k t Hk Ht.
    assert (Hk' : types !! k = Some t).
    { destruct (Forall2_lookup_l _ _ _ _ _ Hext Hk) as (b & Hb & [->| ->]); done. }
    assert (Hin' : k ∈ usedIds types (length types)).
    { apply usedIds_elem. split; [by eapply lookup_lt_Some|].
      rewrite Hk'. intros [= ->]. done. }
    apply list_elem_of_lookup in Hin' as (idx & Hidx). exists idx.
    split; [done|].
    destruct (Forall2_lookup_l _ _ _ _ _ Hpar Hidx) as (t' & Ht' & Hkt).
    simpl in Hkt. rewrite Hk' in Hkt. by injection Hkt as <-.
Qed.

(** X13.  The certainty of every result recorded during [Go] is the sum of
    the weights of the types in its key.  It is at least the weight of the
    key's own level, hence positive, and at most ten times the number of
    the key's tokens. *)
Theorem Go_records_certainty (fuel : nat) (type : GeoType) (ctx : Context) :
  9 ≤ fuel + GeoType_to_size type → ContextInv ctx →
  ∃ ctx' evs,
    Go fuel type ctx = Done ctx'
    ∧ g_events ctx' = g_events ctx ++ evs
    ∧ ∀ key c, (key, c) ∈ recorded evs →
        (c == sumWeights (BeamKey.m_allTypes key))%Q
        ∧ (0 < GetWeight (BeamKey.m_type key))%Q
        ∧ (GetWeight (BeamKey.m_type key) <= c)%Q
        ∧ (c <= 10 * inject_Z (Z.of_nat (length (BeamKey.m_tokenIds key))))%Q.
Proof.
  intros Hfuel Hinv.
  destruct (Go_trace fuel type ctx Hfuel Hinv)
    as (ctx' & evs & Hrun & Hevs & Hall & _).
  exists ctx', evs. split; [done|]. split; [done|].
  intros key c Hin. apply elem_of_recorded in Hin.
  pose proof (proj1 (Forall_forall _ _) Hall _ Hin) as Hrec. simpl in Hrec.
  apply frameRecord_types in Hrec
    as (types & docId & Hext & Hty & Htin & _ & Hids & Hat & -> & _).
  rewrite Hids, Hat. split_and!.
  - by rewrite sumWeights_usedTypes.
  - by apply GetWeight_pos.
  - apply list_elem_of_lookup in Htin as (i & Hi).
    by apply (sumWeights_lookup types i).
  - rewrite (Forall2_length _ _ _ (usedIds_usedTypes types)).
    apply sumWeights_le.
Qed.

(** X14.  Every result recorded during [Go] carries the OSM id of a
    document of the index, and for a level other than Building that
    document is of the level of the key. *)
Theorem Go_records_documents (fuel : nat) (type : GeoType) (ctx : Context) :
  9 ≤ fuel + GeoType_to_size type → ContextInv ctx →
  ∃ ctx' evs,
    Go fuel type ctx = Done ctx'
    ∧ g_events ctx' = g_events ctx ++ evs
    ∧ ∀ key c, (key, c) ∈ recorded evs →
        ∃ docId,
          BeamKey.m_osmId key = Entry.m_osmId (Index.GetDoc m_index docId)
          ∧ (BeamKey.m_type key ≠ Building →
             Entry.m_type (Index.GetDoc m_index docId) = BeamKey.m_type key).
Proof.
  intros Hfuel Hinv.
  destruct (Go_trace fuel type ctx Hfuel Hinv)
    as (ctx' & evs & Hrun & Hevs & Hall & _).
  exists ctx', evs. split; [done|]. split; [done|].
  intros key c Hin. apply elem_of_recorded in Hin.
  pose proof (proj1 (Forall_forall _ _) Hall _ Hin) as Hrec. simpl in Hrec.
  apply frameRecord_types in Hrec
    as (types & docId & _ & _ & _ & Hosm & _ & _ & _ & Hdoc).
  by exists docId.
Qed.

(** X15.  The positions that [Go] notes as potential house numbers are
    indices of query tokens: when those noted at entry are, so are those
    noted at return. *)
Theorem Go_house_number_positions_in_range (fuel : nat) (type : GeoType)
    (ctx : Context) :
  9 ≤ fuel + GeoType_to_size type → ContextInv ctx →
  (∀ k, k ∈ m_houseNumberPositionsInQuery ctx → k < length (m_tokens ctx)) →
  ∃ ctx',
    Go fuel type ctx = Done ctx'
    ∧ ∀ k, k ∈ m_houseNumberPositionsInQuery ctx' → k < length (m_tokens ctx').
Proof.
  intros Hfuel Hinv Hin.
  destruct (Go_spec fuel type ctx Hfuel Hinv) as (ctx' & Hrun & Hr).
  destruct (Go_traced fuel type ctx ctx' Hfuel Hinv Hrun) as [_ Hhn].
  exists ctx'. split; [done|]. intros k Hk.
  rewrite (ev_tokens _ _ _ (rs_evolves _ _ _ Hr)).
  destruct (Hhn k Hk) as [H|H]; [by apply Hin|done].
Qed.

(** ** Lookups that find nothing, and lookups that find a document *)

Lemma forEachO_idle {A S} (body : A → S → Outcome S) (xs : list A) (s : S) :
  (∀ x, x ∈ xs → body x s = Done s) → forEachO body xs s = Done s.
Proof.
  induction xs as [|x xs IH]; simpl; intros Hbody; [done|].
  rewrite Hbody by left. simpl. apply IH. intros y Hy. apply Hbody. by right.
Qed.

Lemma filter_none {A} (P : A → Prop) `{!∀ x, Decision (P x)} (l : list A) :
  (∀ x, x ∈ l → ¬ P x) → filter P l = [].
Proof.
  intros Hnone. destruct (filter P l) as [|x xs] eqn:Hf; [done|].
  assert (Hx : x ∈ filter P l) by (rewrite Hf; left).
  apply list_elem_of_filter in Hx as [Hp Hx]. by destruct (Hnone x Hx).
Qed.

Lemma GoInner_idle (go : GeoType → Context → Outcome Context) (type : GeoType)
    (i n j : nat) (subquery : Tokens) (subqueryTokenIds : list nat)
    (ctx : Context) :
  ContextInv ctx → j + n = length (m_tokens ctx) → m_layers ctx = [] →
  (∀ sub d, d ∈ Index.ForEachDocId m_index sub →
     Entry.m_type (Index.GetDoc m_index d) ≠ type) →
  GoInner go type i (seq j n) subquery subqueryTokenIds ctx = Done ctx.
Proof.
  intros Hinv. revert j subquery subqueryTokenIds.
  induction n as [|n IH]; intros j subquery ids Hn Hl Hnone; cbn [seq GoInner];
    [done|].
  pose proof (inv_length _ Hinv) as Hlen.
  destruct (lookup_lt_is_Some_2 (m_tokenTypes ctx) j) as [t Ht]; [lia|].
  destruct (lookup_lt_is_Some_2 (m_tokens ctx) j) as [tok Htk]; [lia|].
  unfold IsTokenUsed, GetToken. rewrite Ht, Htk.
  destruct (decide (j < length (m_tokens ctx))) as [_|]; [|lia].
  cbn. destruct (bool_decide (t ≠ Count)); [done|].
  destruct (bool_decide (type = Building)).
  - rewrite FillBuildingsLayer_no_layer by (rewrite Hl; constructor). cbn.
    apply IH; [lia|done|done].
  - rewrite FillRegularLayer_spec. cbn.
    rewrite filter_none.
    + cbn. apply IH; [lia|done|done].
    + intros d Hd Hacc. unfold acceptsDoc in Hacc.
      apply andb_true_iff in Hacc as [Hty _].
      apply bool_decide_eq_true in Hty. by apply (Hnone _ _ Hd).
Qed.

Lemma Go_idle (fuel : nat) (type : GeoType) (ctx : Context) :
  9 ≤ fuel + GeoType_to_size type → ContextInv ctx → m_layers ctx = [] →
  (∀ sub d, d ∈ Index.ForEachDocId m_index sub →
     GeoType_to_size (Entry.m_type (Index.GetDoc m_index d)) < GeoType_to_size type
     ∨ GeoType_to_size Building
       ≤ GeoType_to_size (Entry.m_type (Index.GetDoc m_index d))) →
  Go fuel type ctx = Done ctx.
Proof.
  revert type. induction fuel as [|fuel IH]; intros type Hfuel Hinv Hl Hnone.
  - destruct type; simpl in Hfuel; lia.
  - cbn [Go]. unfold GoBody.
    destruct (bool_decide (GetNumTokens ctx = 0)); [done|].
    destruct (AllTokensUsed ctx); [done|].
    destruct (decide (type = Count)) as [->|Htype]; [done|].
    rewrite bool_decide_eq_false_2 by done.
    assert (Houter : GoOuter (Go fuel) type ctx = Done ctx).
    { unfold GoOuter. apply forEachO_idle. intros i Hi.
      apply elem_of_seq in Hi. unfold GetNumTokens in *.
      destruct (decide (type = Building)) as [->|Hb].
      - apply GoInner_Building_idle; [done|lia|]. rewrite Hl. constructor.
      - apply GoInner_idle; [done|lia|done|].
        intros sub d Hd Heq. destruct (Hnone sub d Hd) as [H|H].
        + rewrite Heq in H. lia.
        + rewrite Heq in H. destruct type; simpl in H; try lia; done. }
    rewrite Houter. cbn.
    destruct (NextType_Done type Htype) as (next & -> & Hsize). cbn.
    apply IH; [lia|done|done|].
    intros sub d Hd. destruct (Hnone sub d Hd) as [H|H]; [left; lia|by right].
Qed.

Lemma Restored_events (level : GeoType) (ctx ctx' : Context) :
  Restored level ctx ctx' → ∃ evs, g_events ctx' = g_events ctx ++ evs.
Proof.
  intros Hr. destruct (ev_log _ _ _ (rs_evolves _ _ _ Hr)) as (evs & Hevs & _).
  by exists evs.
Qed.

Lemma AllTokensUsed_free (ctx : Context) (k : nat) :
  ContextInv ctx → fitsSize (length (m_tokens ctx)) →
  m_tokenTypes ctx !! k = Some Count → AllTokensUsed ctx = false.
Proof.
  intros [Hlen Hcnt] Hsize Hk. unfold AllTokensUsed.
  apply bool_decide_eq_false. rewrite (Hcnt Hsize), <- Hlen. intros Heq.
  apply Nat2N.inj in Heq. unfold countUsed in Heq.
  apply length_filter_all in Heq.
  by apply (proj1 (Forall_lookup _ _) Heq k Count Hk).
Qed.

Lemma GoInner_records (go : GeoType → Context → Outcome Context)
    (type : GeoType) (i j : nat) (d : DocId) (n j0 : nat) (subquery : Tokens)
    (subqueryTokenIds : list nat) (ctx : Context) :
  type ≠ Count → type ≠ Building →
  (∀ next, NextType type = Done next → GoOk next (go next)) →
  ContextInv ctx → i ≤ j0 → j0 ≤ j → j < length (m_tokens ctx) →
  j0 + n = length (m_tokens ctx) → m_layers ctx = [] →
  (∀ k, i ≤ k ≤ j → m_tokenTypes ctx !! k = Some Count) →
  subquery = take (j0 - i) (drop i (m_tokens ctx)) →
  d ∈ Index.ForEachDocId m_index (take (j + 1 - i) (drop i (m_tokens ctx))) →
  Entry.m_type (Index.GetDoc m_index d) = type →
  ∃ ctx' evs,
    GoInner go type i (seq j0 n) subquery subqueryTokenIds ctx = Done ctx'
    ∧ Restored type ctx ctx'
    ∧ g_events ctx' = g_events ctx ++ evs
    ∧ (frameKey type (setRange type i (j + 1) (m_tokenTypes ctx)) d,
       sumWeights (setRange type i (j + 1) (m_tokenTypes ctx)))
      ∈ recorded evs.
Proof.
  intros Htype Hb Hgo. revert j0 subquery subqueryTokenIds ctx.
  induction n as [|n IH];
    intros j0 subquery ids ctx Hinv Hij0 Hj0 Hj Hn Hl Hfree Hsub Hd Hdt;
    [lia|].
  cbn [seq GoInner].
  pose proof (inv_length _ Hinv) as Hlen.
  destruct (lookup_lt_is_Some_2 (m_tokens ctx) j0) as [tok Htk]; [lia|].
  unfold IsTokenUsed, GetToken. rewrite (Hfree j0), Htk by lia.
  destruct (decide (j0 < length (m_tokens ctx))) as [_|]; [|lia].
  cbn. rewrite bool_decide_eq_false_2 by (intros H; by apply H).
  rewrite (bool_decide_eq_false_2 (type = Building)) by done.
  rewrite FillRegularLayer_spec. cbn.
  assert (Hsub' : subquery ++ [tok]
                  = take (S j0 - i) (drop i (m_tokens ctx))).
  { replace (S j0 - i) with (S (j0 - i)) by lia.
    rewrite (take_S_r _ _ tok); [by rewrite Hsub|].
    rewrite lookup_drop. by replace (i + (j0 - i)) with j0 by lia. }
  set (entries := filter _ _).
  assert (Hrest : ∀ c1 evs1,
    Restored type ctx c1 → g_events c1 = g_events ctx ++ evs1 →
    (j0 < j
     ∨ (frameKey type (setRange type i (j + 1) (m_tokenTypes ctx)) d,
        sumWeights (setRange type i (j + 1) (m_tokenTypes ctx)))
       ∈ recorded evs1) →
    ∃ ctx' evs,
      GoInner go type i (seq (S j0) n) (subquery ++ [tok]) (ids ++ [j0]) c1
      = Done ctx'
      ∧ Restored type ctx ctx'
      ∧ g_events ctx' = g_events ctx ++ evs
      ∧ (frameKey type (setRange type i (j + 1) (m_tokenTypes ctx)) d,
         sumWeights (setRange type i (j + 1) (m_tokenTypes ctx)))
        ∈ recorded evs).
  { intros c1 evs1 Hr1 Hev1 Hcase.
    pose proof (Restored_inv _ _ _ Hr1 Hinv) as Hinv1.
    pose proof (rs_tokenTypes _ _ _ Hr1) as Hty1.
    pose proof (ev_tokens _ _ _ (rs_evolves _ _ _ Hr1)) as Htok1.
    pose proof (rs_layers _ _ _ Hr1) as Hl1.
    destruct Hcase as [Hlt|Hin].
    - destruct (IH (S j0) (subquery ++ [tok]) (ids ++ [j0]) c1)
        as (c2 & evs2 & Hrun & Hr2 & Hev2 & Hin); try done; try lia.
      + rewrite Htok1. lia.
      + rewrite Htok1. lia.
      + congruence.
      + intros k Hk. rewrite Hty1. by apply Hfree.
      + by rewrite Htok1.
      + by rewrite Htok1.
      + exists c2, (evs1 ++ evs2). split; [done|].
        split; [by eapply Restored_trans|].
        split; [by rewrite Hev2, Hev1, app_assoc|].
        rewrite recorded_app, Hty1 in *. apply elem_of_app. by right.
    - destruct (GoInner_spec go type i n (S j0) (subquery ++ [tok])
                  (ids ++ [j0]) c1) as (c2 & Hrun & Hr2); try done; try lia.
      + rewrite Htok1. lia.
      + intros k Hk. rewrite Hty1. apply Hfree. lia.
      + destruct (Restored_events _ _ _ Hr2) as (evs2 & Hev2).
        exists c2, (evs1 ++ evs2). split; [done|].
        split; [by eapply Restored_trans|].
        split; [by rewrite Hev2, Hev1, app_assoc|].
        rewrite recorded_app. apply elem_of_app. by left. }
  destruct (bool_decide (entries = [])) eqn:Hempty.
  - apply (Hrest ctx []); [apply Restored_refl|by rewrite app_nil_r|].
    left. destruct (decide (j0 = j)) as [->|]; [|lia].
    apply bool_decide_eq_true in Hempty.
    assert (Hin : d ∈ entries).
    { apply list_elem_of_filter. split.
      - unfold acceptsDoc. rewrite Hl.
        by rewrite !bool_decide_eq_true_2 by done.
      - rewrite Hsub'. by replace (S j - i) with (j + 1 - i) by lia. }
    rewrite Hempty in Hin. by apply elem_of_nil in Hin.
  - destruct (GoFrame_spec go type i j0 (Layer.mk type entries) ctx)
      as (c1 & -> & Hr1 & evs1 & rest & Hev1 & Hrec & _);
      [done|done|done|lia|lia| |].
    { intros k Hk. apply Hfree. lia. }
    cbn. apply (Hrest c1 evs1 Hr1 Hev1).
    destruct (decide (j0 = j)) as [->|]; [right|left; lia].
    rewrite Hrec. apply elem_of_app. left. apply list_elem_of_fmap.
    exists d. split; [done|]. simpl.
    apply list_elem_of_filter. split.
    + unfold acceptsDoc. rewrite Hl.
      by rewrite !bool_decide_eq_true_2 by done.
    + rewrite Hsub'. by replace (S j - i) with (j + 1 - i) by lia.
Qed.

(** X16.  [Go] at a level looks up by name only documents of that level and
    of the levels below it down to Street: when every document that the
    name lookup of the index returns is of a level above [type], or is a
    Building or of no level, [Go] entered with an empty layer stack leaves
    the context as it is.  So a query over an index whose name lookup
    returns buildings only has no result. *)
Theorem Go_ignores_other_levels :
  (∀ fuel type ctx,
     9 ≤ fuel + GeoType_to_size type → ContextInv ctx → m_layers ctx = [] →
     (∀ sub d, d ∈ Index.ForEachDocId m_index sub →
        GeoType_to_size (Entry.m_type (Index.GetDoc m_index d))
        < GeoType_to_size type
        ∨ GeoType_to_size Building
          ≤ GeoType_to_size (Entry.m_type (Index.GetDoc m_index d))) →
     Go fuel type ctx = Done ctx)
  ∧ ((∀ sub d, d ∈ Index.ForEachDocId m_index sub →
        GeoType_to_size Building
        ≤ GeoType_to_size (Entry.m_type (Index.GetDoc m_index d))) →
     ∀ query results, ProcessQuery query results = Done []).
Proof.
  split; [apply Go_idle|].
  intros Hnone query results. unfold ProcessQuery.
  rewrite Go_idle; [done| | | |].
  - unfold Go_fuel. lia.
  - apply Context_ctor_inv.
  - done.
  - intros sub d Hd. right. by apply (Hnone sub).
Qed.

Lemma Go_records_level (fuel : nat) (type : GeoType) (ctx : Context)
    (i j : nat) (d : DocId) :
  9 ≤ fuel + GeoType_to_size type → ContextInv ctx →
  fitsSize (length (m_tokens ctx)) → m_layers ctx = [] →
  type ≠ Count → type ≠ Building →
  i ≤ j → j < length (m_tokens ctx) →
  (∀ k, i ≤ k ≤ j → m_tokenTypes ctx !! k = Some Count) →
  d ∈ Index.ForEachDocId m_index (take (j + 1 - i) (drop i (m_tokens ctx))) →
  Entry.m_type (Index.GetDoc m_index d) = type →
  ∃ ctx' evs,
    Go fuel type ctx = Done ctx'
    ∧ g_events ctx' = g_events ctx ++ evs
    ∧ (frameKey type (setRange type i (j + 1) (m_tokenTypes ctx)) d,
       sumWeights (setRange type i (j + 1) (m_tokenTypes ctx)))
      ∈ recorded evs.
Proof.
  intros Hfuel Hinv Hsize Hl Htype Hb Hij Hj Hfree Hd Hdt.
  destruct fuel as [|fuel]; [destruct type; simpl in Hfuel; lia|].
  destruct (NextType_Done type Htype) as (next & Hnext & Hnsize).
  assert (Hgo : ∀ next', NextType type = Done next' → GoOk next' (Go fuel next')).
  { intros next' Hn c Hc. rewrite Hnext in Hn. injection Hn as <-.
    apply Go_spec; [lia|done]. }
  cbn [Go]. unfold GoBody.
  rewrite bool_decide_eq_false_2 by (unfold GetNumTokens; lia).
  rewrite (AllTokensUsed_free ctx j) by (try done; apply Hfree; lia).
  rewrite bool_decide_eq_false_2 by done.
  unfold GoOuter, GetNumTokens.
  assert (Hseq : seq 0 (length (m_tokens ctx))
                 = seq 0 i ++ i :: seq (S i) (length (m_tokens ctx) - S i)).
  { replace (length (m_tokens ctx)) with (i + S (length (m_tokens ctx) - S i))
      at 1 by lia.
    by rewrite seq_app. }
  rewrite Hseq, forEachO_app. cbn [forEachO].
  set (body := λ (i0 : nat) (c : Context),
         GoInner (Go fuel) type i0 (seq i0 (length (m_tokens c) - i0)) [] [] c).
  assert (Hbody : ∀ (x : nat) (c0 c : Context),
            x ≤ length (m_tokens c0) → ContextInv c →
            m_tokens c = m_tokens c0 →
            ∃ c', body x c = Done c' ∧ Restored type c c').
  { intros x c0 c Hx Hc Htok. apply GoInner_spec; try done.
    - rewrite Htok. lia.
    - intros k Hk. lia. }
  destruct (forEachO_Restored type body (seq 0 i) ctx Hinv)
    as (c1 & -> & Hr1).
  { intros x c Hx Hc Htok. apply elem_of_seq in Hx.
    apply (Hbody x ctx); [lia|done|done]. }
  cbn.
  pose proof (Restored_inv _ _ _ Hr1 Hinv) as Hinv1.
  pose proof (rs_tokenTypes _ _ _ Hr1) as Hty1.
  pose proof (ev_tokens _ _ _ (rs_evolves _ _ _ Hr1)) as Htok1.
  pose proof (rs_layers _ _ _ Hr1) as Hl1.
  destruct (Restored_events _ _ _ Hr1) as (evs1 & Hev1).
  destruct (GoInner_records (Go fuel) type i j d (length (m_tokens c1) - i) i
              [] [] c1) as (c2 & evs2 & Hrun2 & Hr2 & Hev2 & Hin);
    try done; try lia;
    try (rewrite ?Htok1, ?Hty1, ?Hl1, ?Nat.sub_diag;
         first [done | lia | by apply Hfree]).
  rewrite Hrun2. cbn.
  pose proof (Restored_inv _ _ _ Hr2 Hinv1) as Hinv2.
  pose proof (ev_tokens _ _ _ (rs_evolves _ _ _ Hr2)) as Htok2.
  destruct (forEachO_Restored type body
              (seq (S i) (length (m_tokens ctx) - S i)) c2 Hinv2)
    as (c3 & -> & Hr3).
  { intros x c Hx Hc Htok. apply elem_of_seq in Hx.
    apply (Hbody x c2); [|done|done]. rewrite Htok2, Htok1. lia. }
  cbn. rewrite Hnext. cbn.
  pose proof (Restored_inv _ _ _ Hr3 Hinv2) as Hinv3.
  destruct (Restored_events _ _ _ Hr3) as (evs3 & Hev3).
  destruct (Hgo next Hnext c3 Hinv3) as (c4 & -> & Hr4).
  destruct (Restored_events _ _ _ Hr4) as (evs4 & Hev4).
  exists c4, (evs1 ++ evs2 ++ evs3 ++ evs4). split; [done|]. split.
  - by rewrite Hev4, Hev3, Hev2, Hev1, <- !app_assoc.
  - rewrite !recorded_app, !elem_of_app. right. left. by rewrite <- Hty1.
Qed.

(** X17.  [Go] entered with an empty layer stack records every document of
    its own level, or of a level below it down to Street, that the name
    lookup returns for a run of consecutive unassigned tokens: the result
    has the document's OSM id, the document's level as type, and the token
    ids, types and certainty of the token types with that run marked. *)
Theorem Go_records_found_document (fuel : nat) (type level : GeoType)
    (ctx : Context) (i j : nat) (d : DocId) :
  9 ≤ fuel + GeoType_to_size type → ContextInv ctx →
  fitsSize (length (m_tokens ctx)) → m_layers ctx = [] →
  GeoType_to_size type ≤ GeoType_to_size level →
  level ≠ Count → level ≠ Building →
  i ≤ j → j < length (m_tokens ctx) →
  (∀ k, i ≤ k ≤ j → m_tokenTypes ctx !! k = Some Count) →
  d ∈ Index.ForEachDocId m_index (take (j + 1 - i) (drop i (m_tokens ctx))) →
  Entry.m_type (Index.GetDoc m_index d) = level →
  ∃ ctx' evs,
    Go fuel type ctx = Done ctx'
    ∧ g_events ctx' = g_events ctx ++ evs
    ∧ (frameKey level (setRange level i (j + 1) (m_tokenTypes ctx)) d,
       sumWeights (setRange level i (j + 1) (m_tokenTypes ctx)))
      ∈ recorded evs.
Proof.
  revert type ctx.
  induction fuel as [|fuel IH];
    intros type ctx Hfuel Hinv Hsize Hl Hle Hlevel Hb Hij Hj Hfree Hd Hdt.
  { destruct type; simpl in Hfuel; lia. }
  destruct (decide (type = level)) as [->|Hne].
  { by apply Go_records_level. }
  assert (Htype : type ≠ Count).
  { intros ->. destruct level; simpl in Hle; try lia; done. }
  destruct (NextType_Done type Htype) as (next & Hnext & Hnsize).
  assert (Hlt : GeoType_to_size type < GeoType_to_size level).
  { destruct (decide (GeoType_to_size type = GeoType_to_size level)) as [He|];
      [|lia].
    destruct type, level; simpl in He; try lia; done. }
  assert (Hgo : ∀ next', NextType type = Done next' → GoOk next' (Go fuel next')).
  { intros next' Hn c Hc. rewrite Hnext in Hn. injection Hn as <-.
    apply Go_spec; [lia|done]. }
  cbn [Go]. unfold GoBody.
  rewrite bool_decide_eq_false_2 by (unfold GetNumTokens; lia).
  rewrite (AllTokensUsed_free ctx j) by (try done; apply Hfree; lia).
  rewrite bool_decide_eq_false_2 by done.
  destruct (GoOuter_spec (Go fuel) type ctx Htype Hgo Hinv) as (c1 & -> & Hr1).
  cbn. rewrite Hnext. cbn.
  pose proof (Restored_inv _ _ _ Hr1 Hinv) as Hinv1.
  pose proof (rs_tokenTypes _ _ _ Hr1) as Hty1.
  pose proof (ev_tokens _ _ _ (rs_evolves _ _ _ Hr1)) as Htok1.
  pose proof (rs_layers _ _ _ Hr1) as Hl1.
  destruct (Restored_events _ _ _ Hr1) as (evs1 & Hev1).
  destruct (IH next c1) as (c2 & evs2 & Hrun & Hev2 & Hin);
    try done; try lia;
    try (rewrite ?Htok1, ?Hty1, ?Hl1; first [done | lia | by apply Hfree]).
  exists c2, (evs1 ++ evs2). split; [done|]. split.
  - by rewrite Hev2, Hev1, app_assoc.
  - rewrite recorded_app, elem_of_app. right. by rewrite <- Hty1.
Qed.

(** X18.  For the key of a result recorded during [Go] the third flag of
    [IsBuildingWithAddress] is always set, the key's own level being among
    its types: the test passes exactly when the key is a Building whose
    types hold a Street and one of Region, Subregion and Locality. *)
Theorem Go_records_building_with_address (fuel : nat) (type : GeoType)
    (ctx : Context) :
  9 ≤ fuel + GeoType_to_size type → ContextInv ctx →
  ∃ ctx' evs,
    Go fuel type ctx = Done ctx'
    ∧ g_events ctx' = g_events ctx ++ evs
    ∧ ∀ key c, (key, c) ∈ recorded evs →
        (IsBuildingWithAddress key = true
         ↔ BeamKey.m_type key = Building
           ∧ Street ∈ BeamKey.m_allTypes key
           ∧ (Region ∈ BeamKey.m_allTypes key
              ∨ Subregion ∈ BeamKey.m_allTypes key
              ∨ Locality ∈ BeamKey.m_allTypes key)).
Proof.
  intros Hfuel Hinv.
  destruct (Go_trace fuel type ctx Hfuel Hinv)
    as (ctx' & evs & Hrun & Hevs & Hall & _).
  exists ctx', evs. split; [done|]. split; [done|].
  intros key c Hin. apply elem_of_recorded in Hin.
  pose proof (proj1 (Forall_forall _ _) Hall _ Hin) as Hrec. simpl in Hrec.
  apply frameRecord_types in Hrec
    as (types & docId & _ & Hty & Htin & _ & _ & Hat & _ & _).
  assert (Hown : BeamKey.m_type key ∈ BeamKey.m_allTypes key).
  { rewrite Hat. by apply usedTypes_elem. }
  rewrite IsBuildingWithAddress_iff. split.
  - intros (Hb & Hloc & Hst & _). done.
  - intros (Hb & Hst & Hloc). split_and!; try done. by rewrite <- Hb.
Qed.

(** X19.  The check of [GetNumUsedTokens] holds under the invariant of the
    context, and the counter it returns is the number of assigned
    positions.  A context just built from a query has no token in use, and
    [AllTokensUsed] holds of it exactly when the query has no token. *)
Theorem GetNumUsedTokens_counts :
  (∀ ctx, ContextInv ctx → fitsSize (length (m_tokens ctx)) →
     GetNumUsedTokens ctx = Done (N.of_nat (countUsed (m_tokenTypes ctx))))
  ∧ ∀ query,
      GetNumUsedTokens (Context_ctor query) = Done 0%N
      ∧ (AllTokensUsed (Context_ctor query) = true
         ↔ NormalizeAndTokenizeAsUtf8 query = []).
Proof.
  split.
  - intros ctx [Hlen Hcnt] Hsize. unfold GetNumUsedTokens.
    rewrite (Hcnt Hsize). rewrite decide_True; [done|].
    rewrite <- Hlen. pose proof (countUsed_le (m_tokenTypes ctx)). lia.
  - intros query. split.
    + unfold GetNumUsedTokens, Context_ctor. simpl.
      rewrite decide_True; [done|lia].
    + unfold AllTokensUsed, Context_ctor. simpl.
      rewrite bool_decide_eq_true. split.
      * intros H. apply length_zero_iff_nil. lia.
      * intros ->. done.
Qed.

(** X20.  [NextType] fails its check on [Count] and on nothing else; on any
    other level the cast yields the level whose ordinal is one more. *)
Theorem NextType_next (type : GeoType) :
  (NextType type = CheckFailed ↔ type = Count)
  ∧ (type ≠ Count →
     ∃ next, NextType type = Done next
             ∧ GeoType_to_size next = S (GeoType_to_size type)
             ∧ (GetWeight next <= GetWeight type)%Q).
Proof.
  split.
  - split; [|by intros ->]. by destruct type.
  - intros Htype. destruct type; try done; eexists;
      (split; [reflexivity|split; [reflexivity|]]);
      unfold Qle; simpl; lia.
Qed.
End Geocoder.

(** ** The properties on the small world *)

Local Abbreviation worldGo :=
  (Go World.isStreetSynonym World.looksLikeHouseNumber World.houseNumbersMatch
     World.hierarchy World.index).
Local Abbreviation worldQuery :=
  (ProcessQuery World.tokenize World.isStreetSynonym World.looksLikeHouseNumber
     World.houseNumbersMatch World.hierarchy World.index).
Local Abbreviation worldContext := (Context_ctor World.tokenize).

(** C1 (a defect of the code).  On the query "rivoli street 1" the Street
    frame of "rivoli" marks the synonym "street" as Street during its
    scoring scan, before it records its result, yet the result it records
    has the certainty 1 of "rivoli" alone and lists position 0 only: the
    scan scores the type it read before the mark.  The Building frame
    beneath scores the same position as Street.  Both marks are undone
    when the frame ends. *)
Theorem street_synonym_mark_not_scored :
  World.isStreetSynonym "street" = true
  ∧ ∃ ctx',
      worldGo Go_fuel Country (worldContext "rivoli street 1") = Done ctx'
      ∧ m_tokens ctx' = ["rivoli"; "street"; "1"]
      ∧ g_events ctx'
        = [EvMark [Street; Count; Count] 1;
           EvMark [Street; Street; Count] 2;
           EvAdd (BeamKey.mk 4 Street [0] [Street]) 1;
           EvMark [Street; Street; Building] 3;
           EvAdd (BeamKey.mk 5 Building [0; 1; 2] [Street; Street; Building])
             (sumWeights [Street; Street; Building]);
           EvMark [Street; Street; Count] 2;
           EvMark [Street; Count; Count] 1;
           EvMark [Count; Count; Count] 0]
      ∧ m_tokenTypes ctx' = [Count; Count; Count]
      ∧ (sumWeights [Street; Street; Count] == 2)%Q
      ∧ ¬ (∃ key c, (key, c) ∈ recorded (g_events ctx')
                    ∧ BeamKey.m_type key = Street
                    ∧ 1 ∈ BeamKey.m_tokenIds key).
Proof.
  split; [reflexivity|].
  eexists. split; [vm_compute; reflexivity|].
  split; [reflexivity|]. split; [reflexivity|]. split; [reflexivity|].
  split; [reflexivity|].
  intros (key & c & Hin & Hty & Hid).
  change (recorded _)
    with [(BeamKey.mk 4 Street [0] [Street], 1%Q);
          (BeamKey.mk 5 Building [0; 1; 2] [Street; Street; Building],
           sumWeights [Street; Street; Building])] in Hin.
  apply elem_of_cons in Hin as [Hin|Hin].
  - injection Hin as -> _. simpl in Hid.
    apply list_elem_of_singleton in Hid. discriminate.
  - apply list_elem_of_singleton in Hin. injection Hin as -> _.
    simpl in Hty. discriminate.
Qed.

Lemma FillResults_emits_iff_witness :
  BeamOk (m_beam World.twoHits)
  ∧ ∃ results,
      FillResults World.twoHits [] = Done results
      ∧ Result.m_osmId <$> results = [4%N]
      ∧ NoDup (Result.m_osmId <$> results).
Proof.
  assert (Hok : BeamOk (m_beam World.twoHits)).
  { split; simpl.
    - unfold kMaxResults. lia.
    - repeat constructor. unfold Qle. simpl. lia.
    - repeat constructor. }
  split; [exact Hok|].
  destruct (proj2 (proj2 (proj2 (FillResults_emits_iff World.twoHits)))
              [] Hok)
    as (results & Hrun & Hids & Hnd); [reflexivity|].
  exists results. split; [exact Hrun|]. split; [|exact Hnd].
  rewrite Hids. vm_compute. reflexivity.
Defined.

Lemma Go_marking_balanced_witness :
  9 ≤ 9 + GeoType_to_size Country
  ∧ ContextInv (worldContext "paris france")
  ∧ fitsSize (length (m_tokens (worldContext "paris france")))
  ∧ ∃ ctx',
      worldGo 9 Country (worldContext "paris france") = Done ctx'
      ∧ m_tokenTypes ctx' = m_tokenTypes (worldContext "paris france")
      ∧ m_numUsedTokens ctx' = m_numUsedTokens (worldContext "paris france").
Proof.
  assert (Hfuel : 9 ≤ 9 + GeoType_to_size Country) by (simpl; lia).
  assert (Hinv : ContextInv (worldContext "paris france")).
  { split; [reflexivity|intros _; reflexivity]. }
  assert (Hsize : fitsSize (length (m_tokens (worldContext "paris france")))).
  { vm_compute. reflexivity. }
  split; [exact Hfuel|]. split; [exact Hinv|]. split; [exact Hsize|].
  destruct (proj1 (Go_marking_balanced World.isStreetSynonym
                     World.looksLikeHouseNumber World.houseNumbersMatch
                     World.hierarchy World.index 9 Country
                     (worldContext "paris france") Hfuel Hinv Hsize))
    as (ctx' & Hrun & Hty & Hn & _).
  exists ctx'. split; [exact Hrun|]. split; [exact Hty|exact Hn].
Defined.

Lemma FillBuildingsLayer_requires_layer_witness :
  m_layers (worldContext "42 paris") = []
  ∧ FillBuildingsLayer World.looksLikeHouseNumber World.houseNumbersMatch
      World.index (worldContext "42 paris") ["42"] [0] (Layer.mk Building [])
    = (Layer.mk Building [], worldContext "42 paris").
Proof.
  assert (Hl : m_layers (worldContext "42 paris") = []) by reflexivity.
  split; [exact Hl|].
  exact (proj1 (FillBuildingsLayer_requires_layer World.isStreetSynonym
                  World.looksLikeHouseNumber World.houseNumbersMatch
                  World.hierarchy World.index (worldContext "42 paris")
                  ["42"] [0] (Layer.mk Building []) (or_introl Hl))).
Defined.

Lemma Go_returns_immediately_witness :
  (GetNumTokens (worldContext "") = 0 ∨ AllTokensUsed (worldContext "") = true
   ∨ Country = Count)
  ∧ worldGo 9 Country (worldContext "") = Done (worldContext "")
  ∧ World.tokenize "   " = []
  ∧ worldQuery "   " [] = Done [].
Proof.
  assert (Hcase : GetNumTokens (worldContext "") = 0
                  ∨ AllTokensUsed (worldContext "") = true ∨ Country = Count).
  { left. reflexivity. }
  assert (Htok : World.tokenize "   " = []) by reflexivity.
  pose proof (Go_returns_immediately World.tokenize World.isStreetSynonym
                World.looksLikeHouseNumber World.houseNumbersMatch
                World.hierarchy World.index) as (Hgo & Hempty & _).
  split; [exact Hcase|]. split; [exact (Hgo 8 Country _ Hcase)|].
  split; [exact Htok|]. exact (Hempty "   " [] Htok).
Defined.

Lemma building_certainty_ge_street_witness :
  ContextInv (worldContext "rue de rivoli 1")
  ∧ ∃ ctx' evs descent,
      GoFrame World.isStreetSynonym World.index (worldGo 2) Street 0 2
        (Layer.mk Street [3]) (worldContext "rue de rivoli 1") = Done ctx'
      ∧ g_events ctx' = g_events (worldContext "rue de rivoli 1") ++ evs
      ∧ recorded evs
        = [(frameKey World.index Street [Street; Street; Street; Count] 3,
            sumWeights [Street; Street; Street; Count])] ++ descent
      ∧ ∀ key c, (key, c) ∈ descent →
          BeamKey.m_type key = Building
          ∧ (sumWeights [Street; Street; Street; Count] <= c)%Q.
Proof.
  assert (Hinv : ContextInv (worldContext "rue de rivoli 1")).
  { split; [reflexivity|intros _; reflexivity]. }
  split; [exact Hinv|].
  apply (building_certainty_ge_street World.isStreetSynonym
           World.looksLikeHouseNumber World.houseNumbersMatch World.hierarchy
           World.index 2 0 2 (Layer.mk Street [3])
           (worldContext "rue de rivoli 1")).
  - lia.
  - exact Hinv.
  - lia.
  - simpl. lia.
  - intros k Hk.
    destruct k as [|[|[|k]]]; [reflexivity|reflexivity|reflexivity|lia].
Defined.

Lemma Go_checks_never_fail_witness :
  9 ≤ 9 + GeoType_to_size Country
  ∧ ContextInv (worldContext "1 rue de rivoli paris")
  ∧ ∃ ctx', worldGo 9 Country (worldContext "1 rue de rivoli paris") = Done ctx'.
Proof.
  assert (Hfuel : 9 ≤ 9 + GeoType_to_size Country) by (simpl; lia).
  assert (Hinv : ContextInv (worldContext "1 rue de rivoli paris")).
  { split; [reflexivity|intros _; reflexivity]. }
  split; [exact Hfuel|]. split; [exact Hinv|].
  exact (proj1 (Go_checks_never_fail World.tokenize World.isStreetSynonym
                  World.looksLikeHouseNumber World.houseNumbersMatch
                  World.hierarchy World.index) 9 Country _ Hfuel Hinv).
Defined.

(** The scenarios of the specification on the small world. *)
Example query_france :
  worldQuery "france" [] = Done [Result.mk 1 (10 # 10)%Q].
Proof. vm_compute. reflexivity. Qed.

Example query_paris_france :
  worldQuery "paris france" []
  = Done [Result.mk 3 (13 # 13)%Q; Result.mk 1 (10 # 13)%Q].
Proof. vm_compute. reflexivity. Qed.

Example query_house_number_without_street :
  worldQuery "42 paris" [] = Done [].
Proof. vm_compute. reflexivity. Qed.

Example query_unknown : worldQuery "xyzzy" [] = Done [].
Proof. vm_compute. reflexivity. Qed.

(** ** The further properties on the small world *)

Lemma MarkToken_compose_witness :
  ContextInv (worldContext "paris france")
  ∧ fitsSize (length (m_tokens (worldContext "paris france")))
  ∧ ∃ c1 c2 d1 d2,
      MarkToken 0 Locality (worldContext "paris france") = Done c1
      ∧ MarkToken 1 Country c1 = Done c2
      ∧ MarkToken 1 Country (worldContext "paris france") = Done d1
      ∧ MarkToken 0 Locality d1 = Done d2
      ∧ m_tokenTypes c2 = m_tokenTypes d2
      ∧ m_numUsedTokens c2 = m_numUsedTokens d2.
Proof.
  assert (Hinv : ContextInv (worldContext "paris france")).
  { split; [reflexivity|intros _; reflexivity]. }
  assert (Hsize : fitsSize (length (m_tokens (worldContext "paris france")))).
  { vm_compute. reflexivity. }
  split; [exact Hinv|]. split; [exact Hsize|].
  apply (proj2 (MarkToken_compose 0 1 Locality Country
                  (worldContext "paris france") Hinv Hsize
                  ltac:(vm_compute; lia) ltac:(vm_compute; lia))).
  lia.
Defined.

Lemma ScopedMarkTokens_clears_witness :
  ContextInv (worldContext "paris france")
  ∧ 0 ≤ 1
  ∧ 1 ≤ length (m_tokens (worldContext "paris france"))
  ∧ ∃ c1 c2,
      ScopedMarkTokens_ctor Locality 0 1 (worldContext "paris france") = Done c1
      ∧ ScopedMarkTokens_dtor 0 1 c1 = Done c2
      ∧ m_tokens c2 = m_tokens (worldContext "paris france").
Proof.
  assert (Hinv : ContextInv (worldContext "paris france")).
  { split; [reflexivity|intros _; reflexivity]. }
  assert (Hlr : 0 ≤ 1) by lia.
  assert (Hr : 1 ≤ length (m_tokens (worldContext "paris france"))).
  { vm_compute. lia. }
  split; [exact Hinv|]. split; [exact Hlr|]. split; [exact Hr|].
  destruct (ScopedMarkTokens_clears Locality 0 1 (worldContext "paris france")
              Hinv Hlr Hr)
    as (c1 & c2 & Hctor & Hdtor & _ & _ & _ & _ & Htok & _).
  exists c1, c2. split; [exact Hctor|]. split; [exact Hdtor|exact Htok].
Defined.

Lemma GetWeight_antitone_witness :
  GeoType_to_size Country ≤ GeoType_to_size Street
  ∧ (GetWeight Street <= GetWeight Country)%Q.
Proof.
  assert (Hle : GeoType_to_size Country ≤ GeoType_to_size Street)
    by (simpl; lia).
  split; [exact Hle|].
  exact (proj1 (GetWeight_antitone Country Street) Hle).
Defined.

Lemma AllTokensUsed_iff_witness :
  ContextInv World.rivoliMarked
  ∧ fitsSize (length (m_tokens World.rivoliMarked))
  ∧ (AllTokensUsed World.rivoliMarked = true
     ↔ Forall (λ t, t ≠ Count) (m_tokenTypes World.rivoliMarked)).
Proof.
  assert (Hinv : ContextInv World.rivoliMarked).
  { split; [reflexivity|intros _; reflexivity]. }
  assert (Hsize : fitsSize (length (m_tokens World.rivoliMarked))).
  { vm_compute. reflexivity. }
  split; [exact Hinv|]. split; [exact Hsize|].
  exact (AllTokensUsed_iff World.rivoliMarked Hinv Hsize).
Defined.

Lemma FillBuildingsLayer_notes_positions_witness :
  World.looksLikeHouseNumber (MakeHouseNumber ["7"]) false = true
  ∧ snd (FillBuildingsLayer World.looksLikeHouseNumber World.houseNumbersMatch
           World.index
           (set_layers [Layer.mk Street [3]] (worldContext "rivoli 7"))
           ["7"] [1] (Layer.mk Building []))
    = set_houseNumberPositions
        (m_houseNumberPositionsInQuery
           (set_layers [Layer.mk Street [3]] (worldContext "rivoli 7"))
         ∪ list_to_set [1])
        (set_layers [Layer.mk Street [3]] (worldContext "rivoli 7")).
Proof.
  assert (Hhn : World.looksLikeHouseNumber (MakeHouseNumber ["7"]) false = true)
    by reflexivity.
  split; [exact Hhn|].
  apply (FillBuildingsLayer_notes_positions World.looksLikeHouseNumber
           World.houseNumbersMatch World.index
           (set_layers [Layer.mk Street [3]] (worldContext "rivoli 7"))
           ["7"] [1] (Layer.mk Building []) Hhn).
  apply Exists_cons_hd. left. reflexivity.
Defined.

Lemma Go_restores_layers_witness :
  9 ≤ 9 + GeoType_to_size Country
  ∧ ContextInv (worldContext "rue de rivoli 1")
  ∧ ∃ ctx',
      worldGo 9 Country (worldContext "rue de rivoli 1") = Done ctx'
      ∧ m_layers ctx' = m_layers (worldContext "rue de rivoli 1")
      ∧ m_tokens ctx' = m_tokens (worldContext "rue de rivoli 1").
Proof.
  assert (Hfuel : 9 ≤ 9 + GeoType_to_size Country) by (simpl; lia).
  assert (Hinv : ContextInv (worldContext "rue de rivoli 1")).
  { split; [reflexivity|intros _; reflexivity]. }
  split; [exact Hfuel|]. split; [exact Hinv|].
  destruct (proj1 (Go_restores_layers World.tokenize World.isStreetSynonym
                     World.looksLikeHouseNumber World.houseNumbersMatch
                     World.hierarchy World.index)
              9 Country (worldContext "rue de rivoli 1") Hfuel Hinv)
    as (ctx' & Hrun & Hl & Htok & _).
  exists ctx'. split; [exact Hrun|]. split; [exact Hl|exact Htok].
Defined.

Lemma IsGoodForPotentialHouseNumberAt_antitone_witness :
  (∅ : gset nat) ⊆ {[1]}
  ∧ IsGoodForPotentialHouseNumberAt World.twoHits
      (BeamKey.mk 3 Locality [0] [Locality]) {[1]} = false
  ∧ IsGoodForPotentialHouseNumberAt World.twoHits
      (BeamKey.mk 4 Street [0; 1] [Street; Street]) {[1]} = true
  ∧ IsGoodForPotentialHouseNumberAt World.twoHits
      (BeamKey.mk 4 Street [0; 1] [Street; Street]) ∅ = true.
Proof.
  assert (Hsub : (∅ : gset nat) ⊆ {[1]}) by apply empty_subseteq.
  assert (Hgood : IsGoodForPotentialHouseNumberAt World.twoHits
                    (BeamKey.mk 4 Street [0; 1] [Street; Street]) {[1]} = true)
    by reflexivity.
  split; [exact Hsub|]. split; [vm_compute; reflexivity|].
  split; [exact Hgood|].
  exact (IsGoodForPotentialHouseNumberAt_antitone World.twoHits
           (BeamKey.mk 4 Street [0; 1] [Street; Street]) ∅ {[1]} Hsub Hgood).
Defined.

Lemma FillResults_without_house_number_witness :
  m_houseNumberPositionsInQuery World.twoHits = ∅
  ∧ ∀ id, id ∈ (Result.m_osmId
                  <$> emitLoop World.twoHits
                        (Beam.GetEntries (m_beam World.twoHits)))
          ↔ id ∈ (osmIdOf <$> Beam.GetEntries (m_beam World.twoHits)).
Proof.
  assert (Hhn : m_houseNumberPositionsInQuery World.twoHits = ∅) by reflexivity.
  split; [exact Hhn|].
  exact (proj1 (FillResults_without_house_number World.twoHits Hhn)
           (Beam.GetEntries (m_beam World.twoHits))).
Defined.

Lemma scoreTokens_other_levels_witness :
  Locality ≠ Street
  ∧ ContextInv World.rivoliMarked
  ∧ ∃ sc,
      scoreTokens World.isStreetSynonym Locality World.rivoliMarked
      = Done (sc, World.rivoliMarked)
      ∧ streetSynonymMark sc = None.
Proof.
  assert (Hne : Locality ≠ Street) by discriminate.
  assert (Hinv : ContextInv World.rivoliMarked).
  { split; [reflexivity|intros _; reflexivity]. }
  split; [exact Hne|]. split; [exact Hinv|].
  destruct (scoreTokens_other_levels World.isStreetSynonym Locality
              World.rivoliMarked Hne Hinv) as (sc & Hrun & Hmark & _).
  exists sc. split; [exact Hrun|exact Hmark].
Defined.

Lemma Go_marks_unassigned_only_witness :
  9 ≤ 7 + GeoType_to_size Street
  ∧ ContextInv World.rivoliMarked
  ∧ ∃ ctx' evs,
      worldGo 7 Street World.rivoliMarked = Done ctx'
      ∧ g_events ctx' = g_events World.rivoliMarked ++ evs
      ∧ ∀ types numUsed, EvMark types numUsed ∈ evs →
          types !! 0 = Some Street.
Proof.
  assert (Hfuel : 9 ≤ 7 + GeoType_to_size Street) by (simpl; lia).
  assert (Hinv : ContextInv World.rivoliMarked).
  { split; [reflexivity|intros _; reflexivity]. }
  split; [exact Hfuel|]. split; [exact Hinv|].
  destruct (Go_marks_unassigned_only World.isStreetSynonym
              World.looksLikeHouseNumber World.houseNumbersMatch
              World.hierarchy World.index 7 Street World.rivoliMarked
              Hfuel Hinv) as (ctx' & evs & Hrun & Hev & Hmarks).
  exists ctx', evs. split; [exact Hrun|]. split; [exact Hev|].
  intros types numUsed Hin.
  apply (proj2 (Hmarks types numUsed Hin) 0 Street); [reflexivity|discriminate].
Defined.

Lemma Go_records_keys_witness :
  9 ≤ 9 + GeoType_to_size Country
  ∧ ContextInv (worldContext "rue de rivoli 1")
  ∧ ∃ ctx' evs,
      worldGo 9 Country (worldContext "rue de rivoli 1") = Done ctx'
      ∧ g_events ctx' = g_events (worldContext "rue de rivoli 1") ++ evs
      ∧ ∀ key c, (key, c) ∈ recorded evs →
          StronglySorted lt (BeamKey.m_tokenIds key)
          ∧ length (BeamKey.m_tokenIds key) = length (BeamKey.m_allTypes key)
          ∧ BeamKey.m_type key ∈ BeamKey.m_allTypes key.
Proof.
  assert (Hfuel : 9 ≤ 9 + GeoType_to_size Country) by (simpl; lia).
  assert (Hinv : ContextInv (worldContext "rue de rivoli 1")).
  { split; [reflexivity|intros _; reflexivity]. }
  split; [exact Hfuel|]. split; [exact Hinv|].
  destruct (Go_records_keys World.isStreetSynonym World.looksLikeHouseNumber
              World.houseNumbersMatch World.hierarchy World.index 9 Country
              (worldContext "rue de rivoli 1") Hfuel Hinv)
    as (ctx' & evs & Hrun & Hev & Hkeys).
  exists ctx', evs. split; [exact Hrun|]. split; [exact Hev|].
  intros key c Hin.
  destruct (Hkeys key c Hin) as (Hsorted & _ & Hlen & _ & Hown & _).
  split; [exact Hsorted|]. split; [exact Hlen|exact Hown].
Defined.

Lemma Go_records_certainty_witness :
  9 ≤ 9 + GeoType_to_size Country
  ∧ ContextInv (worldContext "rue de rivoli 1")
  ∧ ∃ ctx' evs,
      worldGo 9 Country (worldContext "rue de rivoli 1") = Done ctx'
      ∧ g_events ctx' = g_events (worldContext "rue de rivoli 1") ++ evs
      ∧ ∀ key c, (key, c) ∈ recorded evs →
          (c == sumWeights (BeamKey.m_allTypes key))%Q
          ∧ (GetWeight (BeamKey.m_type key) <= c)%Q.
Proof.
  assert (Hfuel : 9 ≤ 9 + GeoType_to_size Country) by (simpl; lia).
  assert (Hinv : ContextInv (worldContext "rue de rivoli 1")).
  { split; [reflexivity|intros _; reflexivity]. }
  split; [exact Hfuel|]. split; [exact Hinv|].
  destruct (Go_records_certainty World.isStreetSynonym
              World.looksLikeHouseNumber World.houseNumbersMatch
              World.hierarchy World.index 9 Country
              (worldContext "rue de rivoli 1") Hfuel Hinv)
    as (ctx' & evs & Hrun & Hev & Hcert).
  exists ctx', evs. split; [exact Hrun|]. split; [exact Hev|].
  intros key c Hin. destruct (Hcert key c Hin) as (Hsum & _ & Hle & _).
  split; [exact Hsum|exact Hle].
Defined.

Lemma Go_records_documents_witness :
  9 ≤ 9 + GeoType_to_size Country
  ∧ ContextInv (worldContext "paris france")
  ∧ ∃ ctx' evs,
      worldGo 9 Country (worldContext "paris france") = Done ctx'
      ∧ g_events ctx' = g_events (worldContext "paris france") ++ evs
      ∧ ∀ key c, (key, c) ∈ recorded evs →
          ∃ docId,
            BeamKey.m_osmId key
            = Entry.m_osmId (Index.GetDoc World.index docId)
            ∧ (BeamKey.m_type key ≠ Building →
               Entry.m_type (Index.GetDoc World.index docId)
               = BeamKey.m_type key).
Proof.
  assert (Hfuel : 9 ≤ 9 + GeoType_to_size Country) by (simpl; lia).
  assert (Hinv : ContextInv (worldContext "paris france")).
  { split; [reflexivity|intros _; reflexivity]. }
  split; [exact Hfuel|]. split; [exact Hinv|].
  exact (Go_records_documents World.isStreetSynonym World.looksLikeHouseNumber
           World.houseNumbersMatch World.hierarchy World.index 9 Country
           (worldContext "paris france") Hfuel Hinv).
Defined.

Lemma Go_house_number_positions_in_range_witness :
  9 ≤ 9 + GeoType_to_size Country
  ∧ ContextInv (worldContext "rue de rivoli 1")
  ∧ ∃ ctx',
      worldGo 9 Country (worldContext "rue de rivoli 1") = Done ctx'
      ∧ ∀ k, k ∈ m_houseNumberPositionsInQuery ctx' →
          k < length (m_tokens ctx').
Proof.
  assert (Hfuel : 9 ≤ 9 + GeoType_to_size Country) by (simpl; lia).
  assert (Hinv : ContextInv (worldContext "rue de rivoli 1")).
  { split; [reflexivity|intros _; reflexivity]. }
  split; [exact Hfuel|]. split; [exact Hinv|].
  apply (Go_house_number_positions_in_range World.isStreetSynonym
           World.looksLikeHouseNumber World.houseNumbersMatch World.hierarchy
           World.index 9 Country (worldContext "rue de rivoli 1") Hfuel Hinv).
  intros k Hk. simpl in Hk. by apply elem_of_empty in Hk.
Defined.

Lemma Go_ignores_other_levels_witness :
  (∀ sub d, d ∈ Index.ForEachDocId World.buildingIndex sub →
     GeoType_to_size Building
     ≤ GeoType_to_size (Entry.m_type (Index.GetDoc World.buildingIndex d)))
  ∧ ProcessQuery World.tokenize World.isStreetSynonym
      World.looksLikeHouseNumber World.houseNumbersMatch World.hierarchy
      World.buildingIndex "rue de rivoli 1" [] = Done [].
Proof.
  assert (Hnone : ∀ sub d, d ∈ Index.ForEachDocId World.buildingIndex sub →
            GeoType_to_size Building
            ≤ GeoType_to_size
                (Entry.m_type (Index.GetDoc World.buildingIndex d))).
  { intros sub d Hd. simpl in Hd. apply list_elem_of_singleton in Hd.
    subst d. simpl. lia. }
  split; [exact Hnone|].
  exact (proj2 (Go_ignores_other_levels World.tokenize World.isStreetSynonym
                  World.looksLikeHouseNumber World.houseNumbersMatch
                  World.hierarchy World.buildingIndex)
           Hnone "rue de rivoli 1" []).
Defined.

Lemma Go_records_found_document_witness :
  9 ≤ 9 + GeoType_to_size Country
  ∧ ContextInv (worldContext "paris france")
  ∧ 2 ∈ Index.ForEachDocId World.index
          (take (0 + 1 - 0) (drop 0 (m_tokens (worldContext "paris france"))))
  ∧ Entry.m_type (Index.GetDoc World.index 2) = Locality
  ∧ ∃ ctx' evs,
      worldGo 9 Country (worldContext "paris france") = Done ctx'
      ∧ g_events ctx' = g_events (worldContext "paris france") ++ evs
      ∧ (BeamKey.mk 3 Locality [0] [Locality], sumWeights [Locality; Count])
        ∈ recorded evs.
Proof.
  assert (Hfuel : 9 ≤ 9 + GeoType_to_size Country) by (simpl; lia).
  assert (Hinv : ContextInv (worldContext "paris france")).
  { split; [reflexivity|intros _; reflexivity]. }
  assert (Hsize : fitsSize (length (m_tokens (worldContext "paris france")))).
  { vm_compute. reflexivity. }
  assert (Hd : 2 ∈ Index.ForEachDocId World.index
                 (take (0 + 1 - 0)
                    (drop 0 (m_tokens (worldContext "paris france"))))).
  { vm_compute. apply list_elem_of_singleton. reflexivity. }
  assert (Hdt : Entry.m_type (Index.GetDoc World.index 2) = Locality)
    by reflexivity.
  split; [exact Hfuel|]. split; [exact Hinv|]. split; [exact Hd|].
  split; [exact Hdt|].
  apply (Go_records_found_document World.isStreetSynonym
           World.looksLikeHouseNumber World.houseNumbersMatch World.hierarchy
           World.index 9 Country Locality (worldContext "paris france") 0 0 2
           Hfuel Hinv Hsize eq_refl); try done.
  - simpl. lia.
  - vm_compute. lia.
  - intros k Hk. assert (k = 0) as -> by lia. reflexivity.
Defined.

Lemma Go_records_building_with_address_witness :
  9 ≤ 9 + GeoType_to_size Country
  ∧ ContextInv (worldContext "rue de rivoli 1")
  ∧ ∃ ctx' evs,
      worldGo 9 Country (worldContext "rue de rivoli 1") = Done ctx'
      ∧ g_events ctx' = g_events (worldContext "rue de rivoli 1") ++ evs
      ∧ ∀ key c, (key, c) ∈ recorded evs →
          IsBuildingWithAddress key = true → BeamKey.m_type key = Building.
Proof.
  assert (Hfuel : 9 ≤ 9 + GeoType_to_size Country) by (simpl; lia).
  assert (Hinv : ContextInv (worldContext "rue de rivoli 1")).
  { split; [reflexivity|intros _; reflexivity]. }
  split; [exact Hfuel|]. split; [exact Hinv|].
  destruct (Go_records_building_with_address World.isStreetSynonym
              World.looksLikeHouseNumber World.houseNumbersMatch
              World.hierarchy World.index 9 Country
              (worldContext "rue de rivoli 1") Hfuel Hinv)
    as (ctx' & evs & Hrun & Hev & Hkeys).
  exists ctx', evs. split; [exact Hrun|]. split; [exact Hev|].
  intros key c Hin Hb. exact (proj1 (proj1 (Hkeys key c Hin) Hb)).
Defined.

Lemma GetNumUsedTokens_counts_witness :
  ContextInv World.rivoliMarked
  ∧ fitsSize (length (m_tokens World.rivoliMarked))
  ∧ GetNumUsedTokens World.rivoliMarked = Done 1%N.
Proof.
  assert (Hinv : ContextInv World.rivoliMarked).
  { split; [reflexivity|intros _; reflexivity]. }
  assert (Hsize : fitsSize (length (m_tokens World.rivoliMarked))).
  { vm_compute. reflexivity. }
  split; [exact Hinv|]. split; [exact Hsize|].
  exact (proj1 (GetNumUsedTokens_counts World.tokenize)
           World.rivoliMarked Hinv Hsize).
Defined.

Lemma NextType_next_witness :
  Street ≠ Count
  ∧ ∃ next, NextType Street = Done next
            ∧ GeoType_to_size next = S (GeoType_to_size Street).
Proof.
  assert (Hne : Street ≠ Count) by discriminate.
  split; [exact Hne|].
  destruct (proj2 (NextType_next Street) Hne) as (next & Hrun & Hsize & _).
  exists next. split; [exact Hrun|exact Hsize].
Defined.
